(** * UPS SNMP integration: a shallow embedding of the polling coordinator

    The development follows the three parts of the Home Assistant custom
    component [ups_snmp_ha]:

    - [snmp_helper.py]: the transport, one SNMP GET per OID;
    - the static OID tables and enumeration maps of [coordinator.py];
    - [UpsSnmpCoordinator]: protocol detection, the fast and slow polling
      cadences, value normalisation, derived states, metadata and backoff.

    Python builtins the code relies on ([str.strip], [int], [float],
    [round], true division, the two regular expressions) are modelled in
    module [Py].  Strings are sequences of code points below 256; floats,
    the clock readings among them, are the kernel's binary64 numbers. *)

From Stdlib Require Import ZArith Lia Floats String Ascii List Bool.
From stdpp Require Import base option list gmap strings.

Local Open Scope string_scope.
Local Open Scope list_scope.
Local Open Scope Z_scope.

(** ** Results and exceptions *)

Inductive result (E A : Type) : Type :=
| Ok (a : A)
| Err (e : E).
Arguments Ok {E A} a.
Arguments Err {E A} e.

(** The builtin exceptions the modelled code can raise. *)
Inductive py_error : Type :=
| TypeError
| ValueError
| OverflowError
| KeyError
| RuntimeError.

(** ** Python builtins *)

Module Py.

(** [str.isspace] on code points below 256; [str.strip()] removes exactly
    these characters from both ends. *)
Definition isspace (c : ascii) : bool :=
  let n := N_of_ascii c in
  ((9 <=? n) && (n <=? 13) || (28 <=? n) && (n <=? 32)
   || (n =? 133) || (n =? 160))%N.

(** The regular expression class [\d] on code points below 256. *)
Definition isdigit (c : ascii) : bool :=
  let n := N_of_ascii c in ((48 <=? n) && (n <=? 57))%N.

Definition digit_value (c : ascii) : Z := Z.of_N (N_of_ascii c) - 48.

Fixpoint lstrip (s : string) : string :=
  match s with
  | EmptyString => EmptyString
  | String c r => if isspace c then lstrip r else s
  end.

Fixpoint rstrip (s : string) : string :=
  match s with
  | EmptyString => EmptyString
  | String c r =>
      match rstrip r with
      | EmptyString => if isspace c then EmptyString else String c EmptyString
      | r' => String c r'
      end
  end.

Definition strip (s : string) : string := rstrip (lstrip s).

Fixpoint all_digits (s : string) : bool :=
  match s with
  | EmptyString => true
  | String c r => isdigit c && all_digits r
  end.

(** Value of a run of decimal digits, most significant first. *)
Fixpoint digits_acc (acc : Z) (s : string) : Z :=
  match s with
  | EmptyString => acc
  | String c r => digits_acc (10 * acc + digit_value c) r
  end.

Definition int_of_digits (s : string) : Z := digits_acc 0 s.

(** Longest prefix of digits, and what follows it. *)
Fixpoint span_digits (s : string) : string * string :=
  match s with
  | EmptyString => (EmptyString, EmptyString)
  | String c r =>
      if isdigit c
      then let '(d, rest) := span_digits r in (String c d, rest)
      else (EmptyString, s)
  end.

(** [re.search(r"\((\d+)\)", text)]: group 1 of the leftmost match.  At an
    opening parenthesis the digit run is taken whole: a shorter run would
    need the closing parenthesis where a digit stands. *)
Fixpoint search_paren_digits (s : string) : option string :=
  match s with
  | EmptyString => None
  | String c r =>
      if Ascii.eqb c "("%char
      then match span_digits r with
           | (String d ds, String c' _) =>
               if Ascii.eqb c' ")"%char then Some (String d ds)
               else search_paren_digits r
           | _ => search_paren_digits r
           end
      else search_paren_digits r
  end.

(** Splits an optional leading minus sign off. *)
Definition split_minus (s : string) : bool * string :=
  match s with
  | String c r => if Ascii.eqb c "-"%char then (true, r) else (false, s)
  | EmptyString => (false, s)
  end.

Definition nonempty (s : string) : bool :=
  match s with EmptyString => false | String _ _ => true end.

(** [re.fullmatch(r"-?\d+", text)] *)
Definition fullmatch_int (s : string) : bool :=
  let '(_, body) := split_minus s in nonempty body && all_digits body.

(** [re.fullmatch(r"-?\d+\.\d+", text)]: the parts on both sides of the
    point when the text matches. *)
Definition fullmatch_decimal (s : string) : option (bool * string * string) :=
  let '(neg, body) := split_minus s in
  match span_digits body with
  | (String d ds, String c frac) =>
      if Ascii.eqb c "."%char && nonempty frac && all_digits frac
      then Some (neg, String d ds, frac)
      else None
  | _ => None
  end.

(** *** Binary64 arithmetic *)

Definition prec : Z := 53.
Definition emax : Z := 1024.

(** The float nearest to [(-1)^neg * n / d], ties to even, for [0 <= n] and
    [0 < d]; the quotient is taken with at least 55 significant bits and its
    remainder gives the rounding direction. *)
Definition nearest_float (neg : bool) (n d : Z) : float :=
  if n =? 0 then (if neg then PrimFloat.neg_zero else PrimFloat.zero)
  else
    let sh := Z.max 0 (56 + Z.log2 d - Z.log2 n) in
    let num := n * 2 ^ sh in
    let q := num / d in
    let r := num mod d in
    let loc :=
      if r =? 0 then loc_Exact else loc_Inexact (Z.compare (2 * r) d) in
    SF2Prim (binary_round_aux prec emax neg q (- sh) loc).

(** [float(n)] for an integer, as in [int * float]: the nearest float, or
    [OverflowError] when it is out of range. *)
Definition float_of_int (n : Z) : result py_error float :=
  let f := nearest_float (n <? 0) (Z.abs n) 1 in
  if is_infinity f then Err OverflowError else Ok f.

(** [n / d] on integers (true division), [d] positive. *)
Definition int_truediv (n d : Z) : result py_error float :=
  let f := nearest_float (n <? 0) (Z.abs n) d in
  if is_infinity f then Err OverflowError else Ok f.

(** [float(text)] for a text matching [-?\d+\.\d+]; too large a numeral
    gives an infinity, not an error. *)
Definition float_of_decimal (neg : bool) (ip fp : string) : float :=
  nearest_float neg (int_of_digits (ip +:+ fp)) (10 ^ Z.of_nat (String.length fp)).

(** Nearest integer to [n / d], ties to even, for [0 <= n] and [0 < d]. *)
Definition div_half_even (n d : Z) : Z :=
  let q := n / d in
  let r := n mod d in
  match Z.compare (2 * r) d with
  | Lt => q
  | Gt => q + 1
  | Eq => if Z.even q then q else q + 1
  end.

(** [round(x, ndigits)] on a float, for [0 <= ndigits]: the exact binary
    value is rounded to [ndigits] decimals, ties to even, and the decimal
    result is converted back to the nearest float. *)
Definition round (x : float) (ndigits : Z) : result py_error float :=
  match Prim2SF x with
  | S754_finite s m e =>
      let p := 10 ^ ndigits in
      let k :=
        if 0 <=? e then Zpos m * 2 ^ e * p
        else div_half_even (Zpos m * p) (2 ^ (- e)) in
      let f := nearest_float s k p in
      if is_infinity f then Err OverflowError else Ok f
  | _ => Ok x
  end.

(** [int(x)] on a float: truncation toward zero. *)
Definition int_of_float (x : float) : result py_error Z :=
  match Prim2SF x with
  | S754_zero _ => Ok 0
  | S754_infinity _ => Err OverflowError
  | S754_nan => Err ValueError
  | S754_finite s m e =>
      let a := if 0 <=? e then Zpos m * 2 ^ e else Zpos m / 2 ^ (- e) in
      Ok (if s then - a else a)
  end.

(** Exponent of the smallest float, and the first power of two past the
    largest one, counted in units of [2^emin]. *)
Definition emin : Z := -1074.
Definition top : Z := 2 ^ 2098.

(** What a float is worth in units of [2^emin], the spacing of the
    smallest floats: an integer for every finite float.  The infinities
    are put at [top] and its opposite. *)
Definition units (f : spec_float) : Z :=
  match f with
  | S754_zero _ => 0
  | S754_finite s m e => cond_Zopp s (Zpos m * 2 ^ (e - emin))
  | S754_infinity s => cond_Zopp s top
  | S754_nan => 0
  end.

Definition ge_int_sf (f : spec_float) (n : Z) : bool :=
  match f with
  | S754_nan => false
  | S754_infinity s => negb s
  | _ => n * 2 ^ 1074 <=? units f
  end.

(** [x >= n] for a float and an integer: the interpreter compares the two
    numbers exactly, without converting the integer. *)
Definition float_ge_int (x : float) (n : Z) : bool := ge_int_sf (Prim2SF x) n.

(** White space that [int(text)] skips at both ends. *)
Definition isspace_int (c : ascii) : bool :=
  let n := N_of_ascii c in
  ((9 <=? n) && (n <=? 13) || (n =? 32) || (n =? 133) || (n =? 160))%N.

Fixpoint lstrip_int (s : string) : string :=
  match s with
  | EmptyString => EmptyString
  | String c r => if isspace_int c then lstrip_int r else s
  end.

Fixpoint rstrip_int (s : string) : string :=
  match s with
  | EmptyString => EmptyString
  | String c r =>
      match rstrip_int r with
      | EmptyString => if isspace_int c then EmptyString else String c EmptyString
      | r' => String c r'
      end
  end.

(** Digits with single underscores between them: [after_digit] tells
    whether the previous character was a digit. *)
Fixpoint int_body (after_digit : bool) (acc : Z) (s : string) : option Z :=
  match s with
  | EmptyString => if after_digit then Some acc else None
  | String c r =>
      if isdigit c then int_body true (10 * acc + digit_value c) r
      else if Ascii.eqb c "_"%char && after_digit then
        match r with
        | String c' _ => if isdigit c' then int_body false acc r else None
        | EmptyString => None
        end
      else None
  end.

(** [sys.get_int_max_str_digits()], as the interpreter starts. *)
Definition int_max_str_digits : Z := 4300.

(** The digits of a numeral: the sign, the underscores and the white
    space around it do not count, leading zeros do. *)
Fixpoint count_digits (s : string) : Z :=
  match s with
  | EmptyString => 0
  | String c r => (if isdigit c then 1 else 0) + count_digits r
  end.

(** [int(text)] on a string, base ten; [None] is [ValueError], which a text
    that is no numeral raises, and a numeral of more than
    [int_max_str_digits] digits as well. *)
Definition int_of_str (s : string) : option Z :=
  let t := rstrip_int (lstrip_int s) in
  let '(neg, body) :=
    match t with
    | String c r =>
        if Ascii.eqb c "-"%char then (true, r)
        else if Ascii.eqb c "+"%char then (false, r)
        else (false, t)
    | EmptyString => (false, t)
    end in
  match int_body false 0 body with
  | Some n =>
      if int_max_str_digits <? count_digits body then None
      else Some (if neg then - n else n)
  | None => None
  end.

(** [int(text)] as a call that returns or raises. *)
Definition int (s : string) : result py_error Z :=
  match int_of_str s with
  | Some n => Ok n
  | None => Err ValueError
  end.

End Py.

(** The model against the interpreter: [round(0.125, 2) = 0.12] and
    [round(0.375, 2) = 0.38] (ties go to the even digit),
    [round(2.675, 2) = 2.67] and [round(0.35, 1) = 0.3] (the floats lie
    below the decimal tie), [int(-2.7) = -2], [True / 6000]. *)
Example round_examples :
  Py.round 0x1p-3%float 2 = Ok 0x1.eb851eb851eb8p-4%float
  /\ Py.round 0x1.8p-2%float 2 = Ok 0x1.851eb851eb852p-2%float
  /\ Py.round 0x1.5666666666666p+1%float 2 = Ok 0x1.55c28f5c28f5cp+1%float
  /\ Py.round 0x1.6666666666666p-2%float 1 = Ok 0x1.3333333333333p-2%float
  /\ Py.int_of_float (-0x1.599999999999ap+1)%float = Ok (-2)
  /\ Py.int_truediv 1 6000 = Ok 0x1.5d867c3ece2a5p-13%float
  /\ Py.float_of_int (2 ^ 1024) = Err OverflowError.
Proof. vm_compute. repeat split; reflexivity. Qed.

(** ** Values and the protocol registry *)

(** What a snapshot holds under a key.  In Python [bool] is a subclass of
    [int], so a [VBool] passes every [isinstance(_, (int, float))] test. *)
Inductive value : Type :=
| VInt (n : Z)
| VFloat (f : float)
| VStr (s : string)
| VBool (b : bool).

Abbreviation snapshot := (gmap string value).

Inductive protocol_id : Type := UPS_MIB | APC_MIB.

(** One entry of an OID table: [{"oid": ..., "scale": ...,
    "timeticks_minutes": ...}], the last two optional. *)
Record oid_spec : Type := mk_spec {
  oid : string;
  scale : option float;
  timeticks_minutes : bool
}.

Definition plain (o : string) : oid_spec := mk_spec o None false.

(** The literal [0.1]. *)
Definition one_tenth : float := 0x1.999999999999ap-4%float.
Definition scaled (o : string) : oid_spec := mk_spec o (Some one_tenth) false.

Abbreviation oid_table := (list (string * oid_spec)).

Definition UPS_MIB_OIDS : oid_table :=
  [ ("manufacturer", plain "1.3.6.1.2.1.33.1.1.1.0");
    ("model", plain "1.3.6.1.2.1.33.1.1.2.0");
    ("firmware", plain "1.3.6.1.2.1.33.1.1.3.0");
    ("name", plain "1.3.6.1.2.1.33.1.1.5.0");
    ("battery_status", plain "1.3.6.1.2.1.33.1.2.1.0");
    ("seconds_on_battery", plain "1.3.6.1.2.1.33.1.2.2.0");
    ("runtime_remaining", plain "1.3.6.1.2.1.33.1.2.3.0");
    ("battery_charge", plain "1.3.6.1.2.1.33.1.2.4.0");
    ("battery_voltage", scaled "1.3.6.1.2.1.33.1.2.5.0");
    ("battery_temperature", plain "1.3.6.1.2.1.33.1.2.7.0");
    ("input_line_count", plain "1.3.6.1.2.1.33.1.3.2.0");
    ("input_frequency", scaled "1.3.6.1.2.1.33.1.3.3.1.2.1");
    ("input_voltage", plain "1.3.6.1.2.1.33.1.3.3.1.3.1");
    ("input_current", scaled "1.3.6.1.2.1.33.1.3.3.1.4.1");
    ("input_power", plain "1.3.6.1.2.1.33.1.3.3.1.5.1");
    ("output_source_raw", plain "1.3.6.1.2.1.33.1.4.1.0");
    ("output_frequency", scaled "1.3.6.1.2.1.33.1.4.2.0");
    ("output_line_count", plain "1.3.6.1.2.1.33.1.4.3.0");
    ("bypass_frequency", scaled "1.3.6.1.2.1.33.1.5.1.0");
    ("bypass_line_count", plain "1.3.6.1.2.1.33.1.5.2.0");
    ("alarms_present", plain "1.3.6.1.2.1.33.1.6.1.0") ].

Definition APC_MIB_OIDS : oid_table :=
  [ ("model", plain "1.3.6.1.4.1.318.1.1.1.1.1.1.0");
    ("name", plain "1.3.6.1.4.1.318.1.1.1.1.1.2.0");
    ("firmware", plain "1.3.6.1.4.1.318.1.1.1.1.2.1.0");
    ("serial_number", plain "1.3.6.1.4.1.318.1.1.1.1.2.3.0");
    ("battery_status", plain "1.3.6.1.4.1.318.1.1.1.2.1.1.0");
    ("battery_charge", plain "1.3.6.1.4.1.318.1.1.1.2.2.1.0");
    ("battery_temperature", plain "1.3.6.1.4.1.318.1.1.1.2.2.2.0");
    ("runtime_remaining",
      mk_spec "1.3.6.1.4.1.318.1.1.1.2.2.3.0" None true);
    ("output_source_raw", plain "1.3.6.1.4.1.318.1.1.1.4.1.1.0");
    ("output_voltage", plain "1.3.6.1.4.1.318.1.1.1.4.2.1.0");
    ("output_frequency", plain "1.3.6.1.4.1.318.1.1.1.4.2.2.0");
    ("output_load", plain "1.3.6.1.4.1.318.1.1.1.4.2.3.0");
    ("input_voltage", plain "1.3.6.1.4.1.318.1.1.1.3.2.1.0");
    ("input_frequency", plain "1.3.6.1.4.1.318.1.1.1.3.2.4.0") ].

Definition UPS_OUTPUT_SOURCE_MAP : list (Z * string) :=
  [ (1, "other"); (2, "none"); (3, "normal"); (4, "bypass");
    (5, "battery"); (6, "booster"); (7, "reducer") ].

Definition APC_OUTPUT_SOURCE_MAP : list (Z * string) :=
  [ (1, "other"); (2, "normal"); (3, "battery"); (4, "bypass") ].

Definition BATTERY_STATUS_MAP : list (Z * string) :=
  [ (1, "unknown"); (2, "normal"); (3, "low"); (4, "depleted") ].

(** [d.get(key)] on a table written as a dict literal. *)
Fixpoint table_get (key : string) (t : oid_table) : option oid_spec :=
  match t with
  | [] => None
  | (k, sp) :: rest => if String.eqb key k then Some sp else table_get key rest
  end.

(** [d.get(code, default)] on an enumeration map. *)
Fixpoint enum_get (code : Z) (m : list (Z * string)) (default : string) : string :=
  match m with
  | [] => default
  | (k, txt) :: rest => if code =? k then txt else enum_get code rest default
  end.

(** [code in {a, b}] *)
Definition code_in (code : Z) (codes : list Z) : bool :=
  existsb (Z.eqb code) codes.

(** ** Normalisation: [_coerce_snmp_value] and the units of [_fetch_keys] *)

(** [return int(...)] *)
Definition return_int (r : result py_error Z) : result py_error (option value) :=
  match r with
  | Ok n => Ok (Some (VInt n))
  | Err e => Err e
  end.

Definition _coerce_snmp_value (v : option value) : result py_error (option value) :=
  match v with
  | None => Ok None
  | Some (VStr s) =>
      let text := Py.strip s in
      if Py.nonempty text then
        match Py.search_paren_digits text with
        | Some d => return_int (Py.int d)
        | None =>
            if Py.fullmatch_int text then return_int (Py.int text)
            else
              match Py.fullmatch_decimal text with
              | Some (neg, ip, fp) => Ok (Some (VFloat (Py.float_of_decimal neg ip fp)))
              | None => Ok (Some (VStr text))
              end
        end
      else Ok None
  | Some numeric => Ok (Some numeric)
  end.

(** [isinstance(value, (int, float))] *)
Definition is_number (v : value) : bool :=
  match v with
  | VStr _ => false
  | _ => true
  end.

Definition six_thousand : float := 6000%float.

(** [value / 6000] *)
Definition div_6000 (v : value) : result py_error float :=
  match v with
  | VInt n => Py.int_truediv n 6000
  | VBool b => Py.int_truediv (Z.b2z b) 6000
  | VFloat f => Ok (f / six_thousand)%float
  | VStr _ => Err TypeError
  end.

(** [value * scale] for a numeric [value] and a float [scale]. *)
Definition mul_scale (v : value) (sc : float) : result py_error float :=
  match v with
  | VInt n =>
      match Py.float_of_int n with
      | Ok f => Ok (f * sc)%float
      | Err e => Err e
      end
  | VBool b =>
      match Py.float_of_int (Z.b2z b) with
      | Ok f => Ok (f * sc)%float
      | Err e => Err e
      end
  | VFloat f => Ok (f * sc)%float
  | VStr _ => Err TypeError
  end.

(** Lines 278 to 282 of [_fetch_keys]: the two unit conversions applied
    to a coerced value, one after the other. *)
Definition apply_unit (spec : oid_spec) (v : value) : result py_error value :=
  let after_ticks :=
    if timeticks_minutes spec then
      match div_6000 v with
      | Ok q =>
          match Py.round q 1 with
          | Ok r => Ok (VFloat r)
          | Err e => Err e
          end
      | Err e => Err e
      end
    else Ok v in
  match after_ticks with
  | Err e => Err e
  | Ok v1 =>
      match scale spec with
      | Some sc =>
          if is_number v1 then
            match mul_scale v1 sc with
            | Ok p =>
                match Py.round p 2 with
                | Ok r => Ok (VFloat r)
                | Err e => Err e
                end
            | Err e => Err e
            end
          else Ok v1
      | None => Ok v1
      end
  end.

(** What the transport hands back: a text or [None] per OID. *)
Abbreviation raw_values := (gmap string (option string)).

(** [raw.get(oid)], then the coercion. *)
Definition raw_get (raw : raw_values) (o : string) : option value :=
  match raw !! o with
  | Some (Some txt) => Some (VStr txt)
  | _ => None
  end.

(** The loop of [_fetch_keys] over [keys], filling [data]. *)
Fixpoint fetch_loop (oid_map : oid_table) (raw : raw_values)
    (keys : list string) (data : snapshot) : result py_error snapshot :=
  match keys with
  | [] => Ok data
  | key :: rest =>
      match table_get key oid_map with
      | None => fetch_loop oid_map raw rest data
      | Some spec =>
          match _coerce_snmp_value (raw_get raw (oid spec)) with
          | Err e => Err e
          | Ok None => fetch_loop oid_map raw rest data
          | Ok (Some v) =>
              match apply_unit spec v with
              | Ok v' => fetch_loop oid_map raw rest (<[key := v']> data)
              | Err e => Err e
              end
          end
      end
  end.

(** ** Derived states: [_derive_states] *)

(** [int(x)] on a snapshot value. *)
Definition int_of_value (v : value) : result py_error Z :=
  match v with
  | VInt n => Ok n
  | VBool b => Ok (Z.b2z b)
  | VFloat f => Py.int_of_float f
  | VStr s => Py.int s
  end.

(** The [try] block around the battery status: [TypeError] and
    [ValueError] give "unknown", anything else escapes. *)
Definition battery_status_text (v : value) : result py_error string :=
  match int_of_value v with
  | Ok n => Ok (enum_get n BATTERY_STATUS_MAP "unknown")
  | Err TypeError | Err ValueError => Ok "unknown"
  | Err e => Err e
  end.

Definition _derive_states (protocol : option protocol_id) (data : snapshot)
    : result py_error snapshot :=
  let output_source_raw := data !! "output_source_raw" in
  let derived0 : result py_error snapshot :=
    match data !! "battery_status" with
    | Some battery_status =>
        match battery_status_text battery_status with
        | Ok txt => Ok (<["battery_status_text" := VStr txt]> ∅)
        | Err e => Err e
        end
    | None => Ok ∅
    end in
  match derived0 with
  | Err e => Err e
  | Ok derived =>
      match output_source_raw with
      | None => Ok derived
      | Some osr =>
          let '(source_map, normal_values, battery_values) :=
            match protocol with
            | Some APC_MIB => (APC_OUTPUT_SOURCE_MAP, [2; 4], [3])
            | _ => (UPS_OUTPUT_SOURCE_MAP, [3; 4], [5])
            end in
          match int_of_value osr with
          | Err e => Err e
          | Ok code =>
              let output_source_text := enum_get code source_map "unknown" in
              let on_battery := code_in code battery_values in
              let ac_power := code_in code normal_values in
              Ok (<["on_bypass" := VBool (String.eqb output_source_text "bypass")]>
                  (<["ac_power" := VBool ac_power]>
                  (<["on_battery" := VBool on_battery]>
                  (<["output_source" := VStr output_source_text]> derived))))
          end
      end
  end.

(** ** Effects

    The code talks to the device ([get_cmd], one request per OID), reads
    the monotonic clock and writes warnings to the log.  A computation is a
    tree of these requests; [run] plays it against any world that answers
    them and records what was asked.  [asyncio.gather] starts the requests
    of a batch together; here they are issued in the order of the list.
    Debug-level logging and the per-host lock (a single coordinator task
    is modelled) are left out. *)

(** The arguments of one [get_cmd] call. *)
Record snmp_request : Type := mk_request {
  rq_host : string;
  rq_port : Z;
  rq_timeout : Z;
  rq_retries : Z;
  rq_community : string;
  rq_mp_model : Z;
  rq_oid : string
}.

(** The value object of a variable binding. *)
Inductive snmp_object : Type :=
| ObjNull
| ObjNoSuchInstance
| ObjNoSuchObject
| ObjEndOfMibView
| ObjValue (text : string).

(** How [UdpTransportTarget.create] followed by [get_cmd] can end. *)
Inductive snmp_reply : Type :=
| RaisesTimeout
| RaisesOther
| Reply (error_indication error_status : bool) (var_binds : list snmp_object).

Inductive log_warning : Type :=
| WarnQueryTimeout (host : string) (timeout : Z) (o : string)
| WarnDetectDefault (host : string)
| WarnUpdateFailed (host : string) (backoff : Z).

Inductive io (A : Type) : Type :=
| Ret (a : A)
| GetCmd (rq : snmp_request) (k : snmp_reply -> io A)
| Monotonic (k : float -> io A)
| LogWarning (w : log_warning) (k : io A).
Arguments Ret {A} a.
Arguments GetCmd {A} rq k.
Arguments Monotonic {A} k.
Arguments LogWarning {A} w k.

Fixpoint io_bind {A B : Type} (m : io A) (k : A -> io B) : io B :=
  match m with
  | Ret a => k a
  | GetCmd rq h => GetCmd rq (fun r => io_bind (h r) k)
  | Monotonic h => Monotonic (fun t => io_bind (h t) k)
  | LogWarning w h => LogWarning w (io_bind h k)
  end.

#[global] Instance io_ret : MRet io := @Ret.
#[global] Instance io_mbind : MBind io := fun A B k m => io_bind m k.

Definition get_cmd (rq : snmp_request) : io snmp_reply := GetCmd rq Ret.
Definition time_monotonic : io float := Monotonic Ret.
Definition log_warning_ (w : log_warning) : io unit := LogWarning w (Ret tt).

(** What a run leaves behind, oldest first: each request with the reply it
    got, each clock reading, each warning. *)
Inductive event : Type :=
| EvGet (rq : snmp_request) (reply : snmp_reply)
| EvClock (t : float)
| EvWarning (w : log_warning).

(** The device and the clock: each answer may depend on everything asked
    before. *)
Record world (W : Type) : Type := mk_world {
  answer : snmp_request -> W -> snmp_reply * W;
  clock : W -> float * W
}.
Arguments mk_world {W} _ _.
Arguments answer {W} _ _ _.
Arguments clock {W} _ _.

Fixpoint run {W A : Type} (env : world W) (m : io A) (w : W)
    : A * W * list event :=
  match m with
  | Ret a => (a, w, [])
  | GetCmd rq k =>
      let '(r, w1) := answer env rq w in
      let '(a, w2, tr) := run env (k r) w1 in
      (a, w2, EvGet rq r :: tr)
  | Monotonic k =>
      let '(t, w1) := clock env w in
      let '(a, w2, tr) := run env (k t) w1 in
      (a, w2, EvClock t :: tr)
  | LogWarning msg k =>
      let '(a, w2, tr) := run env k w in
      (a, w2, EvWarning msg :: tr)
  end.

(** The requests of a trace, in order. *)
Definition requests (tr : list event) : list snmp_request :=
  omap (fun e => match e with EvGet rq _ => Some rq | _ => None end) tr.

(** ** The transport: [snmp_helper.py] *)

Definition _snmp_version_to_model (version : string) : Z :=
  if String.eqb version "1" then 0 else 1.

Definition _is_missing_value (v : snmp_object) : bool :=
  match v with
  | ObjValue _ => false
  | _ => true
  end.

Definition _async_get_snmp_value (host o community : string) (timeout : Z)
    (version : string) : io (option string) :=
  reply ← get_cmd (mk_request host 161 timeout 3 community
                     (_snmp_version_to_model version) o);
  match reply with
  | RaisesTimeout =>
      _ ← log_warning_ (WarnQueryTimeout host timeout o); mret None
  | RaisesOther => mret None
  | Reply error_indication error_status var_binds =>
      if error_indication then mret None
      else if error_status then mret None
      else
        match var_binds with
        | value_obj :: _ =>
            if _is_missing_value value_obj then mret None
            else
              match value_obj with
              | ObjValue text =>
                  let v := Py.strip text in
                  if Py.nonempty v then mret (Some v) else mret None
              | _ => mret None
              end
        | [] => mret None
        end
  end.

(** [asyncio.gather] with [return_exceptions=True]: every task's outcome,
    in the order of the tasks. *)
Fixpoint gather {E A : Type} (tasks : list (io (result E A))) : io (list (result E A)) :=
  match tasks with
  | [] => mret []
  | t :: rest => r ← t; rs ← gather rest; mret (r :: rs)
  end.

(** The loop over [zip(oids, results)] that fills [values]. *)
Fixpoint collect_values (pairs : list (string * result py_error (option string)))
    (values : raw_values) : raw_values :=
  match pairs with
  | [] => values
  | (o, Err _) :: rest => collect_values rest (<[o := None]> values)
  | (o, Ok r) :: rest => collect_values rest (<[o := r]> values)
  end.

Definition _async_get_snmp_values (host : string) (oids : list string)
    (community : string) (timeout : Z) (version : string) : io raw_values :=
  match oids with
  | [] => mret ∅
  | _ =>
      results ← gather
        (map (fun o => r ← _async_get_snmp_value host o community timeout version;
                       mret (Ok r)) oids);
      mret (collect_values (zip oids results) ∅)
  end.

(** [asyncio.run] in the executor thread: the same requests. *)
Definition _get_snmp_values_sync (host : string) (oids : list string)
    (community : string) (timeout : Z) (version : string) : io raw_values :=
  _async_get_snmp_values host oids community timeout version.

(** The Home Assistant instance: only its presence matters here. *)
Inductive hass_handle : Type := Hass.

Definition async_get_snmp_values (host : string) (oids : list string)
    (community : string) (timeout : Z) (version : string)
    (hass : option hass_handle) (use_executor : bool)
    : io (result py_error raw_values) :=
  match oids with
  | [] => mret (Ok ∅)
  | _ =>
      if use_executor then
        match hass with
        | None => mret (Err RuntimeError)
        | Some _ =>
            v ← _get_snmp_values_sync host oids community timeout version;
            mret (Ok v)
        end
      else
        v ← _async_get_snmp_values host oids community timeout version;
        mret (Ok v)
  end.

(** ** The coordinator: [UpsSnmpCoordinator] *)

Inductive update_failure : Type :=
| BackoffActive (remaining : float)
| NoSnmpData
| Rewrapped (e : py_error).

(** What a coordinator method can raise: [UpdateFailed] or a builtin
    exception on its way to being wrapped. *)
Inductive exn : Type :=
| Builtin (e : py_error)
| UpdateFailed (why : update_failure).

Record coordinator : Type := mk_coordinator {
  hass : hass_handle;
  host : string;
  community : string;
  device_name : string;
  fast_poll_interval : Z;
  slow_poll_interval : Z;
  _last_slow_poll : float;
  protocol : option protocol_id;
  snmp_version : string;
  data : snapshot;
  manufacturer : option value;
  hw_model : option value;
  serial_number : option value;
  fw_version : option value;
  _failure_count : Z;
  _backoff_until : float;
  _backoff_base : Z;
  _backoff_max : Z
}.

(** [__init__] *)
Definition init (h : hass_handle) (host_ community_ device_name_ : string)
    (fast_poll_interval_ slow_poll_interval_ : Z) : coordinator :=
  let fast_interval := Z.max 1 fast_poll_interval_ in
  {| hass := h; host := host_; community := community_;
     device_name := device_name_;
     fast_poll_interval := fast_interval;
     slow_poll_interval := Z.max 10 slow_poll_interval_;
     _last_slow_poll := 0%float; protocol := None; snmp_version := "2c";
     data := ∅; manufacturer := None; hw_model := None;
     serial_number := None; fw_version := None;
     _failure_count := 0; _backoff_until := 0%float;
     _backoff_base := 2; _backoff_max := 60 |}.

(** Attribute assignments. *)
Definition set_detected (p : protocol_id) (version : string) (c : coordinator) : coordinator :=
  mk_coordinator (hass c) (host c) (community c) (device_name c)
    (fast_poll_interval c) (slow_poll_interval c) (_last_slow_poll c)
    (Some p) version (data c) (manufacturer c) (hw_model c)
    (serial_number c) (fw_version c) (_failure_count c) (_backoff_until c)
    (_backoff_base c) (_backoff_max c).

Definition set_protocol (p : protocol_id) (c : coordinator) : coordinator :=
  set_detected p (snmp_version c) c.

Definition set_last_slow_poll (t : float) (c : coordinator) : coordinator :=
  mk_coordinator (hass c) (host c) (community c) (device_name c)
    (fast_poll_interval c) (slow_poll_interval c) t
    (protocol c) (snmp_version c) (data c) (manufacturer c) (hw_model c)
    (serial_number c) (fw_version c) (_failure_count c) (_backoff_until c)
    (_backoff_base c) (_backoff_max c).

Definition set_metadata (m hw sn fw : option value) (c : coordinator) : coordinator :=
  mk_coordinator (hass c) (host c) (community c) (device_name c)
    (fast_poll_interval c) (slow_poll_interval c) (_last_slow_poll c)
    (protocol c) (snmp_version c) (data c) m hw sn fw
    (_failure_count c) (_backoff_until c) (_backoff_base c) (_backoff_max c).

Definition set_backoff (count : Z) (until : float) (c : coordinator) : coordinator :=
  mk_coordinator (hass c) (host c) (community c) (device_name c)
    (fast_poll_interval c) (slow_poll_interval c) (_last_slow_poll c)
    (protocol c) (snmp_version c) (data c) (manufacturer c) (hw_model c)
    (serial_number c) (fw_version c) count until
    (_backoff_base c) (_backoff_max c).

Definition set_data (d : snapshot) (c : coordinator) : coordinator :=
  mk_coordinator (hass c) (host c) (community c) (device_name c)
    (fast_poll_interval c) (slow_poll_interval c) (_last_slow_poll c)
    (protocol c) (snmp_version c) d (manufacturer c) (hw_model c)
    (serial_number c) (fw_version c) (_failure_count c) (_backoff_until c)
    (_backoff_base c) (_backoff_max c).

(** A method: it may talk to the world, change the object's attributes, and
    return or raise.  Attribute changes made before a raise stay. *)
Definition method (A : Type) : Type :=
  coordinator -> io (result exn A * coordinator).

Definition method_ret {A : Type} (a : A) : method A :=
  fun c => Ret (Ok a, c).

Definition method_bind {A B : Type} (m : method A) (k : A -> method B) : method B :=
  fun c =>
    io_bind (m c) (fun '(r, c1) =>
      match r with
      | Ok a => k a c1
      | Err e => Ret (Err e, c1)
      end).

Definition raise {A : Type} (e : exn) : method A :=
  fun c => Ret (Err e, c).

Definition lift_io {A : Type} (m : io A) : method A :=
  fun c => io_bind m (fun a => Ret (Ok a, c)).

Definition self : method coordinator := fun c => Ret (Ok c, c).

Definition assign (f : coordinator -> coordinator) : method unit :=
  fun c => Ret (Ok tt, f c).

(** [try: body except Exception as err: handler(err)] *)
Definition try_except {A : Type} (body : method A) (handler : exn -> method A) : method A :=
  fun c =>
    io_bind (body c) (fun '(r, c1) =>
      match r with
      | Ok a => Ret (Ok a, c1)
      | Err e => handler e c1
      end).

Declare Scope method_scope.
Delimit Scope method_scope with method.
Notation "x <- m ;; k" := (method_bind m (fun x => k))
  (at level 100, m at next level, right associativity) : method_scope.
Notation "m ;;; k" := (method_bind m (fun _ => k))
  (at level 100, right associativity) : method_scope.
Local Open Scope method_scope.

Definition identifying_key (p : protocol_id) : string :=
  match p with
  | UPS_MIB => "output_source_raw"
  | APC_MIB => "model"
  end.

Definition _try_protocol (p : protocol_id) (oid_map : oid_table)
    (version : string) : method bool :=
  c <- self;;
  match table_get (identifying_key p) oid_map with
  | None => raise (Builtin KeyError)
  | Some spec =>
      let test_oid := oid spec in
      values <- lift_io (async_get_snmp_values (host c) [test_oid]
                           (community c) 5 version (Some (hass c)) true);;
      match values with
      | Err e => raise (Builtin e)
      | Ok vs =>
          method_ret (match vs !! test_oid with
                      | Some (Some _) => true
                      | _ => false
                      end)
      end
  end.

(** The [for version in ("2c", "1")] loop of [_detect_protocol] and what
    follows it. *)
Fixpoint detect_loop (versions : list string) : method unit :=
  match versions with
  | [] =>
      assign (set_protocol UPS_MIB);;;
      c <- self;;
      lift_io (log_warning_ (WarnDetectDefault (host c)))
  | version :: rest =>
      ups <- _try_protocol UPS_MIB UPS_MIB_OIDS version;;
      if (ups : bool) then assign (set_detected UPS_MIB version)
      else
        apc <- _try_protocol APC_MIB APC_MIB_OIDS version;;
        if (apc : bool) then assign (set_detected APC_MIB version)
        else detect_loop rest
  end.

Definition _detect_protocol : method unit := detect_loop ["2c"; "1"].

(** [[oid_map[key]["oid"] for key in keys if key in oid_map]] *)
Definition oids_of (oid_map : oid_table) (keys : list string) : list string :=
  omap (fun key => oid <$> table_get key oid_map) keys.

Definition _fetch_keys (oid_map : oid_table) (keys : list string) : method snapshot :=
  c <- self;;
  match oids_of oid_map keys with
  | [] => method_ret ∅
  | oids =>
      raw <- lift_io (async_get_snmp_values (host c) oids (community c) 5
                        (snmp_version c) (Some (hass c)) true);;
      match raw with
      | Err e => raise (Builtin e)
      | Ok raw =>
          match fetch_loop oid_map raw keys ∅ with
          | Ok d => method_ret d
          | Err e => raise (Builtin e)
          end
      end
  end.

(** Truth value of an object: [None], zero, the empty string and [False]
    are false. *)
Definition truthy (v : option value) : bool :=
  match v with
  | None => false
  | Some (VInt n) => negb (n =? 0)
  | Some (VFloat f) => negb (PrimFloat.eqb f PrimFloat.zero)
  | Some (VStr s) => Py.nonempty s
  | Some (VBool b) => b
  end.

(** [a or b] *)
Definition or_else (a b : option value) : option value :=
  if truthy a then a else b.

Definition _update_metadata (d : snapshot) (c : coordinator) : coordinator :=
  let manufacturer0 := d !! "manufacturer" in
  let manufacturer1 :=
    if negb (truthy manufacturer0)
       && match protocol c with Some APC_MIB => true | _ => false end
    then Some (VStr "APC") else manufacturer0 in
  set_metadata
    (or_else manufacturer1 (manufacturer c))
    (or_else (d !! "model") (hw_model c))
    (or_else (d !! "serial_number") (serial_number c))
    (or_else (d !! "firmware") (fw_version c))
    c.

Definition fast_keys : list string :=
  [ "output_source_raw"; "runtime_remaining"; "seconds_on_battery";
    "battery_charge"; "input_voltage" ].

Definition in_keys (key : string) (keys : list string) : bool :=
  existsb (String.eqb key) keys.

(** [set(protocol_oids.keys()) - fast_keys] *)
Definition slow_keys_of (oid_map : oid_table) : list string :=
  filter (fun key => in_keys key fast_keys = false) (map fst oid_map).

(** [now - last >= interval or last == 0.0] *)
Definition slow_due (now : float) (c : coordinator) : bool :=
  Py.float_ge_int (now - _last_slow_poll c)%float (slow_poll_interval c)
  || (_last_slow_poll c =? 0)%float.

Definition is_empty (d : snapshot) : bool := bool_decide (d = ∅).

Definition table_of (p : option protocol_id) : oid_table :=
  match p with
  | Some UPS_MIB => UPS_MIB_OIDS
  | _ => APC_MIB_OIDS
  end.

(** The body of [_async_update_data_locked] below the detection: the two
    fetches, the merge, the derived states and the metadata. *)
Definition update_after_detection (now : float) : method snapshot :=
  c1 <- self;;
  let protocol_oids := table_of (protocol c1) in
  fast_data <- _fetch_keys protocol_oids fast_keys;;
  slow_data <-
    (if slow_due now c1 then
       slow_data <- _fetch_keys protocol_oids (slow_keys_of protocol_oids);;
       (if is_empty slow_data then method_ret tt
        else assign (set_last_slow_poll now));;;
       method_ret slow_data
     else method_ret ∅);;
  c2 <- self;;
  if is_empty fast_data && is_empty slow_data && is_empty (data c2)
  then raise (UpdateFailed NoSnmpData)
  else
    let merged : snapshot := fast_data ∪ (slow_data ∪ data c2) in
    match _derive_states (protocol c2) merged with
    | Err e => raise (Builtin e)
    | Ok derived =>
        let final : snapshot := derived ∪ merged in
        assign (_update_metadata final);;;
        method_ret final
    end.

(** [if self.protocol is None: await self._detect_protocol()] *)
Definition detect_if_unknown : method unit :=
  c0 <- self;;
  match protocol c0 with
  | None => _detect_protocol
  | Some _ => method_ret tt
  end.

Definition _async_update_data_locked (now : float) : method snapshot :=
  detect_if_unknown;;;
  update_after_detection now.

(** The count is stored first; the sum [time.monotonic() + backoff] of a
    float and an integer converts the integer, which raises
    [OverflowError] when it is out of the floats' range, and adds in
    binary64. *)
Definition _handle_update_failure (err : exn) : method unit :=
  c <- self;;
  let count := _failure_count c + 1 in
  assign (set_backoff count (_backoff_until c));;;
  let backoff := Z.min (_backoff_max c) (_backoff_base c ^ count) in
  t <- lift_io time_monotonic;;
  match Py.float_of_int backoff with
  | Err e => raise (Builtin e)
  | Ok seconds =>
      assign (set_backoff count (t + seconds)%float);;;
      lift_io (log_warning_ (WarnUpdateFailed (host c) backoff))
  end.

Definition _async_update_data : method snapshot :=
  now <- lift_io time_monotonic;;
  c <- self;;
  if negb (_backoff_until c =? 0)%float && (now <? _backoff_until c)%float
  then raise (UpdateFailed (BackoffActive (_backoff_until c - now)%float))
  else
    lock_started <- lift_io time_monotonic;;
    d <- try_except
           (waited <- lift_io time_monotonic;;
            _async_update_data_locked now)
           (fun err =>
              _handle_update_failure err;;;
              match err with
              | UpdateFailed _ => raise err
              | Builtin e => raise (UpdateFailed (Rewrapped e))
              end);;
    c1 <- self;;
    assign (set_backoff 0 0%float);;;
    method_ret d.

(** The base class [DataUpdateCoordinator] calls [_async_update_data] on
    every tick and keeps what it returns as [self.data]; after a failure the
    previous [self.data] stays. *)
Definition refresh : method snapshot :=
  d <- _async_update_data;;
  assign (set_data d);;;
  method_ret d.

(** Running a method from a coordinator state in a world. *)
Definition exec {W A : Type} (env : world W) (m : method A) (c : coordinator) (w : W)
    : result exn A * coordinator * W * list event :=
  run env (m c) w.



(** * Properties *)

(** ** The order of binary64 sums and differences

    Sums and differences of floats are rounded; what the comparisons of the
    code need is that rounding keeps the order.  Finite floats are counted
    in units of [2^emin], where they are integers. *)

Module F64.

(** [K / 2^n] rounded to the nearest integer, ties to even. *)
Definition rne (K n : Z) : Z :=
  let q := K / 2 ^ n in
  match 2 * (K mod 2 ^ n) ?= 2 ^ n with
  | Lt => q
  | Eq => if Z.even q then q else q + 1
  | Gt => q + 1
  end.

(** Bits that do not fit in 53. *)
Definition excess (K : Z) : Z := Z.max (Z.log2 K + 1 - 53) 0.

(** A positive multiple [K] of [2^Py.emin] rounded to 53 significant bits. *)
Definition round_pos (K : Z) : Z := rne K (excess K) * 2 ^ excess K.

Definition round_units (K : Z) : Z :=
  match K with
  | Z0 => 0
  | Zpos _ => round_pos K
  | Zneg p => - round_pos (Zpos p)
  end.

Definition clamp (K : Z) : Z := Z.max (- Py.top) (Z.min K Py.top).

Definition is_nan_sf (f : spec_float) : bool :=
  match f with S754_nan => true | _ => false end.

(** *** Powers of two *)

Lemma pow2_pos (n : Z) : 0 <= n -> 0 < 2 ^ n.
Proof. intros. apply Z.pow_pos_nonneg; lia. Qed.

Lemma pow2_add (a b : Z) : 0 <= a -> 0 <= b -> 2 ^ (a + b) = 2 ^ a * 2 ^ b.
Proof. intros. now apply Z.pow_add_r. Qed.

Lemma pow2_le (a b : Z) : 0 <= a <= b -> 2 ^ a <= 2 ^ b.
Proof. intros. apply Z.pow_le_mono_r; lia. Qed.

Lemma pow2_lt (a b : Z) : 0 <= a < b -> 2 ^ a < 2 ^ b.
Proof. intros. apply Z.pow_lt_mono_r; lia. Qed.

Lemma pow2_succ (a : Z) : 0 <= a -> 2 ^ (a + 1) = 2 * 2 ^ a.
Proof. intros. rewrite pow2_add by lia. change (2 ^ 1) with 2. lia. Qed.

(** *** Digits *)

Lemma digits2_bounds (m : positive) :
  2 ^ (Zpos (digits2_pos m) - 1) <= Zpos m < 2 ^ Zpos (digits2_pos m).
Proof.
  induction m as [p IH|p IH|]; cbn [digits2_pos].
  - rewrite Pos2Z.inj_succ. unfold Z.succ.
    replace (Zpos (digits2_pos p) + 1 - 1) with (Zpos (digits2_pos p) - 1 + 1) by lia.
    rewrite !pow2_succ by lia. lia.
  - rewrite Pos2Z.inj_succ. unfold Z.succ.
    replace (Zpos (digits2_pos p) + 1 - 1) with (Zpos (digits2_pos p) - 1 + 1) by lia.
    rewrite !pow2_succ by lia. lia.
  - cbn. lia.
Qed.

Lemma digits_unique (x a b : Z) :
  0 < a -> 0 < b ->
  2 ^ (a - 1) <= x < 2 ^ a -> 2 ^ (b - 1) <= x < 2 ^ b -> a = b.
Proof.
  intros Ha Hb [H1 H2] [H3 H4].
  destruct (Z.lt_trichotomy a b) as [H|[H|H]]; [|exact H|].
  - assert (2 ^ a <= 2 ^ (b - 1)) by (apply pow2_le; lia). lia.
  - assert (2 ^ b <= 2 ^ (a - 1)) by (apply pow2_le; lia). lia.
Qed.

Lemma digits2_log2 (m : positive) : Zpos (digits2_pos m) = Z.log2 (Zpos m) + 1.
Proof.
  pose proof (digits2_bounds m) as Hd.
  pose proof (Z.log2_spec (Zpos m) eq_refl) as Hl.
  pose proof (Z.log2_nonneg (Zpos m)).
  apply (digits_unique (Zpos m)); try lia.
  replace (Z.log2 (Zpos m) + 1 - 1) with (Z.log2 (Zpos m)) by lia.
  exact Hl.
Qed.

Lemma digits2_shift (m : positive) (k : Z) (mz : positive) :
  0 <= k -> Zpos mz = Zpos m * 2 ^ k ->
  Zpos (digits2_pos mz) = Zpos (digits2_pos m) + k.
Proof.
  intros Hk E.
  pose proof (digits2_bounds m) as [H1 H2].
  pose proof (digits2_bounds mz) as H3.
  pose proof (pow2_pos k Hk).
  apply (digits_unique (Zpos mz)); try lia.
  rewrite E.
  replace (Zpos (digits2_pos m) + k - 1) with (Zpos (digits2_pos m) - 1 + k) by lia.
  rewrite !pow2_add by lia. split; nia.
Qed.

(** *** Alignment *)

Lemma pos_iter_xO (m p : positive) : Zpos (Pos.iter xO m p) = Zpos m * 2 ^ Zpos p.
Proof.
  induction p as [|p IH] using Pos.peano_ind.
  - cbn. lia.
  - rewrite Pos.iter_succ, Pos2Z.inj_xO, IH, Pos2Z.inj_succ.
    unfold Z.succ. rewrite pow2_succ by lia. lia.
Qed.

Lemma shl_align_spec (m : positive) (e e' : Z) :
  snd (shl_align m e e') = Z.min e e'
  /\ Zpos (fst (shl_align m e e')) = Zpos m * 2 ^ (e - Z.min e e').
Proof.
  unfold shl_align. destruct (e' - e) as [|p|p] eqn:E; cbn [fst snd].
  - replace (Z.min e e') with e by lia. rewrite Z.sub_diag. lia.
  - replace (Z.min e e') with e by lia. rewrite Z.sub_diag. lia.
  - replace (Z.min e e') with e' by lia. split; [reflexivity|].
    rewrite pos_iter_xO. f_equal. f_equal. lia.
Qed.

(** *** Shifting right *)

Lemma iter_pos_nat {A : Type} (f : A -> A) (p : positive) (x : A) :
  SpecFloat.iter_pos f p x = Nat.iter (Pos.to_nat p) f x.
Proof.
  revert x. induction p as [p IH|p IH|]; intros x; cbn [SpecFloat.iter_pos].
  - rewrite !IH, Pos2Nat.inj_xI. rewrite <- Nat.iter_add.
    replace (S (2 * Pos.to_nat p)) with (Pos.to_nat p + Pos.to_nat p + 1)%nat by lia.
    rewrite (Nat.iter_add (Pos.to_nat p + Pos.to_nat p) 1). reflexivity.
  - rewrite !IH, Pos2Nat.inj_xO. rewrite <- Nat.iter_add.
    f_equal. lia.
  - reflexivity.
Qed.

Lemma shr_1_spec (m : Z) (r s : bool) :
  0 <= m ->
  shr_1 {| shr_m := m; shr_r := r; shr_s := s |}
  = {| shr_m := m / 2; shr_r := Z.odd m; shr_s := r || s |}.
Proof.
  intros Hm. destruct m as [|[p|p|]|p]; try lia; cbn [shr_1].
  - reflexivity.
  - f_equal. rewrite Pos2Z.inj_xI.
    apply (Z.div_unique_pos _ _ _ 1); lia.
  - f_equal. rewrite Pos2Z.inj_xO.
    apply (Z.div_unique_pos _ _ _ 0); lia.
  - reflexivity.
Qed.

Lemma mod_pow2_succ (m k : Z) :
  0 <= k ->
  m mod 2 ^ (k + 1) = m mod 2 ^ k + 2 ^ k * ((m / 2 ^ k) mod 2).
Proof.
  intros Hk. rewrite pow2_add by lia. change (2 ^ 1) with 2.
  pose proof (pow2_pos k Hk). apply Z.rem_mul_r; lia.
Qed.

Lemma odd_mod2 (a : Z) : a mod 2 = if Z.odd a then 1 else 0.
Proof. rewrite Zmod_odd. reflexivity. Qed.

Lemma shr_iter (m : Z) (k : nat) :
  0 <= m ->
  Nat.iter (S k) shr_1 {| shr_m := m; shr_r := false; shr_s := false |}
  = {| shr_m := m / 2 ^ Z.of_nat (S k);
       shr_r := Z.odd (m / 2 ^ Z.of_nat k);
       shr_s := negb (m mod 2 ^ Z.of_nat k =? 0) |}.
Proof.
  intros Hm. induction k as [|k IH].
  - cbn [Nat.iter]. rewrite shr_1_spec by exact Hm.
    change (2 ^ Z.of_nat 1) with 2. change (2 ^ Z.of_nat 0) with 1.
    rewrite Z.div_1_r, Z.mod_1_r. reflexivity.
  - rewrite Nat.iter_succ, IH.
    assert (Hp : 0 < 2 ^ Z.of_nat (S k)) by (apply pow2_pos; lia).
    assert (Hp' : 0 < 2 ^ Z.of_nat k) by (apply pow2_pos; lia).
    rewrite shr_1_spec by (apply Z.div_pos; lia).
    f_equal.
    + rewrite Z.div_div by lia.
      replace (Z.of_nat (S (S k))) with (Z.of_nat (S k) + 1) by lia.
      rewrite pow2_succ by lia. f_equal. lia.
    + replace (Z.of_nat (S k)) with (Z.of_nat k + 1) by lia.
      rewrite mod_pow2_succ by lia. rewrite odd_mod2.
      pose proof (Z.mod_pos_bound m (2 ^ Z.of_nat k) Hp').
      destruct (Z.odd (m / 2 ^ Z.of_nat k)); cbn [orb].
      * symmetry. apply negb_true_iff, Z.eqb_neq. lia.
      * f_equal. f_equal. lia.
Qed.

(** Shifting [n] bits out and rounding on the two bits kept is rounding
    the quotient by [2^n] to nearest, ties to even. *)
Lemma shr_rne (m : Z) (p : positive) :
  0 <= m ->
  let mrs := SpecFloat.iter_pos shr_1 p {| shr_m := m; shr_r := false; shr_s := false |} in
  round_nearest_even (shr_m mrs) (loc_of_shr_record mrs) = rne m (Zpos p).
Proof.
  intros Hm. cbv zeta. rewrite iter_pos_nat.
  destruct (Pos2Nat.is_succ p) as [k Hk]. rewrite Hk, shr_iter by exact Hm.
  assert (En : Zpos p = Z.of_nat k + 1) by lia.
  unfold rne. rewrite En.
  replace (Z.of_nat (S k)) with (Z.of_nat k + 1) by lia.
  rewrite mod_pow2_succ, odd_mod2 by lia.
  assert (Hp : 0 < 2 ^ Z.of_nat k) by (apply pow2_pos; lia).
  pose proof (Z.mod_pos_bound m (2 ^ Z.of_nat k) Hp) as Hlow.
  rewrite pow2_succ by lia.
  cbn [shr_m loc_of_shr_record].
  destruct (Z.odd (m / 2 ^ Z.of_nat k)) eqn:Eb;
    destruct (m mod 2 ^ Z.of_nat k =? 0) eqn:Es; cbn [negb round_nearest_even];
    [apply Z.eqb_eq in Es|apply Z.eqb_neq in Es|apply Z.eqb_eq in Es|apply Z.eqb_neq in Es].
  - replace (2 * (m mod 2 ^ Z.of_nat k + 2 ^ Z.of_nat k * 1) ?= 2 * 2 ^ Z.of_nat k)
      with Eq by (symmetry; apply Z.compare_eq_iff; lia).
    reflexivity.
  - replace (2 * (m mod 2 ^ Z.of_nat k + 2 ^ Z.of_nat k * 1) ?= 2 * 2 ^ Z.of_nat k)
      with Gt by (symmetry; apply Z.compare_gt_iff; lia).
    reflexivity.
  - replace (2 * (m mod 2 ^ Z.of_nat k + 2 ^ Z.of_nat k * 0) ?= 2 * 2 ^ Z.of_nat k)
      with Lt by (symmetry; apply Z.compare_lt_iff; lia).
    reflexivity.
  - replace (2 * (m mod 2 ^ Z.of_nat k + 2 ^ Z.of_nat k * 0) ?= 2 * 2 ^ Z.of_nat k)
      with Lt by (symmetry; apply Z.compare_lt_iff; lia).
    reflexivity.
Qed.

Lemma shr_quotient (m : Z) (p : positive) :
  0 <= m ->
  shr_m (SpecFloat.iter_pos shr_1 p {| shr_m := m; shr_r := false; shr_s := false |})
  = m / 2 ^ Zpos p.
Proof.
  intros Hm. rewrite iter_pos_nat.
  destruct (Pos2Nat.is_succ p) as [k Hk]. rewrite Hk, shr_iter by exact Hm.
  cbn [shr_m]. f_equal. f_equal. lia.
Qed.

(** *** Rounding to nearest *)

Lemma rne_bounds (K n : Z) : K / 2 ^ n <= rne K n <= K / 2 ^ n + 1.
Proof.
  unfold rne. destruct (2 * (K mod 2 ^ n) ?= 2 ^ n); [|lia|lia].
  destruct (Z.even (K / 2 ^ n)); lia.
Qed.

Lemma rne_0 (K : Z) : rne K 0 = K.
Proof.
  unfold rne. change (2 ^ 0) with 1. rewrite Z.mod_1_r, Z.div_1_r. reflexivity.
Qed.

Lemma rne_exact (a n : Z) : 0 <= n -> rne (a * 2 ^ n) n = a.
Proof.
  intros Hn. pose proof (pow2_pos n Hn). unfold rne.
  rewrite Z.mod_mul, Z.div_mul by lia.
  replace (2 * 0 ?= 2 ^ n) with Lt by (symmetry; apply Z.compare_lt_iff; lia).
  reflexivity.
Qed.

Lemma rne_scale (a n j : Z) : 0 <= n -> 0 <= j -> rne (a * 2 ^ j) (n + j) = rne a n.
Proof.
  intros Hn Hj. pose proof (pow2_pos n Hn). pose proof (pow2_pos j Hj).
  unfold rne. rewrite pow2_add by lia.
  rewrite Z.div_mul_cancel_r by lia.
  rewrite Zmult_mod_distr_r.
  replace (2 * (a mod 2 ^ n * 2 ^ j) ?= 2 ^ n * 2 ^ j)
    with (2 * (a mod 2 ^ n) ?= 2 ^ n); [reflexivity|].
  replace (2 * (a mod 2 ^ n * 2 ^ j)) with (2 * (a mod 2 ^ n) * 2 ^ j) by lia.
  apply Zmult_compare_compat_r. lia.
Qed.

Lemma rne_mono (K1 K2 n : Z) : 0 <= n -> K1 <= K2 -> rne K1 n <= rne K2 n.
Proof.
  intros Hn Hle. pose proof (pow2_pos n Hn) as Hp.
  pose proof (Z.div_le_mono K1 K2 (2 ^ n) Hp Hle) as Hq.
  pose proof (rne_bounds K1 n). pose proof (rne_bounds K2 n).
  destruct (Z.eq_dec (K1 / 2 ^ n) (K2 / 2 ^ n)) as [E|E]; [|lia].
  assert (Hr : K1 mod 2 ^ n <= K2 mod 2 ^ n).
  { pose proof (Z.div_mod K1 (2 ^ n)). pose proof (Z.div_mod K2 (2 ^ n)). nia. }
  unfold rne. rewrite E.
  destruct (Z.compare_spec (2 * (K1 mod 2 ^ n)) (2 ^ n));
    destruct (Z.compare_spec (2 * (K2 mod 2 ^ n)) (2 ^ n));
    destruct (Z.even (K2 / 2 ^ n)); lia.
Qed.

Lemma excess_bounds (K : Z) :
  0 < K ->
  0 <= excess K
  /\ K < 2 ^ (excess K + 53)
  /\ (0 < excess K -> 2 ^ (excess K + 52) <= K).
Proof.
  intros HK. unfold excess.
  pose proof (Z.log2_spec K HK) as [H1 H2]. pose proof (Z.log2_nonneg K) as H0.
  unfold Z.succ in H2.
  split; [lia|]. split.
  - assert (2 ^ (Z.log2 K + 1) <= 2 ^ (Z.max (Z.log2 K + 1 - 53) 0 + 53))
      by (apply pow2_le; lia).
    lia.
  - intros Hpos.
    replace (Z.max (Z.log2 K + 1 - 53) 0 + 52) with (Z.log2 K) by lia. exact H1.
Qed.

Lemma round_pos_bounds (K : Z) :
  0 < K ->
  0 < round_pos K <= 2 ^ (excess K + 53)
  /\ (0 < excess K -> 2 ^ (excess K + 52) <= round_pos K)
  /\ (excess K = 0 -> round_pos K = K).
Proof.
  intros HK. destruct (excess_bounds K HK) as (Hn & Hlt & Hge).
  unfold round_pos. set (n := excess K) in *.
  pose proof (pow2_pos n Hn) as Hp.
  pose proof (rne_bounds K n) as [Hlo Hhi].
  assert (Hq : K / 2 ^ n < 2 ^ 53).
  { apply Z.div_lt_upper_bound; [lia|]. rewrite <- pow2_add by lia.
    exact Hlt. }
  assert (Hup : rne K n * 2 ^ n <= 2 ^ (n + 53)).
  { rewrite pow2_add by lia. nia. }
  assert (Hbig : 0 < n -> 2 ^ (n + 52) <= rne K n * 2 ^ n).
  { intros Hpos. specialize (Hge Hpos).
    assert (2 ^ 52 <= K / 2 ^ n).
    { apply Z.div_le_lower_bound; [lia|]. rewrite <- pow2_add by lia. exact Hge. }
    rewrite pow2_add by lia. nia. }
  assert (Hz : n = 0 -> rne K n * 2 ^ n = K).
  { intros ->. rewrite rne_0. change (2 ^ 0) with 1. lia. }
  split; [|split; assumption].
  split; [|exact Hup].
  destruct (Z.eq_dec n 0) as [E|E].
  - rewrite (Hz E). exact HK.
  - assert (0 < 2 ^ (n + 52)) by (apply pow2_pos; lia).
    specialize (Hbig ltac:(lia)). lia.
Qed.

Lemma round_pos_mono (K1 K2 : Z) :
  0 < K1 -> K1 <= K2 -> round_pos K1 <= round_pos K2.
Proof.
  intros H1 Hle.
  assert (H2 : 0 < K2) by lia.
  destruct (excess_bounds K1 H1) as (Hn1 & _ & _).
  destruct (round_pos_bounds K1 H1) as ((_ & Hup1) & _ & _).
  destruct (round_pos_bounds K2 H2) as (_ & Hlo2 & _).
  assert (Hn : excess K1 <= excess K2).
  { unfold excess. pose proof (Z.log2_le_mono K1 K2 Hle). lia. }
  destruct (Z.eq_dec (excess K1) (excess K2)) as [E|E].
  - unfold round_pos. rewrite E.
    assert (0 <= excess K2) by lia.
    pose proof (rne_mono K1 K2 (excess K2) ltac:(lia) Hle).
    pose proof (pow2_pos (excess K2) ltac:(lia)). nia.
  - specialize (Hlo2 ltac:(lia)).
    assert (2 ^ (excess K1 + 53) <= 2 ^ (excess K2 + 52)) by (apply pow2_le; lia).
    lia.
Qed.

(** A number of at most 53 significant bits is left as it is. *)
Lemma round_pos_exact (a j : Z) :
  0 < a < 2 ^ 53 -> 0 <= j -> round_pos (a * 2 ^ j) = a * 2 ^ j.
Proof.
  intros [Ha Hlt] Hj. unfold round_pos.
  assert (En : excess (a * 2 ^ j) <= j).
  { unfold excess. rewrite Z.log2_mul_pow2 by lia.
    assert (Z.log2 a < 53) by (apply Z.log2_lt_pow2; lia). lia. }
  assert (Hn : 0 <= excess (a * 2 ^ j)) by (unfold excess; lia).
  set (n := excess (a * 2 ^ j)) in *.
  replace (a * 2 ^ j) with (a * 2 ^ (j - n) * 2 ^ n).
  - now rewrite rne_exact.
  - rewrite <- Z.mul_assoc, <- pow2_add by lia. f_equal. f_equal. lia.
Qed.

Lemma round_units_mono (K1 K2 : Z) : K1 <= K2 -> round_units K1 <= round_units K2.
Proof.
  intros Hle. destruct K1 as [|p1|p1], K2 as [|p2|p2]; cbn [round_units]; try lia.
  - pose proof (round_pos_bounds (Zpos p2) eq_refl). lia.
  - apply round_pos_mono; lia.
  - pose proof (round_pos_bounds (Zpos p1) eq_refl). lia.
  - pose proof (round_pos_bounds (Zpos p1) eq_refl).
    pose proof (round_pos_bounds (Zpos p2) eq_refl). lia.
  - assert (round_pos (Zpos p2) <= round_pos (Zpos p1)) by (apply round_pos_mono; lia).
    lia.
Qed.

Lemma round_units_opp (K : Z) : round_units (- K) = - round_units K.
Proof.
  destruct K; cbn [round_units Z.opp]; rewrite ?Z.opp_involutive; reflexivity.
Qed.

Lemma clamp_mono (K1 K2 : Z) : K1 <= K2 -> clamp K1 <= clamp K2.
Proof. unfold clamp. lia. Qed.

(** *** What [binary_round] returns *)

Lemma fexp_eq (x : Z) : fexp prec emax x = Z.max (x - 53) Py.emin.
Proof. reflexivity. Qed.

Lemma top_eq : Py.top = 2 ^ 2098.
Proof. reflexivity. Qed.

Lemma excess_scaled (m : positive) (e : Z) :
  Py.emin <= e ->
  excess (Zpos m * 2 ^ (e - Py.emin))
  = fexp prec emax (Zpos (digits2_pos m) + e) - Py.emin.
Proof.
  intros He. unfold excess. rewrite Z.log2_mul_pow2 by lia.
  rewrite fexp_eq, digits2_log2. lia.
Qed.

Lemma binary_round_units (s : bool) (m : positive) (e : Z) :
  Py.emin <= e ->
  is_nan_sf (binary_round prec emax s m e) = false
  /\ Py.units (binary_round prec emax s m e)
     = cond_Zopp s (Z.min (round_pos (Zpos m * 2 ^ (e - Py.emin))) Py.top).
Proof.
  intros He. unfold binary_round.
  set (K := Zpos m * 2 ^ (e - Py.emin)).
  assert (HK : 0 < K).
  { unfold K. pose proof (pow2_pos (e - Py.emin) ltac:(lia)). lia. }
  pose proof (excess_scaled m e He) as Hex. fold K in Hex.
  set (d := Zpos (digits2_pos m)) in *. set (E := fexp prec emax (d + e)) in *.
  assert (HE : E = Z.max (d + e - 53) Py.emin) by reflexivity.
  pose proof (shl_align_spec m e E) as [Hez Hmz].
  destruct (shl_align m e E) as [mz ez]. cbn [fst snd] in Hez, Hmz.
  rewrite <- Hez in Hmz.
  assert (Hdz : Zpos (digits2_pos mz) = d + (e - ez)).
  { apply digits2_shift; [lia|exact Hmz]. }
  unfold binary_round_aux, shr_fexp. cbn [Zdigits2 shr_record_of_loc].
  rewrite Hdz. replace (d + (e - ez) + ez) with (d + e) by lia. fold E.
  assert (Hs1 : exists mrs,
            shr {| shr_m := Zpos mz; shr_r := false; shr_s := false |} ez (E - ez)
            = (mrs, E)
            /\ round_nearest_even (shr_m mrs) (loc_of_shr_record mrs)
               = rne (Zpos mz) (E - ez)).
  { unfold shr. destruct (E - ez) as [|p|p] eqn:En; [| |lia].
    - eexists. split; [f_equal; lia|]. cbn. now rewrite rne_0.
    - eexists. split; [f_equal; lia|]. apply shr_rne. lia. }
  destruct Hs1 as (mrs & -> & ->).
  assert (HKz : K = Zpos mz * 2 ^ (ez - Py.emin)).
  { unfold K. rewrite Hmz, <- Z.mul_assoc, <- pow2_add by lia.
    f_equal. f_equal. lia. }
  assert (Hq1 : rne (Zpos mz) (E - ez) = rne K (excess K)).
  { rewrite Hex, HKz.
    replace (E - Py.emin) with (E - ez + (ez - Py.emin)) by lia.
    now rewrite rne_scale by lia. }
  rewrite Hq1.
  destruct (round_pos_bounds K HK) as ((Hpos & Hup) & Hlow & _).
  unfold round_pos in *. rewrite Hex in *.
  set (q1 := rne K (E - Py.emin)) in *.
  assert (Hx : 0 <= E - Py.emin) by lia.
  pose proof (pow2_pos (E - Py.emin) Hx) as Hp.
  assert (Hq1pos : 0 < q1) by nia.
  assert (Hq1up : q1 <= 2 ^ 53).
  { rewrite pow2_add in Hup by lia. nia. }
  change (emax - prec) with 971.
  destruct (Z.eq_dec q1 (2 ^ 53)) as [Eq|Eq].
  - rewrite Eq in *. change (Zdigits2 (2 ^ 53)) with 54.
    rewrite fexp_eq. replace (Z.max (54 + E - 53) Py.emin - E) with 1 by lia.
    change (shr {| shr_m := 2 ^ 53; shr_r := false; shr_s := false |} E 1)
      with ({| shr_m := 4503599627370496; shr_r := false; shr_s := false |}, E + 1).
    cbn [shr_m].
    assert (Hval : 4503599627370496 * 2 ^ (E + 1 - Py.emin) = 2 ^ 53 * 2 ^ (E - Py.emin)).
    { replace (E + 1 - Py.emin) with (E - Py.emin + 1) by lia.
      rewrite pow2_succ by lia. change (2 ^ 53) with 9007199254740992. lia. }
    destruct (Z.leb_spec (E + 1) 971) as [Hle|Hgt]; cbn [is_nan_sf Py.units];
      (split; [reflexivity|]); f_equal.
    + rewrite Hval.
      assert (2 ^ 53 * 2 ^ (E - Py.emin) < Py.top).
      { rewrite top_eq, <- pow2_add by lia. apply pow2_lt. unfold Py.emin in *. lia. }
      lia.
    + assert (Py.top <= 2 ^ 53 * 2 ^ (E - Py.emin)).
      { rewrite top_eq, <- pow2_add by lia. apply pow2_le. unfold Py.emin in *. lia. }
      lia.
  - destruct q1 as [|q|q] eqn:Eq1; [lia| |lia].
    cbn [Zdigits2].
    assert (Hdq : Zpos (digits2_pos q) <= 53).
    { pose proof (digits2_bounds q) as [Hb _].
      destruct (Z_le_gt_dec (Zpos (digits2_pos q)) 53) as [|Hgt]; [assumption|].
      assert (2 ^ 53 <= 2 ^ (Zpos (digits2_pos q) - 1)) by (apply pow2_le; lia).
      lia. }
    rewrite fexp_eq.
    assert (Hs2 : shr {| shr_m := Zpos q; shr_r := false; shr_s := false |} E
                    (Z.max (Zpos (digits2_pos q) + E - 53) Py.emin - E)
                  = ({| shr_m := Zpos q; shr_r := false; shr_s := false |}, E)).
    { unfold shr.
      destruct (Z.max (Zpos (digits2_pos q) + E - 53) Py.emin - E) eqn:En;
        [reflexivity|lia|reflexivity]. }
    rewrite Hs2. cbn [shr_m].
    destruct (Z.leb_spec E 971) as [Hle|Hgt]; cbn [is_nan_sf Py.units];
      (split; [reflexivity|]); f_equal.
    + assert (Zpos q * 2 ^ (E - Py.emin) < Py.top).
      { rewrite top_eq. replace 2098 with (53 + (971 - Py.emin)) by reflexivity.
        rewrite pow2_add by (unfold Py.emin; lia).
        assert (2 ^ (E - Py.emin) <= 2 ^ (971 - Py.emin)) by (apply pow2_le; lia).
        assert (0 < 2 ^ (971 - Py.emin)) by (apply pow2_pos; unfold Py.emin; lia).
        nia. }
      lia.
    + assert (Py.top <= Zpos q * 2 ^ (E - Py.emin)).
      { specialize (Hlow ltac:(unfold Py.emin in *; lia)).
        assert (Py.top <= 2 ^ (E - Py.emin + 52)).
        { rewrite top_eq. apply pow2_le. unfold Py.emin in *. lia. }
        lia. }
      lia.
Qed.

(** *** Valid floats *)

Definition finite_sf (f : spec_float) : bool :=
  match f with S754_zero _ | S754_finite _ _ _ => true | _ => false end.

Lemma top_pos : 0 < Py.top.
Proof. rewrite top_eq. apply pow2_pos. lia. Qed.

Lemma valid_finite (s : bool) (m : positive) (e : Z) :
  valid_binary (S754_finite s m e) = true ->
  Py.emin <= e <= 971 /\ Zpos m < 2 ^ 53 /\ (Py.emin < e -> 2 ^ 52 <= Zpos m).
Proof.
  cbn [SpecFloat.valid_binary]. unfold bounded, canonical_mantissa.
  rewrite andb_true_iff, Z.eqb_eq, Z.leb_le, fexp_eq.
  change (emax - prec) with 971. intros [Hc He].
  pose proof (digits2_bounds m) as [Hlo Hhi].
  split; [lia|]. split.
  - assert (2 ^ Zpos (digits2_pos m) <= 2 ^ 53) by (apply pow2_le; lia). lia.
  - intros Hgt. replace (Zpos (digits2_pos m)) with 53 in Hlo by lia. exact Hlo.
Qed.

Lemma units_magnitude (m : positive) (e : Z) :
  Py.emin <= e <= 971 -> Zpos m < 2 ^ 53 ->
  0 < Zpos m * 2 ^ (e - Py.emin) < Py.top.
Proof.
  intros He Hm.
  assert (0 < 2 ^ (e - Py.emin)) by (apply pow2_pos; lia).
  assert (2 ^ (e - Py.emin) <= 2 ^ (971 - Py.emin)) by (apply pow2_le; lia).
  assert (Py.top = 2 ^ 53 * 2 ^ (971 - Py.emin)).
  { rewrite top_eq, <- pow2_add by (unfold Py.emin; lia). reflexivity. }
  split; nia.
Qed.

Lemma units_bounds (f : spec_float) :
  valid_binary f = true -> - Py.top <= Py.units f <= Py.top.
Proof.
  pose proof top_pos. destruct f as [s|s| |s m e]; cbn [Py.units]; intros Hv.
  - lia.
  - destruct s; cbn [cond_Zopp]; lia.
  - lia.
  - apply valid_finite in Hv as (He & Hm & _).
    pose proof (units_magnitude m e He Hm). destruct s; cbn [cond_Zopp]; lia.
Qed.

Lemma units_finite_bounds (f : spec_float) :
  valid_binary f = true -> finite_sf f = true -> - Py.top < Py.units f < Py.top.
Proof.
  pose proof top_pos. destruct f as [s|s| |s m e]; cbn [Py.units finite_sf];
    intros Hv Hf; try discriminate.
  - lia.
  - apply valid_finite in Hv as (He & Hm & _).
    pose proof (units_magnitude m e He Hm). destruct s; cbn [cond_Zopp]; lia.
Qed.

(** Among valid floats the larger exponent is the larger number. *)
Lemma exponent_order (m1 m2 : positive) (e1 e2 : Z) :
  valid_binary (S754_finite false m1 e1) = true ->
  valid_binary (S754_finite false m2 e2) = true ->
  e1 < e2 ->
  Zpos m1 * 2 ^ (e1 - Py.emin) < Zpos m2 * 2 ^ (e2 - Py.emin).
Proof.
  intros H1 H2 Hlt.
  apply valid_finite in H1 as (He1 & Hm1 & _).
  apply valid_finite in H2 as (He2 & _ & Hm2). specialize (Hm2 ltac:(lia)).
  assert (Hp : 0 < 2 ^ (e1 - Py.emin)) by (apply pow2_pos; lia).
  assert (E : 2 ^ (e2 - Py.emin) = 2 ^ (e2 - e1 - 1) * 2 * 2 ^ (e1 - Py.emin)).
  { rewrite <- Z.mul_assoc, <- pow2_succ, Z.mul_comm, <- pow2_add by lia.
    f_equal. lia. }
  assert (0 < 2 ^ (e2 - e1 - 1)) by (apply pow2_pos; lia).
  change (2 ^ 53) with (2 * 2 ^ 52) in Hm1.
  rewrite E. nia.
Qed.

Lemma SFleb_units (x y : spec_float) :
  valid_binary x = true -> valid_binary y = true ->
  SFleb x y = true -> Py.units x <= Py.units y.
Proof.
  intros Hx Hy. pose proof top_pos.
  assert (Hmag : forall s m e, valid_binary (S754_finite s m e) = true ->
            0 < Zpos m * 2 ^ (e - Py.emin) < Py.top).
  { intros s m e Hv. apply valid_finite in Hv as (He & Hm & _).
    now apply units_magnitude. }
  unfold SFleb.
  destruct x as [sx|sx| |sx mx ex], y as [sy|sy| |sy my ey];
    cbn [SFcompare Py.units]; try discriminate;
    try pose proof (Hmag _ _ _ Hx); try pose proof (Hmag _ _ _ Hy);
    try (repeat match goal with s : bool |- _ => destruct s end;
         cbn [cond_Zopp]; intros Hc; try discriminate Hc; lia).
  pose proof (valid_finite _ _ _ Hx) as (Hex & _).
  pose proof (valid_finite _ _ _ Hy) as (Hey & _).
  destruct sx, sy; cbn [cond_Zopp]; try discriminate; try lia.
  - destruct (Z.compare_spec ex ey) as [E|E|E]; try discriminate.
    + subst ey. change (Pos.compare_cont Eq mx my) with (Pos.compare mx my).
      destruct (Pos.compare_spec mx my) as [E'|E'|E']; cbn [CompOpp];
        try discriminate; intros _.
      * subst. lia.
      * assert (0 < 2 ^ (ex - Py.emin)) by (apply pow2_pos; lia). nia.
    + intros _. pose proof (exponent_order my mx ey ex Hy Hx E). lia.
  - destruct (Z.compare_spec ex ey) as [E|E|E]; try discriminate.
    + subst ey. change (Pos.compare_cont Eq mx my) with (Pos.compare mx my).
      destruct (Pos.compare_spec mx my) as [E'|E'|E'];
        try discriminate; intros _.
      * subst. lia.
      * assert (0 < 2 ^ (ex - Py.emin)) by (apply pow2_pos; lia). nia.
    + intros _. pose proof (exponent_order mx my ex ey Hx Hy E). lia.
Qed.

(** *** Sums and differences *)

Lemma round_units_pos (K : Z) : 0 < K -> round_units K = round_pos K.
Proof. destruct K; [lia|reflexivity|lia]. Qed.

Lemma round_units_neg (K : Z) : 0 < K -> round_units (- K) = - round_pos K.
Proof. destruct K; [lia|reflexivity|lia]. Qed.

Lemma clamp_id (K : Z) : - Py.top <= K <= Py.top -> clamp K = K.
Proof. unfold clamp. lia. Qed.

Lemma round_units_fixed (f : spec_float) :
  valid_binary f = true -> finite_sf f = true -> round_units (Py.units f) = Py.units f.
Proof.
  destruct f as [s|s| |s m e]; cbn [Py.units finite_sf]; intros Hv Hf;
    try discriminate; [reflexivity|].
  apply valid_finite in Hv as (He & Hm & _).
  pose proof (units_magnitude m e He Hm) as [Hpos _].
  assert (E : round_pos (Zpos m * 2 ^ (e - Py.emin)) = Zpos m * 2 ^ (e - Py.emin))
    by (apply round_pos_exact; lia).
  destruct s; cbn [cond_Zopp].
  - rewrite round_units_neg by exact Hpos. now rewrite E.
  - rewrite round_units_pos by exact Hpos. exact E.
Qed.

Lemma binary_normalize_units (mz e : Z) (sz : bool) :
  Py.emin <= e ->
  is_nan_sf (binary_normalize prec emax mz e sz) = false
  /\ Py.units (binary_normalize prec emax mz e sz)
     = clamp (round_units (mz * 2 ^ (e - Py.emin))).
Proof.
  intros He. pose proof top_pos.
  assert (Hp : 0 < 2 ^ (e - Py.emin)) by (apply pow2_pos; lia).
  destruct mz as [|p|p]; cbn [binary_normalize].
  - split; [reflexivity|]. change (0 * 2 ^ (e - Py.emin)) with 0.
    cbn [round_units Py.units]. unfold clamp. lia.
  - destruct (binary_round_units false p e He) as [Hn Hu].
    split; [exact Hn|]. rewrite Hu. cbn [cond_Zopp].
    assert (Hpos : 0 < Zpos p * 2 ^ (e - Py.emin)) by lia.
    rewrite round_units_pos by exact Hpos.
    pose proof (round_pos_bounds _ Hpos) as ((? & _) & _). unfold clamp. lia.
  - destruct (binary_round_units true p e He) as [Hn Hu].
    split; [exact Hn|]. rewrite Hu. cbn [cond_Zopp].
    assert (Hpos : 0 < Zpos p * 2 ^ (e - Py.emin)) by lia.
    replace (Zneg p * 2 ^ (e - Py.emin)) with (- (Zpos p * 2 ^ (e - Py.emin))) by lia.
    rewrite round_units_neg by exact Hpos.
    pose proof (round_pos_bounds _ Hpos) as ((? & _) & _). unfold clamp. lia.
Qed.

Lemma aligned_units (s : bool) (m : positive) (e ez : Z) :
  Py.emin <= ez <= e ->
  cond_Zopp s (Zpos (fst (shl_align m e ez))) * 2 ^ (ez - Py.emin)
  = cond_Zopp s (Zpos m * 2 ^ (e - Py.emin)).
Proof.
  intros He. destruct (shl_align_spec m e ez) as [_ ->].
  replace (Z.min e ez) with ez by lia.
  replace (e - Py.emin) with (e - ez + (ez - Py.emin)) by lia.
  rewrite pow2_add by lia. destruct s; cbn [cond_Zopp]; lia.
Qed.

Lemma SFsub_units (x y : spec_float) :
  valid_binary x = true -> valid_binary y = true ->
  finite_sf x = true -> finite_sf y = true ->
  is_nan_sf (SFsub prec emax x y) = false
  /\ Py.units (SFsub prec emax x y) = clamp (round_units (Py.units x - Py.units y)).
Proof.
  intros Hx Hy Fx Fy. pose proof top_pos.
  pose proof (units_finite_bounds x Hx Fx) as Bx.
  pose proof (units_finite_bounds y Hy Fy) as By.
  pose proof (round_units_fixed x Hx Fx) as Rx.
  pose proof (round_units_fixed y Hy Fy) as Ry.
  destruct x as [sx|sx| |sx mx ex], y as [sy|sy| |sy my ey]; try discriminate.
  - split; [now destruct sx, sy|].
    replace (Py.units (SFsub prec emax (S754_zero sx) (S754_zero sy))) with 0
      by now destruct sx, sy.
    cbn [Py.units]. change (round_units (0 - 0)) with 0. unfold clamp. lia.
  - cbn [SFsub is_nan_sf]. split; [reflexivity|].
    assert (E : Py.units (S754_finite (negb sy) my ey) = - Py.units (S754_finite sy my ey))
      by (cbn [Py.units]; destruct sy; cbn [negb cond_Zopp]; lia).
    rewrite E.
    replace (Py.units (S754_zero sx) - Py.units (S754_finite sy my ey))
      with (- Py.units (S754_finite sy my ey)) by (cbn [Py.units]; lia).
    rewrite round_units_opp, Ry. rewrite clamp_id; lia.
  - cbn [SFsub is_nan_sf]. split; [reflexivity|].
    replace (Py.units (S754_finite sx mx ex) - Py.units (S754_zero sy))
      with (Py.units (S754_finite sx mx ex)) by (cbn [Py.units]; lia).
    rewrite Rx, clamp_id; lia.
  - apply valid_finite in Hx as (Hex & _). apply valid_finite in Hy as (Hey & _).
    cbn [SFsub].
    destruct (binary_normalize_units
                (cond_Zopp sx (Zpos (fst (shl_align mx ex (Z.min ex ey))))
                 - cond_Zopp sy (Zpos (fst (shl_align my ey (Z.min ex ey)))))
                (Z.min ex ey) false ltac:(lia)) as [Hn Hu].
    split; [exact Hn|]. rewrite Hu. f_equal. f_equal.
    rewrite Z.mul_sub_distr_r, !aligned_units by lia. reflexivity.
Qed.

Lemma SFadd_units (x y : spec_float) :
  valid_binary x = true -> valid_binary y = true ->
  finite_sf x = true -> finite_sf y = true ->
  is_nan_sf (SFadd prec emax x y) = false
  /\ Py.units (SFadd prec emax x y) = clamp (round_units (Py.units x + Py.units y)).
Proof.
  intros Hx Hy Fx Fy. pose proof top_pos.
  pose proof (units_finite_bounds x Hx Fx) as Bx.
  pose proof (units_finite_bounds y Hy Fy) as By.
  pose proof (round_units_fixed x Hx Fx) as Rx.
  pose proof (round_units_fixed y Hy Fy) as Ry.
  destruct x as [sx|sx| |sx mx ex], y as [sy|sy| |sy my ey]; try discriminate.
  - split; [now destruct sx, sy|].
    replace (Py.units (SFadd prec emax (S754_zero sx) (S754_zero sy))) with 0
      by now destruct sx, sy.
    cbn [Py.units]. change (round_units (0 + 0)) with 0. unfold clamp. lia.
  - cbn [SFadd is_nan_sf]. split; [reflexivity|].
    replace (Py.units (S754_zero sx) + Py.units (S754_finite sy my ey))
      with (Py.units (S754_finite sy my ey)) by (cbn [Py.units]; lia).
    rewrite Ry, clamp_id; lia.
  - cbn [SFadd is_nan_sf]. split; [reflexivity|].
    replace (Py.units (S754_finite sx mx ex) + Py.units (S754_zero sy))
      with (Py.units (S754_finite sx mx ex)) by (cbn [Py.units]; lia).
    rewrite Rx, clamp_id; lia.
  - apply valid_finite in Hx as (Hex & _). apply valid_finite in Hy as (Hey & _).
    cbn [SFadd].
    destruct (binary_normalize_units
                (cond_Zopp sx (Zpos (fst (shl_align mx ex (Z.min ex ey))))
                 + cond_Zopp sy (Zpos (fst (shl_align my ey (Z.min ex ey)))))
                (Z.min ex ey) false ltac:(lia)) as [Hn Hu].
    split; [exact Hn|]. rewrite Hu. f_equal. f_equal.
    rewrite Z.mul_add_distr_r, !aligned_units by lia. reflexivity.
Qed.

(** *** Comparing a float with an integer *)

Lemma ge_int_sf_mono (f g : spec_float) (n : Z) :
  valid_binary f = true -> valid_binary g = true ->
  is_nan_sf g = false -> Py.units f <= Py.units g ->
  Py.ge_int_sf f n = true -> Py.ge_int_sf g n = true.
Proof.
  intros Hf Hg Hn Hle. pose proof top_pos.
  assert (Hfin : forall h, valid_binary h = true -> finite_sf h = true ->
            - Py.top < Py.units h < Py.top) by (intros; now apply units_finite_bounds).
  destruct f as [sf|sf| |sf mf ef], g as [sg|sg| |sg mg eg];
    try discriminate;
    try pose proof (Hfin _ Hf eq_refl); try pose proof (Hfin _ Hg eq_refl);
    cbn [Py.ge_int_sf Py.units] in *;
    repeat match goal with s : bool |- _ => destruct s end;
    cbn [cond_Zopp negb] in *; try discriminate; try reflexivity; try lia.
Qed.

Ltac sf_cases :=
  repeat match goal with s : bool |- _ => destruct s end;
  cbn [SFsub SFadd SFleb SFcompare Py.ge_int_sf is_nan_sf finite_sf negb];
  intros; try discriminate; try reflexivity; try assumption.

Lemma SFsub_ge_mono (x x' y : spec_float) (n : Z) :
  valid_binary x = true -> valid_binary x' = true -> valid_binary y = true ->
  valid_binary (SFsub prec emax x y) = true ->
  valid_binary (SFsub prec emax x' y) = true ->
  SFleb x x' = true ->
  Py.ge_int_sf (SFsub prec emax x y) n = true ->
  Py.ge_int_sf (SFsub prec emax x' y) n = true.
Proof.
  intros Hx Hx' Hy Hr Hr'.
  destruct (finite_sf x && finite_sf x' && finite_sf y) eqn:Fin.
  - apply andb_true_iff in Fin as [Fin Fy]. apply andb_true_iff in Fin as [Fx Fx'].
    intros Hle. apply SFleb_units in Hle; [|assumption..].
    destruct (SFsub_units x y Hx Hy Fx Fy) as [_ Hu].
    destruct (SFsub_units x' y Hx' Hy Fx' Fy) as [Hn' Hu'].
    apply ge_int_sf_mono; [assumption..|].
    rewrite Hu, Hu'. apply clamp_mono, round_units_mono. lia.
  - revert Fin. clear Hx Hx' Hy Hr Hr'.
    destruct x as [sx|sx| |sx mx ex], x' as [sx'|sx'| |sx' mx' ex'],
             y as [sy|sy| |sy my ey]; cbn [finite_sf andb]; try discriminate;
      intros _; sf_cases.
Qed.

Lemma SFadd_ge_mono (x x' y : spec_float) (n : Z) :
  valid_binary x = true -> valid_binary x' = true -> valid_binary y = true ->
  valid_binary (SFadd prec emax x y) = true ->
  valid_binary (SFadd prec emax x' y) = true ->
  SFleb x x' = true ->
  Py.ge_int_sf (SFadd prec emax x y) n = true ->
  Py.ge_int_sf (SFadd prec emax x' y) n = true.
Proof.
  intros Hx Hx' Hy Hr Hr'.
  destruct (finite_sf x && finite_sf x' && finite_sf y) eqn:Fin.
  - apply andb_true_iff in Fin as [Fin Fy]. apply andb_true_iff in Fin as [Fx Fx'].
    intros Hle. apply SFleb_units in Hle; [|assumption..].
    destruct (SFadd_units x y Hx Hy Fx Fy) as [_ Hu].
    destruct (SFadd_units x' y Hx' Hy Fx' Fy) as [Hn' Hu'].
    apply ge_int_sf_mono; [assumption..|].
    rewrite Hu, Hu'. apply clamp_mono, round_units_mono. lia.
  - revert Fin. clear Hx Hx' Hy Hr Hr'.
    destruct x as [sx|sx| |sx mx ex], x' as [sx'|sx'| |sx' mx' ex'],
             y as [sy|sy| |sy my ey]; cbn [finite_sf andb]; try discriminate;
      intros _; sf_cases.
Qed.

(** Subtracting the same float keeps the order, as far as a comparison
    with an integer can tell. *)
Theorem float_sub_ge_mono (x x' y : float) (n : Z) :
  (x <=? x')%float = true ->
  Py.float_ge_int (x - y) n = true -> Py.float_ge_int (x' - y) n = true.
Proof.
  unfold Py.float_ge_int. rewrite FloatAxioms.leb_spec, !sub_spec.
  apply SFsub_ge_mono; try apply Prim2SF_valid.
  - rewrite <- sub_spec. apply Prim2SF_valid.
  - rewrite <- sub_spec. apply Prim2SF_valid.
Qed.

Theorem float_add_ge_mono (x x' y : float) (n : Z) :
  (x <=? x')%float = true ->
  Py.float_ge_int (x + y) n = true -> Py.float_ge_int (x' + y) n = true.
Proof.
  unfold Py.float_ge_int. rewrite FloatAxioms.leb_spec, !add_spec.
  apply SFadd_ge_mono; try apply Prim2SF_valid.
  - rewrite <- add_spec. apply Prim2SF_valid.
  - rewrite <- add_spec. apply Prim2SF_valid.
Qed.

(** A float that is at least a positive integer is not zero. *)
Lemma float_ge_int_nonzero (x : float) (n : Z) :
  0 < n -> Py.float_ge_int x n = true -> (x =? 0)%float = false.
Proof.
  intros Hn. unfold Py.float_ge_int. rewrite FloatAxioms.eqb_spec.
  change (Prim2SF 0) with (S754_zero false).
  destruct (Prim2SF x) as [s|s| |s m e]; cbn [Py.ge_int_sf Py.units SFeqb SFcompare];
    intros H; try discriminate.
  - apply Z.leb_le in H. lia.
  - now destruct s.
  - now destruct s.
Qed.

End F64.

(** ** Derived states *)

(** An infinite float is the one value whose [int()] raises past the
    [try] block around the battery status. *)
Definition is_infinite (v : value) : bool :=
  match v with
  | VFloat f => PrimFloat.is_infinity f
  | _ => false
  end.

(** The battery status of a snapshot, when there is one, is not an
    infinite float. *)
Definition battery_finite (data : snapshot) : Prop :=
  forall v, data !! "battery_status" = Some v -> is_infinite v = false.

Lemma Prim2SF_infinity f s :
  Prim2SF f = S754_infinity s -> PrimFloat.is_infinity f = true.
Proof.
  unfold Prim2SF.
  destruct (is_nan f); [discriminate|].
  destruct (is_zero f); [discriminate|].
  destruct (PrimFloat.is_infinity f); [reflexivity|].
  destruct (Z.frexp f) as [r ex].
  destruct (shr_fexp FloatOps.prec FloatOps.emax _ _ _) as [sh e'].
  destruct (shr_m sh); discriminate.
Qed.

Lemma int_of_float_overflow f e :
  Py.int_of_float f = Err e -> e = ValueError \/ PrimFloat.is_infinity f = true.
Proof.
  unfold Py.int_of_float.
  destruct (Prim2SF f) eqn:E; intros H; inversion H; subst; auto.
  right. eapply Prim2SF_infinity; eauto.
Qed.

Lemma battery_status_text_total v :
  is_infinite v = false -> exists txt, battery_status_text v = Ok txt.
Proof.
  intros Hf. unfold battery_status_text.
  destruct v as [n|f|s|b]; simpl in *; eauto.
  - destruct (Py.int_of_float f) as [n|e] eqn:E; eauto.
    apply int_of_float_overflow in E as [->|E]; eauto; congruence.
  - unfold Py.int. destruct (Py.int_of_str s); eauto.
Qed.

Lemma battery_status_text_overflow v e :
  battery_status_text v = Err e -> e = OverflowError /\ is_infinite v = true.
Proof.
  intros H. destruct (is_infinite v) eqn:E.
  - unfold battery_status_text in H.
    destruct v as [n|f|s|b]; simpl in *; try discriminate.
    destruct (Py.int_of_float f) as [n|e0] eqn:E0; [discriminate|].
    unfold Py.int_of_float in E0.
    destruct (Prim2SF f); inversion E0; subst; [|discriminate].
    inversion H; auto.
  - apply battery_status_text_total in E as [txt E]. congruence.
Qed.

(** The keys [_derive_states] can write. *)
Definition derived_keys : list string :=
  [ "battery_status_text"; "output_source"; "on_battery"; "ac_power"; "on_bypass" ].

(** The first stage of [_derive_states]: the battery status text alone. *)
Lemma battery_stage data :
  battery_finite data ->
  exists derived : snapshot,
    match data !! "battery_status" with
    | Some bs =>
        match battery_status_text bs with
        | Ok txt => Ok (<["battery_status_text" := VStr txt]> ∅)
        | Err e => Err e
        end
    | None => Ok ∅
    end = Ok (E := py_error) derived
    /\ forall k, k <> "battery_status_text" -> derived !! k = None.
Proof.
  intros Hf. destruct (data !! "battery_status") as [bs|] eqn:E.
  - destruct (battery_status_text_total bs (Hf _ E)) as [txt ->].
    eexists; split; [reflexivity|].
    intros k Hk. rewrite lookup_insert_ne by congruence. apply lookup_empty.
  - eexists; split; [reflexivity|]. intros; apply lookup_empty.
Qed.

(** C7.  With the UPS dialect and [output_source_raw = 5], and with the
    vendor (APC) dialect and [output_source_raw = 3], what [_derive_states]
    returns has [on_battery = true], [ac_power = false],
    [on_bypass = false] and [output_source = "battery"]: each dialect has
    its own code for running on battery.  It does return, unless the
    battery status is an infinite float, whose [OverflowError] the [try]
    block lets through. *)
Theorem derive_states_on_battery (p : protocol_id) (code : Z) (data : snapshot) :
  (p = UPS_MIB /\ code = 5 \/ p = APC_MIB /\ code = 3) ->
  data !! "output_source_raw" = Some (VInt code) ->
  (forall derived,
     _derive_states (Some p) data = Ok derived ->
     derived !! "on_battery" = Some (VBool true)
     /\ derived !! "ac_power" = Some (VBool false)
     /\ derived !! "on_bypass" = Some (VBool false)
     /\ derived !! "output_source" = Some (VStr "battery"))
  /\ (battery_finite data -> exists derived, _derive_states (Some p) data = Ok derived)
  /\ (forall e, _derive_states (Some p) data = Err e ->
        e = OverflowError /\ ~ battery_finite data).
Proof.
  intros Hp Hraw. unfold _derive_states. rewrite Hraw.
  destruct (data !! "battery_status") as [bs|] eqn:Eb.
  - destruct (battery_status_text bs) as [txt|e0] eqn:Et.
    + split; [|split; [eauto|]].
      * intros derived. destruct Hp as [[-> ->]|[-> ->]]; simpl;
          intros H; inversion H; subst; repeat split;
          repeat first [ rewrite lookup_insert_eq; reflexivity
                       | rewrite lookup_insert_ne by discriminate ].
      * intros _. destruct Hp as [[-> ->]|[-> ->]]; simpl; eauto.
      * intros e. destruct Hp as [[-> ->]|[-> ->]]; simpl; discriminate.
    + apply battery_status_text_overflow in Et as [-> Hinf].
      split; [discriminate|]. split.
      * intros Hf. specialize (Hf bs Eb). congruence.
      * intros e H. inversion H; subst. split; [reflexivity|].
        intros Hf. specialize (Hf bs Eb). congruence.
  - split; [|split].
    + intros derived. destruct Hp as [[-> ->]|[-> ->]]; simpl;
        intros H; inversion H; subst; repeat split;
        repeat first [ rewrite lookup_insert_eq; reflexivity
                     | rewrite lookup_insert_ne by discriminate ].
    + intros _. destruct Hp as [[-> ->]|[-> ->]]; simpl; eauto.
    + intros e. destruct Hp as [[-> ->]|[-> ->]]; simpl; discriminate.
Qed.

Lemma derive_states_on_battery_witness :
  (forall derived,
     _derive_states (Some UPS_MIB) {[ "output_source_raw" := VInt 5 ]} = Ok derived ->
     derived !! "on_battery" = Some (VBool true)
     /\ derived !! "ac_power" = Some (VBool false)
     /\ derived !! "on_bypass" = Some (VBool false)
     /\ derived !! "output_source" = Some (VStr "battery"))
  /\ (battery_finite {[ "output_source_raw" := VInt 5 ]} ->
      exists derived,
        _derive_states (Some UPS_MIB) {[ "output_source_raw" := VInt 5 ]} = Ok derived)
  /\ (forall e,
        _derive_states (Some UPS_MIB) {[ "output_source_raw" := VInt 5 ]} = Err e ->
        e = OverflowError /\ ~ battery_finite {[ "output_source_raw" := VInt 5 ]}).
Proof.
  apply (derive_states_on_battery UPS_MIB 5).
  - left. split; reflexivity.
  - reflexivity.
Defined.

(** C8.  When [output_source_raw] is absent from the snapshot,
    [_derive_states] writes no key but [battery_status_text]:
    [output_source], [ac_power], [on_battery] and [on_bypass] are absent from
    what it returns.  It does return, unless the battery status is an
    infinite float. *)
Theorem derive_states_without_source (p : option protocol_id) (data : snapshot) :
  data !! "output_source_raw" = None ->
  (forall derived, _derive_states p data = Ok derived ->
     derived !! "output_source" = None /\ derived !! "ac_power" = None
     /\ derived !! "on_battery" = None /\ derived !! "on_bypass" = None
     /\ forall k, k <> "battery_status_text" -> derived !! k = None)
  /\ (battery_finite data -> exists derived, _derive_states p data = Ok derived)
  /\ (forall e, _derive_states p data = Err e ->
        e = OverflowError /\ ~ battery_finite data).
Proof.
  intros Hraw. unfold _derive_states. rewrite Hraw. split; [|split].
  - intros derived H.
    assert (Hk : forall k, k <> "battery_status_text" -> derived !! k = None).
    { intros k Hk. revert H.
      destruct (data !! "battery_status") as [bs|];
        [destruct (battery_status_text bs)|]; intros H; inversion H; subst.
      - rewrite lookup_insert_ne by congruence. apply lookup_empty.
      - apply lookup_empty. }
    repeat split; try (apply Hk; discriminate); exact Hk.
  - intros Hf. destruct (battery_stage data Hf) as (d0 & -> & _). eauto.
  - intros e. destruct (data !! "battery_status") as [bs|] eqn:Eb; [|discriminate].
    destruct (battery_status_text bs) as [txt|e0] eqn:Et; [discriminate|].
    apply battery_status_text_overflow in Et as [-> Hinf].
    intros H. inversion H; subst. split; [reflexivity|].
    intros Hf. specialize (Hf bs Eb). congruence.
Qed.

Lemma derive_states_without_source_witness :
  (forall derived,
     _derive_states (Some APC_MIB) {[ "battery_status" := VInt 3 ]} = Ok derived ->
     derived !! "output_source" = None /\ derived !! "ac_power" = None
     /\ derived !! "on_battery" = None /\ derived !! "on_bypass" = None
     /\ forall k, k <> "battery_status_text" -> derived !! k = None)
  /\ (battery_finite {[ "battery_status" := VInt 3 ]} ->
      exists derived,
        _derive_states (Some APC_MIB) {[ "battery_status" := VInt 3 ]} = Ok derived)
  /\ (forall e,
        _derive_states (Some APC_MIB) {[ "battery_status" := VInt 3 ]} = Err e ->
        e = OverflowError /\ ~ battery_finite {[ "battery_status" := VInt 3 ]}).
Proof.
  apply (derive_states_without_source (Some APC_MIB) {[ "battery_status" := VInt 3 ]}).
  reflexivity.
Defined.

(** A device that answers every OID with "100", except the UPS-MIB output
    source, which it answers with a name. *)
Definition text_source_world : world unit :=
  mk_world
    (fun rq w =>
       (if String.eqb (rq_oid rq) "1.3.6.1.2.1.33.1.4.1.0"
        then Reply false false [ObjValue "onBattery"]
        else Reply false false [ObjValue "100"], w))
    (fun w => (1%float, w)).

Definition fresh : coordinator := init Hass "192.0.2.1" "public" "UPS" 10 300.

(** C4.  A textual [output_source_raw] makes [_derive_states] raise: the
    battery status is decoded inside a [try] block, the output source is
    not.  A device that answers the output-source OID with a text brings
    the whole refresh down, while the same text under [battery_status]
    reads "unknown". *)
Theorem derive_states_text_source_raises :
  _derive_states (Some UPS_MIB)
    {[ "output_source_raw" := VStr "onBattery" ]} = Err ValueError
  /\ _derive_states (Some UPS_MIB)
       {[ "battery_status" := VStr "onBattery" ]}
     = Ok {[ "battery_status_text" := VStr "unknown" ]}
  /\ _coerce_snmp_value (Some (VStr "onBattery")) = Ok (Some (VStr "onBattery"))
  /\ (exec text_source_world refresh fresh tt).1.1.1
     = Err (UpdateFailed (Rewrapped ValueError)).
Proof. repeat split; reflexivity. Qed.

(** What does hold: [_derive_states] returns whenever the battery status
    is not an infinite float and the output source, if present, converts
    to an integer. *)
Lemma derive_states_returns (p : option protocol_id) (data : snapshot) :
  battery_finite data ->
  (forall v, data !! "output_source_raw" = Some v ->
     exists n, int_of_value v = Ok n) ->
  exists derived, _derive_states p data = Ok derived.
Proof.
  intros Hf Hsrc. unfold _derive_states.
  destruct (battery_stage data Hf) as (d0 & -> & _).
  destruct (data !! "output_source_raw") as [osr|]; [|eauto].
  destruct (Hsrc osr eq_refl) as [n ->].
  destruct p as [[]|]; simpl; eauto.
Qed.

(** An out-of-range or unparseable battery status code reads "unknown". *)
Lemma battery_status_unknown (v : value) :
  is_infinite v = false ->
  (forall n, int_of_value v = Ok n -> n < 1 \/ 4 < n) ->
  battery_status_text v = Ok "unknown".
Proof.
  intros Hf Hr. unfold battery_status_text.
  destruct (int_of_value v) as [n|e] eqn:E.
  - specialize (Hr n eq_refl). unfold BATTERY_STATUS_MAP, enum_get.
    repeat match goal with
           | |- context [?a =? ?b] => destruct (Z.eqb_spec a b); [lia|]
           end.
    reflexivity.
  - destruct e; try reflexivity.
    + destruct v; simpl in *; try discriminate.
      * apply int_of_float_overflow in E as [E|E]; congruence.
      * unfold Py.int in *. destruct (Py.int_of_str s); discriminate.
    + destruct v; simpl in *; try discriminate.
      * unfold Py.int_of_float in E. destruct (Prim2SF f); discriminate.
      * unfold Py.int in *. destruct (Py.int_of_str s); discriminate.
    + destruct v; simpl in *; try discriminate.
      * unfold Py.int_of_float in E. destruct (Prim2SF f); discriminate.
      * unfold Py.int in *. destruct (Py.int_of_str s); discriminate.
Qed.

(** An output source code outside the dialect's map reads "unknown". *)
Lemma output_source_unknown (p : protocol_id) (code : Z) :
  code < 1 \/ (match p with UPS_MIB => 7 | APC_MIB => 4 end) < code ->
  enum_get code
    (match p with UPS_MIB => UPS_OUTPUT_SOURCE_MAP | APC_MIB => APC_OUTPUT_SOURCE_MAP end)
    "unknown" = "unknown".
Proof.
  intros H. destruct p; unfold UPS_OUTPUT_SOURCE_MAP, APC_OUTPUT_SOURCE_MAP, enum_get;
    repeat match goal with
           | |- context [?a =? ?b] => destruct (Z.eqb_spec a b); [lia|]
           end; reflexivity.
Qed.

(** ** Units *)

(** The floats written [123.4] and [2.0]. *)
Definition f_123_4 : float := 0x1.ed9999999999ap+6%float.
Definition f_2_0 : float := 0x1p+1%float.

Definition apc_runtime_spec : oid_spec :=
  mk_spec "1.3.6.1.4.1.318.1.1.1.2.2.3.0" None true.

(** C5.  The scale is applied to numbers only, and a text passes through
    it untouched; the timeticks conversion has no such test, so a text
    under the vendor dialect's [runtime_remaining] raises [TypeError] and
    [_fetch_keys] fails as a whole.  The two worked examples hold. *)
Theorem apply_unit_timeticks_text_raises :
  table_get "runtime_remaining" APC_MIB_OIDS = Some apc_runtime_spec
  /\ apply_unit apc_runtime_spec (VStr "n/a") = Err TypeError
  /\ fetch_loop APC_MIB_OIDS {[ oid apc_runtime_spec := Some "n/a" ]} fast_keys ∅
     = Err TypeError
  /\ apply_unit (scaled "1.3.6.1.2.1.33.1.2.5.0") (VStr "n/a") = Ok (VStr "n/a")
  /\ apply_unit (scaled "1.3.6.1.2.1.33.1.2.5.0") (VInt 1234) = Ok (VFloat f_123_4)
  /\ apply_unit apc_runtime_spec (VInt 12000) = Ok (VFloat f_2_0).
Proof. vm_compute. repeat split; reflexivity. Qed.

(** What does hold of the units on a text. *)
Lemma apply_unit_text (spec : oid_spec) (s : string) :
  apply_unit spec (VStr s) =
    if timeticks_minutes spec then Err TypeError else Ok (VStr s).
Proof.
  unfold apply_unit. destruct (timeticks_minutes spec); [reflexivity|].
  destruct (scale spec); reflexivity.
Qed.

(** No table entry has both conversions, so at most one applies. *)
Lemma tables_one_conversion (p : option protocol_id) (key : string) (spec : oid_spec) :
  table_get key (table_of p) = Some spec ->
  timeticks_minutes spec = false \/ scale spec = None.
Proof.
  destruct p as [[]|]; simpl;
    repeat (destruct (String.eqb key _);
            [intros H; inversion H; subst; simpl; auto|]);
    discriminate.
Qed.

(** ** Coercion *)



















Lemma nonempty_true (s : string) : Py.nonempty s = true <-> s <> "".
Proof. destruct s; simpl; split; congruence. Qed.








Lemma coerce_text (s : string) :
  _coerce_snmp_value (Some (VStr s)) =
    let text := Py.strip s in
    if Py.nonempty text then
      match Py.search_paren_digits text with
      | Some d => return_int (Py.int d)
      | None =>
          if Py.fullmatch_int text then return_int (Py.int text)
          else
            match Py.fullmatch_decimal text with
            | Some (neg, ip, fp) => Ok (Some (VFloat (Py.float_of_decimal neg ip fp)))
            | None => Ok (Some (VStr text))
            end
      end
    else Ok None.
Proof. reflexivity. Qed.

















Example coerce_probe :
  _coerce_snmp_value (Some (VStr "Value (42)")) = Ok (Some (VInt 42))
  /\ _coerce_snmp_value (Some (VStr "Timeticks: (12000) 0:02:00.00"))
     = Ok (Some (VInt 12000))
  /\ _coerce_snmp_value (Some (VStr " 230 ")) = Ok (Some (VInt 230))
  /\ _coerce_snmp_value (Some (VStr "-7")) = Ok (Some (VInt (-7)))
  /\ _coerce_snmp_value (Some (VStr "12.50")) = Ok (Some (VFloat 12.5%float))
  /\ _coerce_snmp_value (Some (VStr "(-5)")) = Ok (Some (VStr "(-5)"))
  /\ _coerce_snmp_value (Some (VStr "+5")) = Ok (Some (VStr "+5"))
  /\ _coerce_snmp_value (Some (VStr " APC Smart-UPS "))
     = Ok (Some (VStr "APC Smart-UPS")).
Proof. vm_compute. repeat split; reflexivity. Qed.

(** ** Runs *)

Lemma run_bind {W A B : Type} (env : world W) (m : io A) (k : A -> io B) (w : W) :
  run env (io_bind m k) w =
    let '(a, w1, t1) := run env m w in
    let '(b, w2, t2) := run env (k a) w1 in
    (b, w2, t1 ++ t2).
Proof.
  revert w. induction m as [a|rq h IH|h IH|msg h IH]; intros w; simpl.
  - destruct (run env (k a) w) as [[b w2] t2]. reflexivity.
  - destruct (answer env rq w) as [r w1]. rewrite IH.
    destruct (run env (h r) w1) as [[a w2] t1].
    destruct (run env (k a) w2) as [[b w3] t2]. reflexivity.
  - destruct (clock env w) as [t w1]. rewrite IH.
    destruct (run env (h t) w1) as [[a w2] t1].
    destruct (run env (k a) w2) as [[b w3] t2]. reflexivity.
  - rewrite IH. destruct (run env h w) as [[a w2] t1].
    destruct (run env (k a) w2) as [[b w3] t2]. reflexivity.
Qed.

Lemma run_mbind {W A B : Type} (env : world W) (m : io A) (k : A -> io B) (w : W) :
  run env (m ≫= k) w =
    let '(a, w1, t1) := run env m w in
    let '(b, w2, t2) := run env (k a) w1 in
    (b, w2, t1 ++ t2).
Proof. apply run_bind. Qed.

Lemma requests_app (t1 t2 : list event) :
  requests (t1 ++ t2) = requests t1 ++ requests t2.
Proof. unfold requests. apply omap_app. Qed.

(** ** The transport *)

(** The text a reply delivers, if any. *)
Definition delivers (reply : snmp_reply) (text : string) : Prop :=
  exists raw rest,
    reply = Reply false false (ObjValue raw :: rest)
    /\ Py.strip raw = text /\ text <> "".

(** A reply that failed, timed out, or holds a sentinel or an empty text. *)
Definition no_value (reply : snmp_reply) : Prop :=
  match reply with
  | RaisesTimeout | RaisesOther => True
  | Reply error_indication error_status var_binds =>
      error_indication = true \/ error_status = true
      \/ match var_binds with
         | ObjValue raw :: _ => Py.strip raw = ""
         | _ => True
         end
  end.

(** What [_async_get_snmp_value] makes of a reply. *)
Definition reply_text (reply : snmp_reply) : option string :=
  match reply with
  | Reply false false (ObjValue raw :: _) =>
      if Py.nonempty (Py.strip raw) then Some (Py.strip raw) else None
  | _ => None
  end.

Lemma reply_text_none (reply : snmp_reply) :
  no_value reply -> reply_text reply = None.
Proof.
  destruct reply as [| |[] [] [|[] vs]]; simpl; try reflexivity.
  intros [H|[H|H]]; try discriminate. now rewrite H.
Qed.

Lemma reply_text_delivers (reply : snmp_reply) (text : string) :
  delivers reply text -> reply_text reply = Some text.
Proof.
  intros (raw & rest & -> & <- & Hne). simpl.
  apply nonempty_true in Hne. now rewrite Hne.
Qed.

Lemma reply_text_cases (reply : snmp_reply) :
  match reply_text reply with
  | Some text => delivers reply text
  | None => no_value reply
  end.
Proof.
  destruct reply as [| |[] [] [|[] vs]]; simpl; auto.
  destruct (Py.nonempty (Py.strip text)) eqn:E.
  - exists text, vs. repeat split. now apply nonempty_true.
  - right; right. destruct (Py.strip text); [reflexivity|discriminate].
Qed.

Definition request_for (host community : string) (timeout : Z) (version o : string)
    : snmp_request :=
  mk_request host 161 timeout 3 community (_snmp_version_to_model version) o.

(** The events of one request: the exchange, and a warning after a
    timeout. *)
Definition exchange (rq : snmp_request) (reply : snmp_reply) : list event :=
  EvGet rq reply ::
  match reply with
  | RaisesTimeout => [EvWarning (WarnQueryTimeout (rq_host rq) (rq_timeout rq) (rq_oid rq))]
  | _ => []
  end.

Lemma run_get_snmp_value {W : Type} (env : world W) (host o community : string)
    (timeout : Z) (version : string) (w : W) :
  let rq := request_for host community timeout version o in
  run env (_async_get_snmp_value host o community timeout version) w =
    (reply_text (answer env rq w).1, (answer env rq w).2,
     exchange rq (answer env rq w).1).
Proof.
  cbv zeta. unfold _async_get_snmp_value, get_cmd, request_for. simpl.
  destruct (answer env _ w) as [reply w1]. simpl.
  destruct reply as [| |[] [] [|[] vs]]; simpl; try reflexivity.
  destruct (Py.nonempty (Py.strip text)); reflexivity.
Qed.

(** The device asked each request in turn. *)
Fixpoint ask_all {W : Type} (env : world W) (rqs : list snmp_request) (w : W)
    : list snmp_reply * W :=
  match rqs with
  | [] => ([], w)
  | rq :: rest =>
      let '(r, w1) := answer env rq w in
      let '(rs, w2) := ask_all env rest w1 in
      (r :: rs, w2)
  end.

Fixpoint exchanges (rqs : list snmp_request) (replies : list snmp_reply) : list event :=
  match rqs, replies with
  | rq :: rqs', r :: replies' => exchange rq r ++ exchanges rqs' replies'
  | _, _ => []
  end.

Lemma ask_all_length {W : Type} (env : world W) (rqs : list snmp_request) (w : W) :
  length (ask_all env rqs w).1 = length rqs.
Proof.
  revert w. induction rqs as [|rq rqs IH]; intros w; simpl; [reflexivity|].
  destruct (answer env rq w) as [r w1]. specialize (IH w1).
  destruct (ask_all env rqs w1) as [rs w2]. simpl in *. now rewrite IH.
Qed.

Lemma run_gather_values {W : Type} (env : world W) (host community : string)
    (timeout : Z) (version : string) (oids : list string) (w : W) :
  let rqs := map (request_for host community timeout version) oids in
  run env
    (gather (map (fun o => r ← _async_get_snmp_value host o community timeout version;
                           mret (Ok (E := py_error) r)) oids)) w =
    (map (fun r => Ok (reply_text r)) (ask_all env rqs w).1,
     (ask_all env rqs w).2,
     exchanges rqs (ask_all env rqs w).1).
Proof.
  cbv zeta. revert w. induction oids as [|o oids IH]; intros w; [reflexivity|].
  cbn [map gather ask_all].
  rewrite run_mbind, run_mbind, run_get_snmp_value. cbv zeta.
  destruct (answer env _ w) as [reply w1]. cbn [fst snd run mret io_ret].
  rewrite run_mbind, IH.
  destruct (ask_all env _ w1) as [rs w2]. cbn [fst snd run mret io_ret map exchanges].
  now rewrite !app_nil_r.
Qed.

(** The last value a list of pairs holds for a key. *)
Fixpoint last_for {A : Type} (o : string) (pairs : list (string * A)) : option A :=
  match pairs with
  | [] => None
  | (o', a) :: rest =>
      match last_for o rest with
      | Some x => Some x
      | None => if String.eqb o' o then Some a else None
      end
  end.

(** The reply to the last request for an OID in a trace. *)
Fixpoint last_reply (o : string) (tr : list event) : option snmp_reply :=
  match tr with
  | [] => None
  | e :: rest =>
      match last_reply o rest with
      | Some r => Some r
      | None =>
          match e with
          | EvGet rq r => if String.eqb (rq_oid rq) o then Some r else None
          | _ => None
          end
      end
  end.

Lemma last_reply_app (o : string) (t1 t2 : list event) :
  last_reply o (t1 ++ t2) =
    match last_reply o t2 with
    | Some r => Some r
    | None => last_reply o t1
    end.
Proof.
  induction t1 as [|e t1 IH]; simpl.
  - now destruct (last_reply o t2).
  - rewrite IH. now destruct (last_reply o t2).
Qed.

Lemma collect_values_lookup (pairs : list (string * snmp_reply)) (m : raw_values) (o : string) :
  collect_values (map (fun '(o', r) => (o', Ok (reply_text r))) pairs) m !! o =
    match last_for o pairs with
    | Some r => Some (reply_text r)
    | None => m !! o
    end.
Proof.
  revert m. induction pairs as [|[o' r] pairs IH]; intros m; simpl; [reflexivity|].
  rewrite IH. destruct (last_for o pairs); [reflexivity|].
  destruct (String.eqb_spec o' o) as [->|Hne].
  - now rewrite lookup_insert_eq.
  - now rewrite lookup_insert_ne.
Qed.

Lemma last_for_is_Some {A : Type} (o : string) (pairs : list (string * A)) :
  is_Some (last_for o pairs) <-> o ∈ map fst pairs.
Proof.
  induction pairs as [|[o' a] pairs IH]; simpl.
  - split; [intros [x H]; discriminate|intros H; inversion H].
  - rewrite elem_of_cons, <- IH.
    destruct (last_for o pairs) eqn:E.
    + split; eauto.
    + destruct (String.eqb_spec o' o) as [->|Hne].
      * split; eauto.
      * split; [intros [x H]; discriminate|intros [H|[x H]]; congruence].
Qed.

Lemma last_reply_exchanges (host community : string) (timeout : Z) (version : string)
    (o : string) (oids : list string) (replies : list snmp_reply) :
  length replies = length oids ->
  last_reply o (exchanges (map (request_for host community timeout version) oids) replies)
  = last_for o (zip oids replies).
Proof.
  revert replies. induction oids as [|o' oids IH]; intros [|r replies] Hlen;
    simpl in *; try reflexivity; try discriminate.
  rewrite last_reply_app, IH by lia.
  destruct (last_for o (zip oids replies)); [reflexivity|].
  destruct r; simpl; destruct (String.eqb o' o); reflexivity.
Qed.

Lemma requests_exchanges (rqs : list snmp_request) (replies : list snmp_reply) :
  length replies = length rqs -> requests (exchanges rqs replies) = rqs.
Proof.
  revert replies. induction rqs as [|rq rqs IH]; intros [|r replies] Hlen;
    simpl in *; try reflexivity; try discriminate.
  rewrite requests_app, IH by lia. now destruct r.
Qed.

Lemma zip_map_r {A B C : Type} (f : B -> C) (l : list A) (k : list B) :
  zip l (map f k) = map (fun '(a, b) => (a, f b)) (zip l k).
Proof.
  revert k. induction l as [|a l IH]; intros [|b k]; simpl; try reflexivity.
  now rewrite IH.
Qed.

Lemma map_fst_zip {A B : Type} (l : list A) (k : list B) :
  length k = length l -> map fst (zip l k) = l.
Proof.
  revert k. induction l as [|a l IH]; intros [|b k] H; simpl in *;
    try reflexivity; try discriminate.
  rewrite IH by lia. reflexivity.
Qed.

(** The mapping a batch returns, from the replies in request order. *)
Definition values_of (oids : list string) (replies : list snmp_reply) : raw_values :=
  collect_values (zip oids (map (fun r => Ok (reply_text r)) replies)) ∅.

Lemma run_get_snmp_values {W : Type} (env : world W) (host : string)
    (oids : list string) (community : string) (timeout : Z) (version : string) (w : W) :
  let rqs := map (request_for host community timeout version) oids in
  run env (_async_get_snmp_values host oids community timeout version) w =
    (values_of oids (ask_all env rqs w).1, (ask_all env rqs w).2,
     exchanges rqs (ask_all env rqs w).1).
Proof.
  cbv zeta. destruct oids as [|o oids]; [reflexivity|].
  unfold _async_get_snmp_values. rewrite run_mbind, run_gather_values. cbv zeta.
  destruct (ask_all env _ w) as [rs w2]. cbn [fst snd run mret io_ret].
  now rewrite app_nil_r.
Qed.

Lemma values_of_lookup (oids : list string) (replies : list snmp_reply) (o : string) :
  values_of oids replies !! o = reply_text <$> last_for o (zip oids replies).
Proof.
  unfold values_of. rewrite zip_map_r, collect_values_lookup.
  destruct (last_for o (zip oids replies)); [reflexivity|apply lookup_empty].
Qed.

(** The contract of a batch query: it returns a mapping with an entry for
    each requested OID and no other, after one request per OID and nothing
    else on the wire; an OID whose last reply brought no value is mapped to
    [None], one whose last reply delivered a text is mapped to that text. *)
Definition batch_contract (hass : option hass_handle) (use_executor : bool)
    (host : string) (oids : list string) (community : string) (timeout : Z)
    (version : string) : Prop :=
  forall (W : Type) (env : world W) (w : W),
  exists values,
    (run env (async_get_snmp_values host oids community timeout version
                hass use_executor) w).1.1 = Ok values
    /\ (forall o, is_Some (values !! o) <-> o ∈ oids)
    /\ requests (run env (async_get_snmp_values host oids community timeout version
                            hass use_executor) w).2
       = map (request_for host community timeout version) oids
    /\ (forall o, o ∈ oids ->
          exists reply,
            last_reply o
              (run env (async_get_snmp_values host oids community timeout version
                          hass use_executor) w).2 = Some reply
            /\ (no_value reply -> values !! o = Some None)
            /\ (forall text, delivers reply text -> values !! o = Some (Some text))).

Lemma run_batch {W : Type} (env : world W) (hass : option hass_handle)
    (use_executor : bool) (host : string) (oids : list string) (community : string)
    (timeout : Z) (version : string) (w : W) :
  oids = [] \/ use_executor = false \/ is_Some hass ->
  let rqs := map (request_for host community timeout version) oids in
  run env (async_get_snmp_values host oids community timeout version
             hass use_executor) w =
    (Ok (values_of oids (ask_all env rqs w).1), (ask_all env rqs w).2,
     exchanges rqs (ask_all env rqs w).1).
Proof.
  intros Hok. cbv zeta. destruct oids as [|o oids]; [reflexivity|].
  assert (E : async_get_snmp_values host (o :: oids) community timeout version
                hass use_executor
              = (v ← _async_get_snmp_values host (o :: oids) community timeout version;
                 mret (Ok v))).
  { unfold async_get_snmp_values, _get_snmp_values_sync.
    destruct use_executor; [|reflexivity].
    destruct hass; [reflexivity|].
    destruct Hok as [H|[H|[x H]]]; discriminate. }
  rewrite E, run_mbind, run_get_snmp_values. cbv zeta.
  destruct (ask_all env _ w) as [rs w2]. cbn [fst snd run mret io_ret].
  now rewrite app_nil_r.
Qed.

(** C9.  A batch query that respects the call's contract (a Home
    Assistant instance at hand whenever the executor is requested, as at
    both call sites of the coordinator) returns one entry per requested
    OID, [None] for each one that failed, timed out or came back as a
    sentinel; no exception of a single request reaches the caller; and for
    an empty list it returns the empty mapping with no request made. *)
Theorem batch_query_contract (hass : option hass_handle) (use_executor : bool)
    (host : string) (oids : list string) (community : string) (timeout : Z)
    (version : string) :
  oids = [] \/ use_executor = false \/ is_Some hass ->
  batch_contract hass use_executor host oids community timeout version
  /\ (oids = [] ->
      forall (W : Type) (env : world W) (w : W),
        run env (async_get_snmp_values host oids community timeout version
                   hass use_executor) w = (Ok ∅, w, [])).
Proof.
  intros Hok. split.
  - intros W env w. rewrite (run_batch env _ _ _ _ _ _ _ w Hok). cbv zeta.
    set (rqs := map (request_for host community timeout version) oids).
    pose proof (ask_all_length env rqs w) as Hlen.
    destruct (ask_all env rqs w) as [replies w2]. cbn [fst snd] in *.
    assert (Hlen' : length replies = length oids).
    { rewrite Hlen. unfold rqs. apply length_map. }
    exists (values_of oids replies). split; [reflexivity|].
    split; [|split].
    + intros o. rewrite values_of_lookup, fmap_is_Some, last_for_is_Some.
      now rewrite (map_fst_zip oids replies Hlen').
    + apply requests_exchanges. now rewrite Hlen.
    + intros o Ho. unfold rqs. rewrite last_reply_exchanges by exact Hlen'.
      rewrite <- (map_fst_zip oids replies Hlen') in Ho.
      apply last_for_is_Some in Ho as [reply Hr].
      exists reply. split; [exact Hr|].
      rewrite values_of_lookup, Hr. simpl. split.
      * intros Hn. now rewrite (reply_text_none _ Hn).
      * intros text Hd. now rewrite (reply_text_delivers _ _ Hd).
  - intros -> W env w. reflexivity.
Qed.

Lemma batch_query_contract_witness :
  batch_contract (Some Hass) true "192.0.2.1"
    ["1.3.6.1.2.1.33.1.4.1.0"; "1.3.6.1.2.1.33.1.2.4.0"] "public" 5 "2c"
  /\ (["1.3.6.1.2.1.33.1.4.1.0"; "1.3.6.1.2.1.33.1.2.4.0"] = [] ->
      forall (W : Type) (env : world W) (w : W),
        run env (async_get_snmp_values "192.0.2.1"
                   ["1.3.6.1.2.1.33.1.4.1.0"; "1.3.6.1.2.1.33.1.2.4.0"]
                   "public" 5 "2c" (Some Hass) true) w = (Ok ∅, w, [])).
Proof.
  apply (batch_query_contract (Some Hass) true).
  right; right. exists Hass. reflexivity.
Defined.

(** The call the contract leaves out: with the executor requested and
    no Home Assistant instance, a non-empty batch raises [RuntimeError]
    before any request is made. *)
Lemma batch_query_needs_hass {W : Type} (env : world W) (host o : string)
    (oids : list string) (community : string) (timeout : Z) (version : string)
    (w : W) :
  run env (async_get_snmp_values host (o :: oids) community timeout version
             None true) w = (Err RuntimeError, w, []).
Proof. reflexivity. Qed.

(** ** Running methods *)

Section Exec.
Context {W : Type} (env : world W).

Lemma exec_bind {A B : Type} (m : method A) (k : A -> method B) (c : coordinator) (w : W) :
  exec env (method_bind m k) c w =
    let '(r, c1, w1, t1) := exec env m c w in
    match r with
    | Ok a =>
        let '(r2, c2, w2, t2) := exec env (k a) c1 w1 in
        (r2, c2, w2, t1 ++ t2)
    | Err e => (Err e, c1, w1, t1)
    end.
Proof.
  unfold exec, method_bind. rewrite run_bind.
  destruct (run env (m c) w) as [[[r c1] w1] t1].
  destruct r as [a|e]; simpl.
  - destruct (run env (k a c1) w1) as [[[r2 c2] w2] t2]. reflexivity.
  - now rewrite app_nil_r.
Qed.

Lemma exec_ret {A : Type} (a : A) (c : coordinator) (w : W) :
  exec env (method_ret a) c w = (Ok a, c, w, []).
Proof. reflexivity. Qed.

Lemma exec_raise {A : Type} (e : exn) (c : coordinator) (w : W) :
  exec env (raise (A := A) e) c w = (Err e, c, w, []).
Proof. reflexivity. Qed.

Lemma exec_self (c : coordinator) (w : W) :
  exec env self c w = (Ok c, c, w, []).
Proof. reflexivity. Qed.

Lemma exec_assign (f : coordinator -> coordinator) (c : coordinator) (w : W) :
  exec env (assign f) c w = (Ok tt, f c, w, []).
Proof. reflexivity. Qed.

Lemma exec_lift_io {A : Type} (m : io A) (c : coordinator) (w : W) :
  exec env (lift_io m) c w =
    let '(a, w1, t1) := run env m w in (Ok a, c, w1, t1).
Proof.
  unfold exec, lift_io. rewrite run_bind.
  destruct (run env m w) as [[a w1] t1]. simpl. now rewrite app_nil_r.
Qed.

Lemma exec_try_except {A : Type} (body : method A) (handler : exn -> method A)
    (c : coordinator) (w : W) :
  exec env (try_except body handler) c w =
    let '(r, c1, w1, t1) := exec env body c w in
    match r with
    | Ok a => (Ok a, c1, w1, t1)
    | Err e =>
        let '(r2, c2, w2, t2) := exec env (handler e) c1 w1 in
        (r2, c2, w2, t1 ++ t2)
    end.
Proof.
  unfold exec, try_except. rewrite run_bind.
  destruct (run env (body c) w) as [[[r c1] w1] t1].
  destruct r as [a|e]; simpl.
  - now rewrite app_nil_r.
  - destruct (run env (handler e c1) w1) as [[[r2 c2] w2] t2]. reflexivity.
Qed.

(** *** Fetching *)

(** The requests [_fetch_keys] sends for a set of keys. *)
Definition fetch_requests (c : coordinator) (oid_map : oid_table) (keys : list string)
    : list snmp_request :=
  map (request_for (host c) (community c) 5 (snmp_version c)) (oids_of oid_map keys).

(** The raw mapping [_fetch_keys] gets for them in world [w]. *)
Definition fetch_raw (c : coordinator) (oid_map : oid_table) (keys : list string) (w : W)
    : raw_values :=
  values_of (oids_of oid_map keys) (ask_all env (fetch_requests c oid_map keys) w).1.

Definition lift_error {A : Type} (r : result py_error A) : result exn A :=
  match r with
  | Ok a => Ok a
  | Err e => Err (Builtin e)
  end.

Lemma fetch_loop_untabled (oid_map : oid_table) (raw : raw_values)
    (keys : list string) (d : snapshot) :
  oids_of oid_map keys = [] -> fetch_loop oid_map raw keys d = Ok d.
Proof.
  revert d. induction keys as [|key keys IH]; intros d H; simpl in *; [reflexivity|].
  unfold oids_of in H. simpl in H.
  destruct (table_get key oid_map); simpl in H; [discriminate|]. now apply IH.
Qed.

Lemma exec_fetch_keys (oid_map : oid_table) (keys : list string) (c : coordinator) (w : W) :
  exec env (_fetch_keys oid_map keys) c w =
    (lift_error (fetch_loop oid_map (fetch_raw c oid_map keys w) keys ∅), c,
     (ask_all env (fetch_requests c oid_map keys) w).2,
     exchanges (fetch_requests c oid_map keys)
       (ask_all env (fetch_requests c oid_map keys) w).1).
Proof.
  unfold _fetch_keys, fetch_raw, fetch_requests.
  rewrite exec_bind, exec_self.
  destruct (oids_of oid_map keys) as [|o oids] eqn:E.
  - rewrite exec_ret. simpl. now rewrite fetch_loop_untabled.
  - rewrite exec_bind, exec_lift_io.
    rewrite (run_batch env (Some (hass c)) true) by (right; right; eauto).
    cbv zeta.
    destruct (ask_all env _ w) as [replies w1]. cbn [fst snd].
    destruct (fetch_loop oid_map _ keys ∅) as [d|e];
      [rewrite exec_ret|rewrite exec_raise]; simpl; now rewrite app_nil_r.
Qed.

End Exec.

(** ** Protocol detection *)

(** The identifying field of each dialect. *)
Definition identifying_oid (p : protocol_id) : string :=
  match p with
  | UPS_MIB => "1.3.6.1.2.1.33.1.4.1.0"
  | APC_MIB => "1.3.6.1.4.1.318.1.1.1.1.1.1.0"
  end.

Definition dialect_table (p : protocol_id) : oid_table :=
  match p with
  | UPS_MIB => UPS_MIB_OIDS
  | APC_MIB => APC_MIB_OIDS
  end.

(** The combinations detection tries, in order. *)
Definition probe_order : list (protocol_id * string) :=
  [ (UPS_MIB, "2c"); (APC_MIB, "2c"); (UPS_MIB, "1"); (APC_MIB, "1") ].

Definition probe_request (c : coordinator) (pv : protocol_id * string) : snmp_request :=
  request_for (host c) (community c) 5 pv.2 (identifying_oid pv.1).

Section Detection.
Context {W : Type} (env : world W).

(** Detection as the specification words it: the combinations are probed
    in order and the first whose identifying field yields a value wins. *)
Fixpoint first_answer (probes : list (protocol_id * string)) (c : coordinator) (w : W)
    : option (protocol_id * string) * W * list event :=
  match probes with
  | [] => (None, w, [])
  | pv :: rest =>
      let rq := probe_request c pv in
      let '(reply, w1) := answer env rq w in
      match reply_text reply with
      | Some _ => (Some pv, w1, exchange rq reply)
      | None =>
          let '(found, w2, tr) := first_answer rest c w1 in
          (found, w2, exchange rq reply ++ tr)
      end
  end.

Lemma exec_try_protocol (p : protocol_id) (version : string) (c : coordinator) (w : W) :
  exec env (_try_protocol p (dialect_table p) version) c w =
    let rq := probe_request c (p, version) in
    (Ok (bool_decide (is_Some (reply_text (answer env rq w).1))), c,
     (answer env rq w).2, exchange rq (answer env rq w).1).
Proof.
  cbv zeta. unfold _try_protocol, probe_request. rewrite exec_bind, exec_self.
  assert (E : table_get (identifying_key p) (dialect_table p)
              = Some (plain (identifying_oid p))) by now destruct p.
  rewrite E. cbn [oid plain]. rewrite exec_bind, exec_lift_io.
  rewrite (run_batch env (Some (hass c)) true) by (right; right; eauto).
  cbv zeta. cbn [map ask_all fst snd].
  destruct (answer env _ w) as [reply w1]. cbn [fst snd].
  rewrite exec_ret. cbn [exchanges].
  rewrite values_of_lookup. cbn [zip zip_with last_for]. rewrite String.eqb_refl.
  cbn [fmap option_fmap option_map]. rewrite !app_nil_r.
  destruct (reply_text reply); reflexivity.
Qed.

(** The loop of [_detect_protocol] over versions is the spec's search over
    combinations, two per version. *)
Definition version_probes (versions : list string) : list (protocol_id * string) :=
  flat_map (fun v => [(UPS_MIB, v); (APC_MIB, v)]) versions.

Lemma exec_detect_loop (versions : list string) (c : coordinator) (w : W) :
  exec env (detect_loop versions) c w =
    match first_answer (version_probes versions) c w with
    | (Some (p, v), w', tr) => (Ok tt, set_detected p v c, w', tr)
    | (None, w', tr) =>
        (Ok tt, set_protocol UPS_MIB c, w',
         tr ++ [EvWarning (WarnDetectDefault (host c))])
    end.
Proof.
  revert w. induction versions as [|v versions IH]; intros w.
  - cbn [detect_loop version_probes flat_map first_answer].
    rewrite exec_bind, exec_assign, exec_bind, exec_self, exec_lift_io.
    reflexivity.
  - cbn [detect_loop version_probes flat_map first_answer app].
    rewrite exec_bind.
    pose proof (exec_try_protocol UPS_MIB v c w) as E1. cbn [dialect_table] in E1.
    rewrite E1. clear E1. cbv zeta.
    destruct (answer env (probe_request c (UPS_MIB, v)) w) as [r1 w1]. cbn [fst snd].
    destruct (reply_text r1) as [t1|]; cbn [bool_decide decide_rel is_Some_dec].
    { rewrite exec_assign. now rewrite app_nil_r. }
    rewrite exec_bind.
    pose proof (exec_try_protocol APC_MIB v c w1) as E2. cbn [dialect_table] in E2.
    rewrite E2. clear E2. cbv zeta.
    destruct (answer env (probe_request c (APC_MIB, v)) w1) as [r2 w2]. cbn [fst snd].
    destruct (reply_text r2) as [t2|]; cbn [bool_decide decide_rel is_Some_dec].
    { rewrite exec_assign. now rewrite app_nil_r. }
    rewrite IH. fold (version_probes versions).
    destruct (first_answer (version_probes versions) c w2) as [[[[p v']|] w3] tr];
      now rewrite ?app_assoc.
Qed.

Lemma exec_detect_protocol (c : coordinator) (w : W) :
  exec env _detect_protocol c w =
    match first_answer probe_order c w with
    | (Some (p, v), w', tr) => (Ok tt, set_detected p v c, w', tr)
    | (None, w', tr) =>
        (Ok tt, set_protocol UPS_MIB c, w',
         tr ++ [EvWarning (WarnDetectDefault (host c))])
    end.
Proof. apply (exec_detect_loop ["2c"; "1"]). Qed.

End Detection.

(** ** The refresh cycle *)

(** The end of [update_after_detection], once both fetches are in. *)
Definition conclude (F S : snapshot) (c : coordinator) : result exn snapshot * coordinator :=
  if is_empty F && is_empty S && is_empty (data c)
  then (Err (UpdateFailed NoSnmpData), c)
  else
    let merged : snapshot := F ∪ (S ∪ data c) in
    match _derive_states (protocol c) merged with
    | Err e => (Err (Builtin e), c)
    | Ok derived => (Ok (derived ∪ merged), _update_metadata (derived ∪ merged) c)
    end.

(** The transport returned no value for OID [o] anywhere in the trace. *)
Definition silent (o : string) (tr : list event) : Prop :=
  forall rq reply, EvGet rq reply ∈ tr -> rq_oid rq = o -> no_value reply.

Lemma silent_app (o : string) (t1 t2 : list event) :
  silent o (t1 ++ t2) <-> silent o t1 /\ silent o t2.
Proof.
  unfold silent. split.
  - intros H. split; intros rq reply Hin; apply H, elem_of_app; auto.
  - intros [H1 H2] rq reply Hin. apply elem_of_app in Hin as [Hin|Hin]; eauto.
Qed.

Lemma last_for_in_exchanges (host community : string) (timeout : Z) (version : string)
    (o : string) (oids : list string) (replies : list snmp_reply) (reply : snmp_reply) :
  last_for o (zip oids replies) = Some reply ->
  EvGet (request_for host community timeout version o) reply
    ∈ exchanges (map (request_for host community timeout version) oids) replies.
Proof.
  revert replies. induction oids as [|o' oids IH]; intros [|r replies];
    cbn [zip_with last_for map exchanges]; try discriminate.
  intros H. apply elem_of_app.
  destruct (last_for o (zip oids replies)) as [x|] eqn:E.
  - inversion H; subst. right. now apply IH.
  - destruct (String.eqb_spec o' o) as [->|Hne]; [|discriminate].
    inversion H; subst. left. unfold exchange. apply elem_of_cons. now left.
Qed.

Lemma raw_get_silent (host community : string) (timeout : Z) (version : string)
    (o : string) (oids : list string) (replies : list snmp_reply) :
  silent o (exchanges (map (request_for host community timeout version) oids) replies) ->
  raw_get (values_of oids replies) o = None.
Proof.
  intros Hs. unfold raw_get. rewrite values_of_lookup.
  destruct (last_for o (zip oids replies)) as [reply|] eqn:E; [|reflexivity].
  simpl. apply (last_for_in_exchanges host community timeout version) in E.
  specialize (Hs _ _ E eq_refl). now rewrite (reply_text_none _ Hs).
Qed.

Lemma fetch_loop_absent (oid_map : oid_table) (raw : raw_values) (keys : list string)
    (d0 d : snapshot) (key : string) :
  fetch_loop oid_map raw keys d0 = Ok d ->
  d0 !! key = None ->
  (forall spec, table_get key oid_map = Some spec -> raw_get raw (oid spec) = None) ->
  d !! key = None.
Proof.
  revert d0. induction keys as [|k keys IH]; intros d0 H H0 Hraw; simpl in H.
  - now inversion H; subst.
  - destruct (table_get k oid_map) as [spec|] eqn:Et; [|eauto].
    destruct (_coerce_snmp_value (raw_get raw (oid spec))) as [[v|]|e0] eqn:Ec;
      [|eauto|discriminate].
    destruct (apply_unit spec v) as [v'|e]; [|discriminate].
    apply (IH _ H); [|exact Hraw].
    destruct (String.eqb_spec k key) as [->|Hne].
    + rewrite (Hraw _ Et) in Ec. discriminate.
    + now rewrite lookup_insert_ne.
Qed.

(** A key of a fetch result is one of the requested keys, and in the table. *)
Lemma fetch_loop_present (oid_map : oid_table) (raw : raw_values) (keys : list string)
    (d0 d : snapshot) (key : string) :
  fetch_loop oid_map raw keys d0 = Ok d ->
  is_Some (d !! key) ->
  is_Some (d0 !! key) \/ (key ∈ keys /\ is_Some (table_get key oid_map)).
Proof.
  revert d0. induction keys as [|k keys IH]; intros d0 H Hk; simpl in H.
  - inversion H; subst. now left.
  - assert (Hrec : forall d1, fetch_loop oid_map raw keys d1 = Ok d ->
              (is_Some (d1 !! key) -> is_Some (d0 !! key)
                 \/ (key ∈ k :: keys /\ is_Some (table_get key oid_map))) ->
              is_Some (d0 !! key)
              \/ (key ∈ k :: keys /\ is_Some (table_get key oid_map))).
    { intros d1 H1 Hd1. destruct (IH _ H1 Hk) as [Hs|[Hin Ht]]; [auto|].
      right. split; [now apply elem_of_cons; right|exact Ht]. }
    destruct (table_get k oid_map) as [spec|] eqn:Et; [|apply (Hrec _ H); auto].
    destruct (_coerce_snmp_value (raw_get raw (oid spec))) as [[v|]|e0];
      [|apply (Hrec _ H); auto|discriminate].
    destruct (apply_unit spec v) as [v'|e]; [|discriminate].
    apply (Hrec _ H). intros Hs.
    destruct (String.eqb_spec k key) as [->|Hne].
    + right. split; [apply elem_of_cons; now left|]. rewrite Et. eauto.
    + rewrite lookup_insert_ne in Hs by exact Hne. now left.
Qed.

(** Closes an equation between runs that differ in how the trace is
    bracketed. *)
Ltac trace_eq :=
  cbn [app]; repeat rewrite app_nil_r; repeat rewrite <- app_assoc; reflexivity.

Section Cycle.
Context {W : Type} (env : world W).

Lemma exec_detect_if_unknown (c : coordinator) (w : W) :
  exec env detect_if_unknown c w =
    match protocol c with
    | Some _ => (Ok tt, c, w, [])
    | None => exec env _detect_protocol c w
    end.
Proof.
  unfold detect_if_unknown. rewrite exec_bind, exec_self.
  destruct (protocol c).
  - now rewrite exec_ret.
  - destruct (exec env _detect_protocol c w) as [[[r c1] w1] t1].
    now destruct r.
Qed.

(** Detection returns, leaves everything but the dialect and the version
    as it was, and leaves a dialect behind. *)
Lemma detect_if_unknown_frame (c : coordinator) (w : W) :
  exists c1 w0 t0,
    exec env detect_if_unknown c w = (Ok tt, c1, w0, t0)
    /\ is_Some (protocol c1)
    /\ (is_Some (protocol c) -> c1 = c /\ w0 = w /\ t0 = [])
    /\ data c1 = data c /\ _last_slow_poll c1 = _last_slow_poll c
    /\ slow_poll_interval c1 = slow_poll_interval c
    /\ host c1 = host c /\ community c1 = community c
    /\ _failure_count c1 = _failure_count c /\ _backoff_until c1 = _backoff_until c
    /\ _backoff_base c1 = _backoff_base c /\ _backoff_max c1 = _backoff_max c.
Proof.
  rewrite exec_detect_if_unknown. destruct (protocol c) as [p|] eqn:Ep.
  - exists c, w, []. rewrite Ep. repeat split; eauto.
  - rewrite exec_detect_protocol.
    destruct (first_answer env probe_order c w) as [[[[p v]|] w0] t0];
      eexists _, _, _; (split; [reflexivity|]); simpl;
      (split; [eauto|]); (split; [intros [x Hx]; discriminate|]);
      repeat split.
Qed.

Lemma exec_update_after_detection (now : float) (c : coordinator) (w : W) :
  exec env (update_after_detection now) c w =
    let T := table_of (protocol c) in
    let '(rf, _, w1, t1) := exec env (_fetch_keys T fast_keys) c w in
    match rf with
    | Err e => (Err e, c, w1, t1)
    | Ok F =>
        if slow_due now c then
          let '(rs, _, w2, t2) := exec env (_fetch_keys T (slow_keys_of T)) c w1 in
          match rs with
          | Err e => (Err e, c, w2, t1 ++ t2)
          | Ok slow =>
              let c1 := if is_empty slow then c else set_last_slow_poll now c in
              (conclude F slow c1, w2, t1 ++ t2)
          end
        else (conclude F ∅ c, w1, t1)
    end.
Proof.
  cbv zeta. unfold update_after_detection.
  rewrite exec_bind, exec_self, exec_bind.
  rewrite !exec_fetch_keys.
  set (T := table_of (protocol c)).
  destruct (fetch_loop T (fetch_raw env c T fast_keys w) fast_keys ∅) as [F|e];
    cbn [lift_error]; [|reflexivity].
  rewrite exec_bind. destruct (slow_due now c).
  - rewrite exec_bind, exec_fetch_keys.
    destruct (fetch_loop T _ (slow_keys_of T) ∅) as [slow|e]; cbn [lift_error].
    2:{ trace_eq. }
    rewrite exec_bind.
    assert (Hend : forall c1 w2,
      exec env
        (c2 <- self;;
         if is_empty F && is_empty slow && is_empty (data c2)
         then raise (UpdateFailed NoSnmpData)
         else
           let merged : snapshot := F ∪ (slow ∪ data c2) in
           match _derive_states (protocol c2) merged with
           | Err e => raise (Builtin e)
           | Ok derived =>
               let final : snapshot := derived ∪ merged in
               assign (_update_metadata final);;; method_ret final
           end) c1 w2
      = (conclude F slow c1, w2, [])).
    { intros c1 w2. rewrite exec_bind, exec_self. unfold conclude.
      destruct (is_empty F && is_empty slow && is_empty (data c1));
        [now rewrite exec_raise|].
      cbv zeta. destruct (_derive_states _ _) as [derived|e];
        [|now rewrite exec_raise].
      now rewrite exec_bind, exec_assign, exec_ret. }
    assert (Hif : forall w2,
      exec env (if is_empty slow then method_ret tt
                else assign (set_last_slow_poll now)) c w2
      = (Ok tt, if is_empty slow then c else set_last_slow_poll now c, w2, [])).
    { intros w2. now destruct (is_empty slow). }
    rewrite Hif, exec_ret, Hend.
    destruct (conclude F slow _) as [r2 c2]. trace_eq.
  - rewrite exec_ret, exec_bind, exec_self. unfold conclude.
    destruct (is_empty F && is_empty ∅ && is_empty (data c));
      [rewrite exec_raise; trace_eq|].
    cbv zeta. destruct (_derive_states _ _) as [derived|e];
      [|rewrite exec_raise; trace_eq].
    rewrite exec_bind, exec_assign, exec_ret. trace_eq.
Qed.

Lemma exec_locked (now : float) (c : coordinator) (w : W) :
  exec env (_async_update_data_locked now) c w =
    let '(_, c1, w0, t0) := exec env detect_if_unknown c w in
    let '(r, c2, w1, t1) := exec env (update_after_detection now) c1 w0 in
    (r, c2, w1, t0 ++ t1).
Proof.
  unfold _async_update_data_locked. rewrite exec_bind.
  destruct (detect_if_unknown_frame c w) as (c1 & w0 & t0 & -> & _).
  reflexivity.
Qed.

End Cycle.

(** ** The merge *)

Section Merge.
Context {W : Type} (env : world W).

(** In the cycle that starts at clock reading [now] in state [c] and world
    [w], the fast fetch returned [F] and the slow fetch returned [S] (the
    empty mapping when it was not due); [c1] is the state once the dialect
    is known, [w'] the world afterwards, [tr] what went over the wire. *)
Definition fetched (now : float) (c : coordinator) (w : W) (F S : snapshot)
    (c1 : coordinator) (w' : W) (tr : list event) : Prop :=
  exists w0 t0 w1 t1 t2,
    exec env detect_if_unknown c w = (Ok tt, c1, w0, t0)
    /\ exec env (_fetch_keys (table_of (protocol c1)) fast_keys) c1 w0
       = (Ok F, c1, w1, t1)
    /\ (if slow_due now c1
        then exec env (_fetch_keys (table_of (protocol c1))
                         (slow_keys_of (table_of (protocol c1)))) c1 w1
             = (Ok S, c1, w', t2)
        else S = ∅ /\ w' = w1 /\ t2 = [])
    /\ tr = t0 ++ t1 ++ t2.

(** Last write wins: fast over slow over prior. *)
Definition overlay (P S F : snapshot) (k : string) : option value :=
  match F !! k with
  | Some v => Some v
  | None =>
      match S !! k with
      | Some v => Some v
      | None => P !! k
      end
  end.

Lemma merge_overlay (P S F : snapshot) (k : string) :
  (F ∪ (S ∪ P)) !! k = overlay P S F k.
Proof.
  unfold overlay. destruct (F !! k) as [v|] eqn:EF.
  - now apply lookup_union_Some_l.
  - rewrite lookup_union_r by exact EF.
    destruct (S !! k) as [v|] eqn:ES.
    + now apply lookup_union_Some_l.
    + now rewrite lookup_union_r.
Qed.

Lemma fetch_keys_silent (oid_map : oid_table) (keys : list string) (c : coordinator)
    (w w1 : W) (d : snapshot) (t : list event) (key : string) :
  exec env (_fetch_keys oid_map keys) c w = (Ok d, c, w1, t) ->
  (forall spec, table_get key oid_map = Some spec -> silent (oid spec) t) ->
  d !! key = None.
Proof.
  rewrite exec_fetch_keys. intros H Hs.
  destruct (fetch_loop oid_map _ keys ∅) as [d0|e] eqn:E; [|discriminate].
  inversion H; subst. clear H.
  apply (fetch_loop_absent _ _ _ _ _ key E); [apply lookup_empty|].
  intros spec Ht. unfold fetch_raw, fetch_requests.
  eapply raw_get_silent. apply (Hs spec Ht).
Qed.

Lemma conclude_frame (F S : snapshot) (c : coordinator) (d : snapshot) (c' : coordinator) :
  conclude F S c = (Ok d, c') ->
  exists derived,
    _derive_states (protocol c) (F ∪ (S ∪ data c)) = Ok derived
    /\ d = derived ∪ (F ∪ (S ∪ data c))
    /\ c' = _update_metadata d c.
Proof.
  unfold conclude.
  destruct (is_empty F && is_empty S && is_empty (data c)); [discriminate|].
  cbv zeta. destruct (_derive_states _ _) as [derived|e]; [|discriminate].
  intros H. inversion H; subst. eauto.
Qed.

(** C1.  The snapshot a refresh cycle produces is the derived states laid
    over the merge of the prior snapshot [data c], the slow fetch [S] and
    the fast fetch [F]; in the merge the fast value of a key wins over its
    slow value, which wins over its prior value; a key in neither fetch
    keeps its prior value; and a key whose OID got no value from the
    transport anywhere in the cycle, or that the dialect's table does not
    know, is in neither fetch, so it keeps its prior value or stays
    absent. *)
Theorem refresh_merges_last_write_wins (now : float) (c : coordinator) (w : W)
    (d : snapshot) (c' : coordinator) (w' : W) (tr : list event) :
  exec env (_async_update_data_locked now) c w = (Ok d, c', w', tr) ->
  exists (F S derived : snapshot) (c1 : coordinator),
    fetched now c w F S c1 w' tr
    /\ _derive_states (protocol c1) (F ∪ (S ∪ data c)) = Ok derived
    /\ d = derived ∪ (F ∪ (S ∪ data c))
    /\ (forall k, (F ∪ (S ∪ data c)) !! k = overlay (data c) S F k)
    /\ (forall k, F !! k = None -> S !! k = None ->
          (F ∪ (S ∪ data c)) !! k = data c !! k)
    /\ (forall key,
          (forall spec, table_get key (table_of (protocol c1)) = Some spec ->
             silent (oid spec) tr) ->
          F !! key = None /\ S !! key = None
          /\ (F ∪ (S ∪ data c)) !! key = data c !! key).
Proof.
  rewrite exec_locked.
  destruct (detect_if_unknown_frame env c w)
    as (c1 & w0 & t0 & Hdet & _ & _ & Hdata & _).
  rewrite Hdet, exec_update_after_detection. cbv zeta.
  pose proof (exec_fetch_keys env (table_of (protocol c1)) fast_keys c1 w0) as Hfast.
  destruct (exec env (_fetch_keys _ fast_keys) c1 w0) as [[[rf cf] w1] t1].
  destruct rf as [F|e]; [|discriminate].
  assert (cf = c1) by now inversion Hfast. subst cf.
  set (T := table_of (protocol c1)) in *.
  assert (Hkeep : forall (S : snapshot), forall k,
            F !! k = None -> S !! k = None ->
            (F ∪ (S ∪ data c)) !! k = data c !! k).
  { intros S k HF HS. rewrite merge_overlay. unfold overlay. now rewrite HF, HS. }
  destruct (slow_due now c1) eqn:Edue.
  - pose proof (exec_fetch_keys env T (slow_keys_of T) c1 w1) as Hslow.
    destruct (exec env (_fetch_keys T (slow_keys_of T)) c1 w1) as [[[rs cs] w2] t2].
    destruct rs as [S|e]; [|discriminate].
    assert (cs = c1) by now inversion Hslow. subst cs.
    destruct (conclude F S _) as [r c2] eqn:Ec.
    intros H. inversion H; subst. clear H.
    apply conclude_frame in Ec as (derived & Hder & -> & _).
    assert (Ep : protocol (if is_empty S then c1 else set_last_slow_poll now c1)
                 = protocol c1) by now destruct (is_empty S).
    assert (Ed : data (if is_empty S then c1 else set_last_slow_poll now c1)
                 = data c) by now destruct (is_empty S).
    rewrite Ep, Ed in Hder. rewrite Ed.
    exists F, S, derived, c1. split.
    { exists w0, t0, w1, t1, t2. rewrite Edue. repeat split; auto;
        first [ rewrite exec_fetch_keys; symmetry; assumption | trace_eq ]. }
    repeat split; auto using merge_overlay.
    + apply (fetch_keys_silent T fast_keys c1 w0 w1 F t1); [(rewrite exec_fetch_keys; symmetry; exact Hfast)|].
      intros spec Ht. specialize (H _ Ht).
      apply silent_app in H as [_ H]. now apply silent_app in H as [H _].
    + apply (fetch_keys_silent T (slow_keys_of T) c1 w1 w' S t2);
        [(rewrite exec_fetch_keys; symmetry; exact Hslow)|].
      intros spec Ht. specialize (H _ Ht).
      apply silent_app in H as [_ H]. now apply silent_app in H as [_ H].
    + apply Hkeep.
      * apply (fetch_keys_silent T fast_keys c1 w0 w1 F t1); [(rewrite exec_fetch_keys; symmetry; exact Hfast)|].
        intros spec Ht. specialize (H _ Ht).
        apply silent_app in H as [_ H]. now apply silent_app in H as [H _].
      * apply (fetch_keys_silent T (slow_keys_of T) c1 w1 w' S t2);
          [(rewrite exec_fetch_keys; symmetry; exact Hslow)|].
        intros spec Ht. specialize (H _ Ht).
        apply silent_app in H as [_ H]. now apply silent_app in H as [_ H].
  - destruct (conclude F ∅ c1) as [r c2] eqn:Ec.
    intros H. inversion H; subst. clear H.
    apply conclude_frame in Ec as (derived & Hder & -> & _).
    rewrite Hdata in *.
    exists F, ∅, derived, c1. split.
    { exists w0, t0, w', t1, []. rewrite Edue. repeat split; auto;
        first [ rewrite exec_fetch_keys; symmetry; assumption | trace_eq ]. }
    repeat split; auto using merge_overlay.
    + apply (fetch_keys_silent T fast_keys c1 w0 w' F t1); [(rewrite exec_fetch_keys; symmetry; exact Hfast)|].
      intros spec Ht. specialize (H _ Ht). now apply silent_app in H as [_ H].
    + apply Hkeep; [|apply lookup_empty].
      apply (fetch_keys_silent T fast_keys c1 w0 w' F t1); [(rewrite exec_fetch_keys; symmetry; exact Hfast)|].
      intros spec Ht. specialize (H _ Ht). now apply silent_app in H as [_ H].
Qed.

End Merge.

(** A device that answers every OID with "100". *)
Definition steady_world : world unit :=
  mk_world (fun rq w => (Reply false false [ObjValue "100"], w)) (fun w => (1%float, w)).

Definition steady_cycle : result exn snapshot * coordinator * unit * list event :=
  exec steady_world (_async_update_data_locked 1%float) fresh tt.

Definition steady_snapshot : snapshot :=
  match steady_cycle.1.1.1 with
  | Ok d => d
  | Err _ => ∅
  end.

Lemma refresh_merges_last_write_wins_witness :
  exists (F S derived : snapshot) (c1 : coordinator),
    fetched steady_world 1%float fresh tt F S c1 steady_cycle.1.2 steady_cycle.2
    /\ _derive_states (protocol c1) (F ∪ (S ∪ data fresh)) = Ok derived
    /\ steady_snapshot = derived ∪ (F ∪ (S ∪ data fresh))
    /\ (forall k, (F ∪ (S ∪ data fresh)) !! k = overlay (data fresh) S F k)
    /\ (forall k, F !! k = None -> S !! k = None ->
          (F ∪ (S ∪ data fresh)) !! k = data fresh !! k)
    /\ (forall key,
          (forall spec, table_get key (table_of (protocol c1)) = Some spec ->
             silent (oid spec) steady_cycle.2) ->
          F !! key = None /\ S !! key = None
          /\ (F ∪ (S ∪ data fresh)) !! key = data fresh !! key).
Proof.
  apply (refresh_merges_last_write_wins steady_world 1%float fresh tt steady_snapshot
           steady_cycle.1.1.2 steady_cycle.1.2 steady_cycle.2).
  reflexivity.
Defined.

(** ** The slow cadence *)

Lemma conclude_keeps (F S : snapshot) (c : coordinator) (r : result exn snapshot)
    (c' : coordinator) :
  conclude F S c = (r, c') ->
  _last_slow_poll c' = _last_slow_poll c
  /\ slow_poll_interval c' = slow_poll_interval c
  /\ protocol c' = protocol c /\ snmp_version c' = snmp_version c
  /\ data c' = data c /\ host c' = host c /\ community c' = community c
  /\ _failure_count c' = _failure_count c /\ _backoff_until c' = _backoff_until c
  /\ _backoff_base c' = _backoff_base c /\ _backoff_max c' = _backoff_max c.
Proof.
  unfold conclude.
  destruct (is_empty F && is_empty S && is_empty (data c)).
  { intros H; inversion H; subst. repeat split. }
  cbv zeta. destruct (_derive_states _ _) as [derived|e];
    intros H; inversion H; subst; repeat split.
Qed.

Lemma slow_due_later (now now' : float) (c c' : coordinator) :
  slow_due now c = true ->
  _last_slow_poll c' = _last_slow_poll c ->
  slow_poll_interval c' = slow_poll_interval c ->
  (now <=? now')%float = true ->
  slow_due now' c' = true.
Proof.
  unfold slow_due. intros H -> -> Hle.
  apply orb_true_iff in H as [H|H]; apply orb_true_iff; [left|now right].
  exact (F64.float_sub_ge_mono now now' _ _ Hle H).
Qed.

Section Slow.
Context {W : Type} (env : world W).

(** In the cycle started at [now] from [c] in [w] the slow fetch was due
    and returned [S]. *)
Definition slow_fetched (now : float) (c : coordinator) (w : W) (S : snapshot) : Prop :=
  exists c1 w0 t0 F w1 t1 w2 t2,
    exec env detect_if_unknown c w = (Ok tt, c1, w0, t0)
    /\ exec env (_fetch_keys (table_of (protocol c1)) fast_keys) c1 w0
       = (Ok F, c1, w1, t1)
    /\ slow_due now c1 = true
    /\ exec env (_fetch_keys (table_of (protocol c1))
                   (slow_keys_of (table_of (protocol c1)))) c1 w1
       = (Ok S, c1, w2, t2).

Lemma slow_fetched_unique (now : float) (c : coordinator) (w : W) (S1 S2 : snapshot) :
  slow_fetched now c w S1 -> slow_fetched now c w S2 -> S1 = S2.
Proof.
  intros (c1 & w0 & t0 & F & w1 & t1 & w2 & t2 & Hd & Hf & _ & Hs)
         (c1' & w0' & t0' & F' & w1' & t1' & w2' & t2' & Hd' & Hf' & _ & Hs').
  rewrite Hd in Hd'. inversion Hd'; subst.
  rewrite Hf in Hf'. inversion Hf'; subst.
  rewrite Hs in Hs'. now inversion Hs'.
Qed.

(** C10.  A cycle moves the last-slow-poll timestamp only to [now], and
    only when the slow fetch was due and returned at least one value.  When
    the slow fetch was due and returned nothing the timestamp stays, so the
    slow fetch is due again at every later clock reading, in whatever state
    carries the same timestamp and interval; and whenever it is due and the
    fast fetch returns, the slow OIDs are requested. *)
Theorem slow_poll_timestamp (now : float) (c : coordinator) (w : W)
    (r : result exn snapshot) (c' : coordinator) (w' : W) (tr : list event) :
  exec env (_async_update_data_locked now) c w = (r, c', w', tr) ->
  slow_poll_interval c' = slow_poll_interval c
  /\ (_last_slow_poll c' = _last_slow_poll c
      \/ (_last_slow_poll c' = now
          /\ exists S, slow_fetched now c w S /\ S <> ∅))
  /\ (slow_fetched now c w ∅ ->
      _last_slow_poll c' = _last_slow_poll c
      /\ forall (now' : float) (c'' : coordinator),
           _last_slow_poll c'' = _last_slow_poll c' ->
           slow_poll_interval c'' = slow_poll_interval c' ->
           (now <=? now')%float = true ->
           slow_due now' c'' = true)
  /\ (forall c1 w0 t0 F w1 t1,
        exec env detect_if_unknown c w = (Ok tt, c1, w0, t0) ->
        exec env (_fetch_keys (table_of (protocol c1)) fast_keys) c1 w0
        = (Ok F, c1, w1, t1) ->
        slow_due now c1 = true ->
        exists t2,
          tr = t0 ++ t1 ++ t2
          /\ requests t2
             = fetch_requests c1 (table_of (protocol c1))
                 (slow_keys_of (table_of (protocol c1)))).
Proof.
  intros Hexec. rewrite exec_locked in Hexec.
  destruct (detect_if_unknown_frame env c w)
    as (c1 & w0 & t0 & Hdet & _ & _ & _ & Hlast & Hint & _).
  rewrite Hdet, exec_update_after_detection in Hexec. cbv zeta in Hexec.
  revert Hexec.
  set (T := table_of (protocol c1)) in *.
  pose proof (exec_fetch_keys env T fast_keys c1 w0) as Hfast.
  destruct (exec env (_fetch_keys T fast_keys) c1 w0) as [[[rf cf] w1] t1] eqn:Ef.
  assert (cf = c1) by now inversion Hfast. subst cf. clear Hfast.
  assert (Hno : forall S, slow_fetched now c w S ->
            exists F w2 t2, rf = Ok F /\ slow_due now c1 = true
              /\ exec env (_fetch_keys T (slow_keys_of T)) c1 w1 = (Ok S, c1, w2, t2)).
  { intros S (c1' & w0' & t0' & F & w1' & t1' & w2 & t2 & Hd & Hf & Hdue & Hs).
    rewrite Hdet in Hd. inversion Hd; subst c1' w0' t0'.
    fold T in Hf, Hs. rewrite Ef in Hf. inversion Hf; subst.
    exists F, w2, t2. auto. }
  destruct rf as [F|e].
  2:{ intros H; inversion H; subst. split; [exact Hint|]. split; [now left|].
      split.
      - intros Hs. apply Hno in Hs as (F & w2 & t2 & Hf & _). discriminate.
      - intros c1' w0' t0' F w1' t1' Hd Hf. rewrite Hdet in Hd.
        inversion Hd; subst. fold T in Hf. rewrite Ef in Hf. discriminate. }
  destruct (slow_due now c1) eqn:Edue.
  2:{ destruct (conclude F ∅ c1) as [r2 c2] eqn:Ec.
      intros H; inversion H; subst.
      apply conclude_keeps in Ec as (Hl & Hi & _).
      split; [congruence|]. split; [left; congruence|]. split.
      - intros Hs. apply Hno in Hs as (F' & w2 & t2 & _ & Hdue & _). discriminate.
      - intros c1' w0' t0' F' w1' t1' Hd Hf Hdue. rewrite Hdet in Hd.
        inversion Hd; subst. congruence. }
  pose proof (exec_fetch_keys env T (slow_keys_of T) c1 w1) as Hslow.
  destruct (exec env (_fetch_keys T (slow_keys_of T)) c1 w1) as [[[rs cs] w2] t2] eqn:Es.
  assert (cs = c1) by now inversion Hslow. subst cs.
  assert (Hreq : requests t2 = fetch_requests c1 T (slow_keys_of T)).
  { inversion Hslow; subst. apply requests_exchanges, ask_all_length. }
  clear Hslow.
  assert (Htrace : forall tr0, tr0 = t0 ++ t1 ++ t2 ->
            forall c1' w0' t0' F' w1' t1',
              exec env detect_if_unknown c w = (Ok tt, c1', w0', t0') ->
              exec env (_fetch_keys (table_of (protocol c1')) fast_keys) c1' w0'
              = (Ok F', c1', w1', t1') ->
              slow_due now c1' = true ->
              exists t2', tr0 = t0' ++ t1' ++ t2'
                /\ requests t2'
                   = fetch_requests c1' (table_of (protocol c1'))
                       (slow_keys_of (table_of (protocol c1')))).
  { intros tr0 -> c1' w0' t0' F' w1' t1' Hd Hf _. rewrite Hdet in Hd.
    inversion Hd; subst c1' w0' t0'. fold T in Hf. rewrite Ef in Hf.
    inversion Hf; subst. exists t2. split; [reflexivity|exact Hreq]. }
  destruct rs as [S|e].
  2:{ intros H; inversion H; subst. split; [exact Hint|]. split; [now left|].
      split.
      - intros Hs. apply Hno in Hs as (F' & w2' & t2' & _ & _ & Hs). discriminate.
      - apply Htrace. trace_eq. }
  destruct (conclude F S _) as [r2 c2] eqn:Ec.
  intros H; inversion H; subst.
  apply conclude_keeps in Ec as (Hl & Hi & _).
  split; [now destruct (is_empty S); rewrite Hi|].
  destruct (is_empty S) eqn:Eempty.
  - split; [left; congruence|]. split; [|apply Htrace; trace_eq].
    intros _. split; [congruence|].
    intros now' c'' Hl'' Hi'' Hle.
    apply (slow_due_later now now' c1 c'' Edue); congruence.
  - split.
    + right. split; [now rewrite Hl|].
      exists S. split.
      * exists c1, w0, t0, F, w1, t1, w', t2. auto.
      * intros ->. unfold is_empty in Eempty.
        now rewrite bool_decide_eq_false in Eempty.
    + split; [|apply Htrace; trace_eq].
      intros Hs. apply Hno in Hs as (F' & w2' & t2' & _ & _ & Hs).
      inversion Hs; subst. unfold is_empty in Eempty.
      now rewrite bool_decide_eq_false in Eempty.
Qed.

End Slow.

Lemma slow_poll_timestamp_witness :
  slow_poll_interval steady_cycle.1.1.2 = slow_poll_interval fresh
  /\ (_last_slow_poll steady_cycle.1.1.2 = _last_slow_poll fresh
      \/ (_last_slow_poll steady_cycle.1.1.2 = 1%float
          /\ exists S, slow_fetched steady_world 1%float fresh tt S /\ S <> ∅))
  /\ (slow_fetched steady_world 1%float fresh tt ∅ ->
      _last_slow_poll steady_cycle.1.1.2 = _last_slow_poll fresh
      /\ forall (now' : float) (c'' : coordinator),
           _last_slow_poll c'' = _last_slow_poll steady_cycle.1.1.2 ->
           slow_poll_interval c'' = slow_poll_interval steady_cycle.1.1.2 ->
           (1 <=? now')%float = true ->
           slow_due now' c'' = true)
  /\ (forall c1 w0 t0 F w1 t1,
        exec steady_world detect_if_unknown fresh tt = (Ok tt, c1, w0, t0) ->
        exec steady_world (_fetch_keys (table_of (protocol c1)) fast_keys) c1 w0
        = (Ok F, c1, w1, t1) ->
        slow_due 1%float c1 = true ->
        exists t2,
          steady_cycle.2 = t0 ++ t1 ++ t2
          /\ requests t2
             = fetch_requests c1 (table_of (protocol c1))
                 (slow_keys_of (table_of (protocol c1)))).
Proof.
  apply (slow_poll_timestamp steady_world 1%float fresh tt steady_cycle.1.1.1
           steady_cycle.1.1.2 steady_cycle.1.2 steady_cycle.2).
  reflexivity.
Defined.

(** ** What a cycle leaves alone *)

Section Frame.
Context {W : Type} (env : world W).

(** The requests of the part of a cycle below the detection: the fast
    keys, then possibly the slow keys, of the current dialect at the
    current version. *)
Definition cycle_requests (c : coordinator) (rqs : list snmp_request) : Prop :=
  let T := table_of (protocol c) in
  rqs = fetch_requests c T fast_keys
  \/ rqs = fetch_requests c T fast_keys ++ fetch_requests c T (slow_keys_of T).

Lemma update_after_detection_keeps (now : float) (c : coordinator) (w : W)
    (r : result exn snapshot) (c' : coordinator) (w' : W) (tr : list event) :
  exec env (update_after_detection now) c w = (r, c', w', tr) ->
  protocol c' = protocol c /\ snmp_version c' = snmp_version c
  /\ host c' = host c /\ community c' = community c
  /\ _failure_count c' = _failure_count c /\ _backoff_until c' = _backoff_until c
  /\ _backoff_base c' = _backoff_base c /\ _backoff_max c' = _backoff_max c
  /\ slow_poll_interval c' = slow_poll_interval c
  /\ cycle_requests c (requests tr).
Proof.
  rewrite exec_update_after_detection. cbv zeta.
  set (T := table_of (protocol c)).
  rewrite exec_fetch_keys.
  assert (Hf : requests (exchanges (fetch_requests c T fast_keys)
                 (ask_all env (fetch_requests c T fast_keys) w).1)
               = fetch_requests c T fast_keys).
  { apply requests_exchanges, ask_all_length. }
  destruct (lift_error _) as [F|e].
  2:{ intros H; inversion H; subst. repeat split. left. exact Hf. }
  destruct (slow_due now c).
  - rewrite exec_fetch_keys.
    match goal with |- context [ask_all env (fetch_requests c T (slow_keys_of T)) ?w1] =>
      assert (Hs : requests (exchanges (fetch_requests c T (slow_keys_of T))
                     (ask_all env (fetch_requests c T (slow_keys_of T)) w1).1)
                   = fetch_requests c T (slow_keys_of T))
        by apply requests_exchanges, ask_all_length
    end.
    assert (Hreq : forall t1 t2,
              requests t1 = fetch_requests c T fast_keys ->
              requests t2 = fetch_requests c T (slow_keys_of T) ->
              cycle_requests c (requests (t1 ++ t2))).
    { intros t1 t2 H1 H2. right. now rewrite requests_app, H1, H2. }
    destruct (lift_error _) as [slow|e].
    2:{ intros H; inversion H; subst. repeat split. now apply Hreq. }
    destruct (conclude F slow _) as [r2 c2] eqn:Ec.
    intros H; inversion H; subst.
    apply conclude_keeps in Ec as (_ & Hi & Hp & Hv & _ & Hh & Hc & Hfc & Hbu & Hbb & Hbm).
    destruct (is_empty slow); simpl in *; repeat split; auto; now apply Hreq.
  - destruct (conclude F ∅ c) as [r2 c2] eqn:Ec.
    intros H; inversion H; subst.
    apply conclude_keeps in Ec as (_ & Hi & Hp & Hv & _ & Hh & Hc & Hfc & Hbu & Hbb & Hbm).
    repeat split; auto. left. exact Hf.
Qed.

(** The backoff test at the head of [_async_update_data]. *)
Definition backoff_active (c : coordinator) (now : float) : bool :=
  negb (_backoff_until c =? 0)%float && (now <? _backoff_until c)%float.

Definition failure_of (e : exn) : update_failure :=
  match e with
  | UpdateFailed why => why
  | Builtin b => Rewrapped b
  end.

(** The backoff a failure sets, in seconds. *)
Definition backoff_seconds (c : coordinator) : Z :=
  Z.min (_backoff_max c) (_backoff_base c ^ (_failure_count c + 1)).

Lemma exec_update_data (c : coordinator) (w : W) :
  exec env _async_update_data c w =
    let '(now, w1) := clock env w in
    if backoff_active c now
    then (Err (UpdateFailed (BackoffActive (_backoff_until c - now)%float)), c, w1,
          [EvClock now])
    else
      let '(t2, w2) := clock env w1 in
      let '(t3, w3) := clock env w2 in
      let '(r, c1, w4, tr) := exec env (_async_update_data_locked now) c w3 in
      match r with
      | Ok d =>
          (Ok d, set_backoff 0 0%float c1, w4,
           [EvClock now; EvClock t2; EvClock t3] ++ tr)
      | Err e =>
          let '(t4, w5) := clock env w4 in
          match Py.float_of_int (backoff_seconds c1) with
          | Ok seconds =>
              (Err (UpdateFailed (failure_of e)),
               set_backoff (_failure_count c1 + 1) (t4 + seconds)%float c1,
               w5,
               [EvClock now; EvClock t2; EvClock t3] ++ tr
               ++ [EvClock t4;
                   EvWarning (WarnUpdateFailed (host c1) (backoff_seconds c1))])
          | Err o =>
              (Err (Builtin o),
               set_backoff (_failure_count c1 + 1) (_backoff_until c1) c1,
               w5,
               [EvClock now; EvClock t2; EvClock t3] ++ tr ++ [EvClock t4])
          end
      end.
Proof.
  unfold _async_update_data, backoff_active.
  rewrite exec_bind, exec_lift_io. cbn [time_monotonic run].
  destruct (clock env w) as [now w1]. rewrite exec_bind, exec_self.
  destruct (negb (_backoff_until c =? 0)%float && (now <? _backoff_until c)%float).
  { now rewrite exec_raise. }
  rewrite exec_bind, exec_lift_io. cbn [time_monotonic run].
  destruct (clock env w1) as [t2 w2].
  rewrite exec_bind, exec_try_except, exec_bind, exec_lift_io.
  cbn [time_monotonic run]. destruct (clock env w2) as [t3 w3].
  destruct (exec env (_async_update_data_locked now) c w3) as [[[r c1] w4] tr].
  destruct r as [d|e].
  - rewrite exec_bind, exec_self, exec_bind, exec_assign, exec_ret. trace_eq.
  - rewrite exec_bind. unfold _handle_update_failure.
    rewrite exec_bind, exec_self, exec_bind, exec_assign, exec_bind, exec_lift_io.
    cbn [time_monotonic run]. destruct (clock env w4) as [t4 w5].
    unfold backoff_seconds.
    destruct (Py.float_of_int _) as [seconds|o].
    + rewrite exec_bind, exec_assign, exec_lift_io. cbn [log_warning_ run].
      destruct e as [b|why]; rewrite exec_raise; trace_eq.
    + rewrite exec_raise. trace_eq.
Qed.

Lemma exec_refresh (c : coordinator) (w : W) :
  exec env refresh c w =
    let '(r, c1, w1, tr) := exec env _async_update_data c w in
    match r with
    | Ok d => (Ok d, set_data d c1, w1, tr)
    | Err e => (Err e, c1, w1, tr)
    end.
Proof.
  unfold refresh. rewrite exec_bind.
  destruct (exec env _async_update_data c w) as [[[r c1] w1] tr].
  destruct r as [d|e]; [|reflexivity].
  rewrite exec_bind, exec_assign, exec_ret. trace_eq.
Qed.

End Frame.

(** ** Backoff *)

(** The last clock reading of a trace. *)
Fixpoint last_clock (tr : list event) : option float :=
  match tr with
  | [] => None
  | e :: rest =>
      match last_clock rest with
      | Some t => Some t
      | None => match e with EvClock t => Some t | _ => None end
      end
  end.

Lemma last_clock_app (t1 t2 : list event) :
  last_clock (t1 ++ t2) =
    match last_clock t2 with
    | Some t => Some t
    | None => last_clock t1
    end.
Proof.
  induction t1 as [|e t1 IH]; simpl.
  - now destruct (last_clock t2).
  - rewrite IH. now destruct (last_clock t2).
Qed.

Section Backoff.
Context {W : Type} (env : world W).

Lemma locked_keeps (now : float) (c : coordinator) (w : W)
    (r : result exn snapshot) (c' : coordinator) (w' : W) (tr : list event) :
  exec env (_async_update_data_locked now) c w = (r, c', w', tr) ->
  _failure_count c' = _failure_count c
  /\ _backoff_base c' = _backoff_base c /\ _backoff_max c' = _backoff_max c
  /\ _backoff_until c' = _backoff_until c
  /\ host c' = host c /\ community c' = community c
  /\ (is_Some (protocol c) ->
      protocol c' = protocol c /\ snmp_version c' = snmp_version c
      /\ cycle_requests c (requests tr))
  /\ match r with
     | Err e => e = UpdateFailed NoSnmpData \/ exists b, e = Builtin b
     | Ok _ => True
     end.
Proof.
  rewrite exec_locked.
  destruct (detect_if_unknown_frame env c w)
    as (c1 & w0 & t0 & -> & _ & Hsame & _ & _ & _ & Hh & Hc & Hfc & Hbu & Hbb & Hbm).
  destruct (exec env (update_after_detection now) c1 w0) as [[[r2 c2] w2] t2] eqn:E.
  intros H; inversion H; subst.
  pose proof (update_after_detection_keeps env _ _ _ _ _ _ _ E)
    as (Hp & Hv & Hh' & Hc' & Hfc' & Hbu' & Hbb' & Hbm' & _ & Hreq).
  do 6 (split; [congruence|]). split.
  - intros Hs. destruct (Hsame Hs) as (-> & _ & ->). repeat split; auto.
  - revert E. rewrite exec_update_after_detection. cbv zeta.
    rewrite exec_fetch_keys.
    destruct (fetch_loop _ _ fast_keys ∅) as [F|e]; cbn [lift_error].
    2:{ intros E; inversion E; subst. right. eauto. }
    assert (Hcon : forall F S c0 r0 c3,
              conclude F S c0 = (r0, c3) ->
              match r0 with
              | Err e => e = UpdateFailed NoSnmpData \/ exists b, e = Builtin b
              | Ok _ => True
              end).
    { intros F0 S0 c0 r0 c3. unfold conclude.
      destruct (is_empty F0 && is_empty S0 && is_empty (data c0)).
      { intros H0; inversion H0; subst. now left. }
      cbv zeta. destruct (_derive_states _ _);
        intros H0; inversion H0; subst; [exact I|right; eauto]. }
    destruct (slow_due now c1).
    + rewrite exec_fetch_keys.
      destruct (fetch_loop _ _ (slow_keys_of _) ∅) as [slow|e]; cbn [lift_error].
      2:{ intros E; inversion E; subst. right. eauto. }
      destruct (conclude F slow _) as [r3 c3] eqn:Ec.
      intros E; inversion E; subst. eapply Hcon, Ec.
    + destruct (conclude F ∅ c1) as [r3 c3] eqn:Ec.
      intros E; inversion E; subst. eapply Hcon, Ec.
Qed.

(** How a call of [refresh] can fail with [UpdateFailed]: turned away
    while the backoff lasts, or after a cycle that ran and failed. *)
Lemma refresh_failure (c : coordinator) (w : W) (why : update_failure)
    (c' : coordinator) (w' : W) (tr : list event) :
  exec env refresh c w = (Err (UpdateFailed why), c', w', tr) ->
  (backoff_active c (clock env w).1 = true
   /\ why = BackoffActive (_backoff_until c - (clock env w).1)%float
   /\ c' = c /\ w' = (clock env w).2 /\ tr = [EvClock (clock env w).1])
  \/ (backoff_active c (clock env w).1 = false
      /\ (forall rem, why <> BackoffActive rem)
      /\ exists t seconds,
           last_clock tr = Some t
           /\ Py.float_of_int (backoff_seconds c) = Ok seconds
           /\ _failure_count c' = _failure_count c + 1
           /\ _backoff_until c' = (t + seconds)%float
           /\ _backoff_base c' = _backoff_base c
           /\ _backoff_max c' = _backoff_max c).
Proof.
  rewrite exec_refresh, exec_update_data.
  destruct (clock env w) as [now w1]. cbn [fst snd].
  destruct (backoff_active c now) eqn:Eg.
  { intros H; inversion H; subst. left. repeat split. }
  destruct (clock env w1) as [t2 w2]. destruct (clock env w2) as [t3 w3].
  destruct (exec env (_async_update_data_locked now) c w3) as [[[r c1] w4] tr0] eqn:E.
  apply locked_keeps in E as (Hfc & Hbb & Hbm & _ & _ & _ & _ & Herr).
  destruct r as [d|e]; [discriminate|].
  destruct (clock env w4) as [t4 w5].
  assert (Hbs : backoff_seconds c1 = backoff_seconds c).
  { unfold backoff_seconds. now rewrite Hfc, Hbb, Hbm. }
  rewrite Hbs.
  destruct (Py.float_of_int (backoff_seconds c)) as [seconds|o]; [|discriminate].
  intros H; inversion H; subst. right. split; [reflexivity|]. split.
  { intros rem. destruct Herr as [->|[b ->]]; discriminate. }
  exists t4, seconds. split.
  { match goal with |- context [tr0 ++ ?l] =>
      assert (Hl : last_clock (tr0 ++ l) = Some t4)
        by (rewrite last_clock_app; reflexivity)
    end.
    cbn [app last_clock]. now rewrite Hl. }
  simpl. rewrite Hfc, Hbb, Hbm. repeat split.
Qed.

(** [failure_run n c c' t]: starting from state [c], [n] cycles ran and
    failed, with no success in between; calls turned away while the backoff
    lasts may lie in between and do not count.  [c'] is the state
    afterwards, [t] the clock reading taken when the last failure was
    handled. *)
Inductive failure_run : nat -> coordinator -> coordinator -> float -> Prop :=
| run_first (c : coordinator) (w : W) why c' w' tr t :
    exec env refresh c w = (Err (UpdateFailed why), c', w', tr) ->
    (forall rem, why <> BackoffActive rem) ->
    last_clock tr = Some t ->
    failure_run 1 c c' t
| run_next (n : nat) (c c1 : coordinator) (t1 : float) (w : W) why c' w' tr t :
    failure_run n c c1 t1 ->
    exec env refresh c1 w = (Err (UpdateFailed why), c', w', tr) ->
    (forall rem, why <> BackoffActive rem) ->
    last_clock tr = Some t ->
    failure_run (S n) c c' t
| run_rejected (n : nat) (c c1 : coordinator) (t1 : float) (w : W) rem c' w' tr :
    failure_run n c c1 t1 ->
    exec env refresh c1 w = (Err (UpdateFailed (BackoffActive rem)), c', w', tr) ->
    failure_run n c c' t1.

Lemma failure_run_state (n : nat) (c c' : coordinator) (t : float) :
  failure_run n c c' t ->
  (1 <= n)%nat
  /\ _failure_count c' = _failure_count c + Z.of_nat n
  /\ _backoff_base c' = _backoff_base c /\ _backoff_max c' = _backoff_max c
  /\ exists seconds,
       Py.float_of_int (Z.min (_backoff_max c)
                          (_backoff_base c ^ (_failure_count c + Z.of_nat n)))
       = Ok seconds
       /\ _backoff_until c' = (t + seconds)%float.
Proof.
  induction 1 as [c w why c' w' tr t Hex Hwhy Hclk
                 |n c c1 t1 w why c' w' tr t Hrun IH Hex Hwhy Hclk
                 |n c c1 t1 w rem c' w' tr Hrun IH Hex].
  - apply refresh_failure in Hex
      as [(_ & -> & _)|(_ & _ & t' & seconds & Ht & Hs & Hfc & Hbu & Hbb & Hbm)].
    { exfalso. eapply Hwhy. reflexivity. }
    rewrite Hclk in Ht. inversion Ht; subst t'.
    split; [lia|]. do 3 (split; [assumption|]). exists seconds. split; assumption.
  - destruct IH as (Hn & Hfc1 & Hbb1 & Hbm1 & _).
    apply refresh_failure in Hex
      as [(_ & -> & _)|(_ & _ & t' & seconds & Ht & Hs & Hfc & Hbu & Hbb & Hbm)].
    { exfalso. eapply Hwhy. reflexivity. }
    rewrite Hclk in Ht. inversion Ht; subst t'.
    split; [lia|]. split; [lia|]. split; [congruence|]. split; [congruence|].
    exists seconds. split; [|exact Hbu].
    unfold backoff_seconds in Hs. rewrite Hfc1, Hbb1, Hbm1 in Hs.
    replace (_failure_count c + Z.of_nat (S n))
      with (_failure_count c + Z.of_nat n + 1) by lia.
    exact Hs.
  - apply refresh_failure in Hex as [(_ & _ & -> & _)|(_ & Hwhy & _)].
    + exact IH.
    + now destruct (Hwhy rem).
Qed.

End Backoff.

(** The backoffs the code can set with its constants: 2, 4, 8, 16, 32
    seconds, then 60. *)
Definition backoff_steps : list Z := [2; 4; 8; 16; 32; 60].

Lemma backoff_step (k : Z) : 1 <= k -> In (Z.min 60 (2 ^ k)) backoff_steps.
Proof.
  intros Hk. unfold backoff_steps.
  destruct (Z_le_gt_dec 6 k) as [Hbig|Hsmall].
  - assert (2 ^ 6 <= 2 ^ k) by (apply Z.pow_le_mono_r; lia).
    change (2 ^ 6) with 64 in *. replace (Z.min 60 (2 ^ k)) with 60 by lia.
    simpl. auto 10.
  - assert (Hc : k = 1 \/ k = 2 \/ k = 3 \/ k = 4 \/ k = 5) by lia.
    destruct Hc as [->|[->|[->|[->| ->]]]]; simpl; auto 10.
Qed.

(** Each of them converts to a float exactly, and added to the float zero
    it stays what it is. *)
Lemma backoff_step_float (b : Z) :
  In b backoff_steps ->
  0 < b
  /\ exists seconds,
       Py.float_of_int b = Ok seconds
       /\ Py.float_ge_int (0 + seconds)%float b = true.
Proof.
  unfold backoff_steps. simpl.
  intros [<-|[<-|[<-|[<-|[<-|[<-|[]]]]]]]; (split; [lia|]);
    eexists; split; reflexivity.
Qed.

Section BackoffRuns.
Context {W : Type} (env : world W).

(** C2, as the code has it.  After a run of [n >= 1] failed cycles that
    began with the failure count at zero, the backoff deadline is the
    binary64 sum of the clock reading taken at the last failure and
    [min(60, 2^n)] seconds; when that reading is not negative the deadline
    is at least [min(60, 2^n)], so it is not zero.  A call of [refresh]
    whose clock reading is before a deadline that is not zero fails at
    once with the remaining backoff in its error, leaves the state as it
    is, and puts nothing on the wire: its whole trace is the one clock
    reading. *)
Theorem backoff_after_failures (n : nat) (c c' : coordinator) (t : float) :
  _failure_count c = 0 -> _backoff_base c = 2 -> _backoff_max c = 60 ->
  failure_run env n c c' t ->
  (exists seconds,
     Py.float_of_int (Z.min 60 (2 ^ Z.of_nat n)) = Ok seconds
     /\ _backoff_until c' = (t + seconds)%float)
  /\ ((0 <=? t)%float = true ->
      Py.float_ge_int (_backoff_until c') (Z.min 60 (2 ^ Z.of_nat n)) = true
      /\ (_backoff_until c' =? 0)%float = false)
  /\ forall w : W,
       ((clock env w).1 <? _backoff_until c')%float = true ->
       (_backoff_until c' =? 0)%float = false ->
       exec env refresh c' w
       = (Err (UpdateFailed
                 (BackoffActive (_backoff_until c' - (clock env w).1)%float)),
          c', (clock env w).2, [EvClock (clock env w).1])
       /\ requests (exec env refresh c' w).2 = [].
Proof.
  intros Hfc Hbb Hbm Hrun.
  apply failure_run_state in Hrun as (Hn & _ & _ & _ & seconds & Hs & Hbu).
  rewrite Hfc, Hbb, Hbm in Hs. rewrite Z.add_0_l in Hs.
  destruct (backoff_step_float _ (backoff_step (Z.of_nat n) ltac:(lia)))
    as (Hpos & seconds' & Hs' & Hge).
  rewrite Hs in Hs'. injection Hs' as <-.
  split; [eauto|]. split.
  { intros Ht.
    assert (Hd : Py.float_ge_int (_backoff_until c') (Z.min 60 (2 ^ Z.of_nat n)) = true).
    { rewrite Hbu. exact (F64.float_add_ge_mono 0 t seconds _ Ht Hge). }
    split; [exact Hd|]. exact (F64.float_ge_int_nonzero _ _ Hpos Hd). }
  intros w Hlt Hnz.
  assert (E : exec env refresh c' w
              = (Err (UpdateFailed
                        (BackoffActive (_backoff_until c' - (clock env w).1)%float)),
                 c', (clock env w).2, [EvClock (clock env w).1])).
  { rewrite exec_refresh, exec_update_data.
    destruct (clock env w) as [now w1]. cbn [fst snd] in *.
    unfold backoff_active. now rewrite Hnz, Hlt. }
  split; [exact E|]. now rewrite E.
Qed.

End BackoffRuns.

(** A device that never answers; the clock stands at 1023.1 seconds. *)
Definition uptime : float := 0x1.ff8cccccccccdp+9%float.

Definition dead_world : world unit :=
  mk_world (fun _ w => (RaisesTimeout, w)) (fun w => (uptime, w)).

Definition dead_state : coordinator := (exec dead_world refresh fresh tt).1.1.2.

(** Two failures in that world: the second refresh is tried at the same
    clock reading, so the deadline of the first must not hold it back; the
    world's state lets the clock jump past it. *)
Definition aging_world : world nat :=
  mk_world (fun _ w => (RaisesTimeout, w))
    (fun w => (match w with
               | O => uptime
               | S _ => 0x1.0p+11%float
               end, w)).

Definition aged_once : coordinator := (exec aging_world refresh fresh 0%nat).1.1.2.
Definition aged_twice : coordinator := (exec aging_world refresh aged_once 1%nat).1.1.2.

Lemma aged_twice_run : failure_run aging_world 2 fresh aged_twice 0x1.0p+11%float.
Proof.
  apply (run_next aging_world 1 fresh aged_once uptime 1%nat NoSnmpData aged_twice
           1%nat (exec aging_world refresh aged_once 1%nat).2).
  - apply (run_first aging_world fresh 0%nat NoSnmpData aged_once 0%nat
             (exec aging_world refresh fresh 0%nat).2).
    + reflexivity.
    + discriminate.
    + reflexivity.
  - reflexivity.
  - discriminate.
  - reflexivity.
Defined.

Lemma backoff_after_failures_witness :
  (exists seconds,
     Py.float_of_int (Z.min 60 (2 ^ Z.of_nat 2)) = Ok seconds
     /\ _backoff_until aged_twice = (0x1.0p+11 + seconds)%float)
  /\ ((0 <=? 0x1.0p+11)%float = true ->
      Py.float_ge_int (_backoff_until aged_twice) (Z.min 60 (2 ^ Z.of_nat 2)) = true
      /\ (_backoff_until aged_twice =? 0)%float = false)
  /\ forall w : nat,
       ((clock aging_world w).1 <? _backoff_until aged_twice)%float = true ->
       (_backoff_until aged_twice =? 0)%float = false ->
       exec aging_world refresh aged_twice w
       = (Err (UpdateFailed
                 (BackoffActive
                    (_backoff_until aged_twice - (clock aging_world w).1)%float)),
          aged_twice, (clock aging_world w).2, [EvClock (clock aging_world w).1])
       /\ requests (exec aging_world refresh aged_twice w).2 = [].
Proof.
  apply (backoff_after_failures aging_world 2 fresh aged_twice 0x1.0p+11%float);
    try reflexivity.
  exact aged_twice_run.
Defined.

(** C2, as stated, fails: the deadline is a rounded sum.  In a world whose
    clock stands at 1023.1 seconds, so that every reading of the cycle is
    that one, the first failure sets the deadline to the float next to
    1025.1; the deadline less the clock reading is not [min(60, 2^1) = 2]
    seconds, neither as the difference of the two numbers nor as the
    binary64 subtraction, which gives 1.9999999999998863. *)
Lemma backoff_difference_inexact :
  failure_run dead_world 1 fresh dead_state uptime
  /\ _backoff_until dead_state = 0x1.0046666666666p+10%float
  /\ Py.float_of_int (Z.min 60 (2 ^ Z.of_nat 1)) = Ok 2%float
  /\ (_backoff_until dead_state - uptime =? 2)%float = false
  /\ (_backoff_until dead_state - uptime)%float = 0x1.ffffffffffe00p+0%float
  /\ Py.units (Prim2SF (_backoff_until dead_state)) - Py.units (Prim2SF uptime)
     <> Z.min 60 (2 ^ Z.of_nat 1) * 2 ^ 1074.
Proof.
  split.
  { apply (run_first dead_world fresh tt NoSnmpData dead_state tt
             (exec dead_world refresh fresh tt).2).
    - reflexivity.
    - discriminate.
    - reflexivity. }
  split; [reflexivity|]. split; [reflexivity|]. split; [reflexivity|].
  split; [reflexivity|].
  vm_compute. discriminate.
Qed.

(** ** Detection, caching and the default *)

Lemma requests_exchange (rq : snmp_request) (reply : snmp_reply) :
  requests (exchange rq reply) = [rq].
Proof. now destruct reply. Qed.

Lemma exchange_replies (rq rq' : snmp_request) (reply reply' : snmp_reply) :
  EvGet rq' reply' ∈ exchange rq reply -> rq' = rq /\ reply' = reply.
Proof.
  unfold exchange. intros H. apply elem_of_cons in H as [H|H].
  - now inversion H.
  - destruct reply; try (now apply elem_of_nil in H).
    apply elem_of_cons in H as [H|H]; [discriminate|now apply elem_of_nil in H].
Qed.

Section Caching.
Context {W : Type} (env : world W).

(** What the ordered search leaves on the wire: a prefix of the probes in
    order; every reply before the winning one brought no value. *)
Lemma first_answer_trace (probes : list (protocol_id * string)) (c : coordinator) (w : W) :
  let '(found, _, tr) := first_answer env probes c w in
  requests tr `prefix_of` map (probe_request c) probes
  /\ match found with
     | Some pv =>
         pv ∈ probes
         /\ exists before reply text,
              tr = before ++ exchange (probe_request c pv) reply
              /\ delivers reply text
              /\ forall rq' reply', EvGet rq' reply' ∈ before -> no_value reply'
     | None =>
         requests tr = map (probe_request c) probes
         /\ forall rq reply, EvGet rq reply ∈ tr -> no_value reply
     end.
Proof.
  revert w. induction probes as [|pv probes IH]; intros w; cbn [first_answer map].
  - split; [apply prefix_nil|]. split; [reflexivity|].
    intros rq reply H. now apply elem_of_nil in H.
  - destruct (answer env (probe_request c pv) w) as [reply w1].
    pose proof (reply_text_cases reply) as Hcase.
    destruct (reply_text reply) as [text|].
    + split.
      { rewrite requests_exchange. now apply prefix_cons, prefix_nil. }
      split; [apply elem_of_cons; now left|].
      exists [], reply, text. split; [reflexivity|]. split; [exact Hcase|].
      intros rq' reply' H. now apply elem_of_nil in H.
    + specialize (IH w1).
      destruct (first_answer env probes c w1) as [[found w2] tr].
      destruct IH as [Hpre Hfound].
      split.
      { rewrite requests_app, requests_exchange. now apply prefix_cons. }
      destruct found as [pv'|].
      * destruct Hfound as (Hin & before & reply' & text & -> & Hd & Hb).
        split; [apply elem_of_cons; now right|].
        exists (exchange (probe_request c pv) reply ++ before), reply', text.
        split; [now rewrite app_assoc|]. split; [exact Hd|].
        intros rq'' reply'' H. apply elem_of_app in H as [H|H]; [|eauto].
        apply exchange_replies in H as [_ ->]. exact Hcase.
      * destruct Hfound as [Hreq Hall]. split.
        { now rewrite requests_app, requests_exchange, Hreq. }
        intros rq' reply' H. apply elem_of_app in H as [H|H]; [|eauto].
        apply exchange_replies in H as [_ ->]. exact Hcase.
Qed.

Lemma refresh_keeps_protocol (c : coordinator) (w : W) (r : result exn snapshot)
    (c' : coordinator) (w' : W) (tr : list event) :
  exec env refresh c w = (r, c', w', tr) ->
  (is_Some (protocol c) ->
   protocol c' = protocol c /\ snmp_version c' = snmp_version c)
  /\ (protocol c' = None -> c' = c).
Proof.
  rewrite exec_refresh, exec_update_data.
  destruct (clock env w) as [now w1].
  destruct (backoff_active c now).
  { intros H; inversion H; subst. auto. }
  destruct (clock env w1) as [t2 w2]. destruct (clock env w2) as [t3 w3].
  destruct (exec env (_async_update_data_locked now) c w3) as [[[r1 c1] w4] tr0] eqn:E.
  assert (Hsome : is_Some (protocol c1)).
  { revert E. rewrite exec_locked.
    destruct (detect_if_unknown_frame env c w3) as (c2 & w0 & t0 & -> & Hs & _).
    destruct (exec env (update_after_detection now) c2 w0) as [[[r3 c3] w5] t5] eqn:E2.
    apply update_after_detection_keeps in E2 as (Hp & _).
    intros E; inversion E; subst. now rewrite Hp. }
  apply locked_keeps in E as (_ & _ & _ & _ & _ & _ & Hkeep & _).
  destruct r1 as [d|e].
  - intros H; inversion H; subst. simpl. split.
    + intros Hs. destruct (Hkeep Hs) as (Hp & Hv & _). auto.
    + intros Hn. destruct Hsome as [x Hx]. simpl in Hn. congruence.
  - destruct (clock env w4) as [t4 w5].
    destruct (Py.float_of_int _) as [seconds|o];
      intros H; inversion H; subst; simpl; (split;
        [intros Hs; destruct (Hkeep Hs) as (Hp & Hv & _); auto
        |intros Hn; destruct Hsome as [x Hx]; simpl in Hn; congruence]).
Qed.

(** [later c c']: state [c'] is reached from [c] by any number of calls of
    [refresh], each in whatever world it finds. *)
Inductive later (c : coordinator) : coordinator -> Prop :=
| later_now : later c c
| later_refresh (c1 : coordinator) (w : W) r c2 w' tr :
    later c c1 ->
    exec env refresh c1 w = (r, c2, w', tr) ->
    later c c2.

Lemma later_keeps_protocol (c c' : coordinator) :
  later c c' ->
  is_Some (protocol c) ->
  protocol c' = protocol c /\ snmp_version c' = snmp_version c.
Proof.
  induction 1 as [|c1 w r c2 w' tr Hl IH Hex]; intros Hs; [auto|].
  destruct (IH Hs) as [Hp Hv].
  apply refresh_keeps_protocol in Hex as [Hk _].
  rewrite <- Hp in Hs. destruct (Hk Hs) as [Hp2 Hv2]. split; congruence.
Qed.

(** A coordinator that has not detected a dialect yet still has the
    version it was constructed with. *)
Lemma undetected_version (h : hass_handle) (host_ community_ name_ : string)
    (fast slow : Z) (c' : coordinator) :
  later (init h host_ community_ name_ fast slow) c' ->
  protocol c' = None -> snmp_version c' = "2c".
Proof.
  induction 1 as [|c1 w r c2 w' tr Hl IH Hex]; intros Hn; [reflexivity|].
  apply refresh_keeps_protocol in Hex as [_ Hk].
  pose proof (Hk Hn) as E. subst c2. exact (IH Hn).
Qed.

(** C3.  Detection probes (UPS, "2c"), (vendor, "2c"), (UPS, "1"),
    (vendor, "1") in this order and stops at the first combination whose
    identifying field yields a value; that dialect and version are stored.
    Once a dialect is stored, no later cycle detects again: the dialect
    and version stay through any number of refreshes, and a cycle sends
    only the fetch requests of that dialect at that version.  When all four
    probes yield nothing, the dialect is set to UPS, the version stays (it
    is "2c" for a coordinator that never detected), a warning is logged,
    and the cycle goes on to fetch. *)
Theorem protocol_detection (c : coordinator) (w : W) :
  exec env _detect_protocol c w =
    match first_answer env probe_order c w with
    | (Some (p, v), w', tr) => (Ok tt, set_detected p v c, w', tr)
    | (None, w', tr) =>
        (Ok tt, set_protocol UPS_MIB c, w',
         tr ++ [EvWarning (WarnDetectDefault (host c))])
    end
  /\ (let '(found, _, tr) := first_answer env probe_order c w in
      requests tr `prefix_of` map (probe_request c) probe_order
      /\ match found with
         | Some pv =>
             pv ∈ probe_order
             /\ exists before reply text,
                  tr = before ++ exchange (probe_request c pv) reply
                  /\ delivers reply text
                  /\ forall rq' reply', EvGet rq' reply' ∈ before -> no_value reply'
         | None =>
             requests tr = map (probe_request c) probe_order
             /\ forall rq reply, EvGet rq reply ∈ tr -> no_value reply
         end)
  /\ (forall text,
        delivers (answer env (probe_request c (UPS_MIB, "2c")) w).1 text ->
        exec env _detect_protocol c w
        = (Ok tt, set_detected UPS_MIB "2c" c,
           (answer env (probe_request c (UPS_MIB, "2c")) w).2,
           exchange (probe_request c (UPS_MIB, "2c"))
             (answer env (probe_request c (UPS_MIB, "2c")) w).1))
  /\ (forall p now r c' w' tr,
        protocol c = Some p ->
        exec env (_async_update_data_locked now) c w = (r, c', w', tr) ->
        protocol c' = Some p /\ snmp_version c' = snmp_version c
        /\ cycle_requests c (requests tr))
  /\ (forall p c',
        protocol c = Some p -> later c c' ->
        protocol c' = Some p /\ snmp_version c' = snmp_version c)
  /\ (forall now w0 t0 r c' w' tr,
        protocol c = None ->
        first_answer env probe_order c w = (None, w0, t0) ->
        exec env (_async_update_data_locked now) c w = (r, c', w', tr) ->
        protocol c' = Some UPS_MIB
        /\ snmp_version c' = snmp_version c
        /\ (snmp_version c = "2c" -> snmp_version c' = "2c")
        /\ exists rest,
             tr = t0 ++ [EvWarning (WarnDetectDefault (host c))] ++ rest
             /\ exec env (update_after_detection now) (set_protocol UPS_MIB c) w0
                = (r, c', w', rest)
             /\ cycle_requests (set_protocol UPS_MIB c) (requests rest)).
Proof.
  split; [apply exec_detect_protocol|].
  split; [apply first_answer_trace|].
  split.
  { intros text Hd. rewrite exec_detect_protocol.
    cbn [probe_order first_answer].
    destruct (answer env (probe_request c (UPS_MIB, "2c")) w) as [reply w1].
    cbn [fst snd] in *. now rewrite (reply_text_delivers _ _ Hd). }
  split.
  { intros p now r c' w' tr Hp Hex.
    apply locked_keeps in Hex as (_ & _ & _ & _ & _ & _ & Hkeep & _).
    destruct (Hkeep (ltac:(rewrite Hp; eauto))) as (Hp' & Hv & Hreq).
    rewrite Hp' , Hp. auto. }
  split.
  { intros p c' Hp Hl.
    destruct (later_keeps_protocol c c' Hl (ltac:(rewrite Hp; eauto))) as [Hp' Hv].
    rewrite Hp', Hp. auto. }
  intros now w0 t0 r c' w' tr Hp Hall. rewrite exec_locked, exec_detect_if_unknown.
  rewrite Hp, exec_detect_protocol, Hall.
  destruct (exec env (update_after_detection now) (set_protocol UPS_MIB c) w0)
    as [[[r2 c2] w2] rest] eqn:E.
  intros H; inversion H; subst.
  pose proof (update_after_detection_keeps env _ _ _ _ _ _ _ E)
    as (Hp2 & Hv2 & _ & _ & _ & _ & _ & _ & _ & Hreq).
  simpl in Hp2, Hv2.
  split; [exact Hp2|]. split; [exact Hv2|]. split; [congruence|].
  exists rest. split; [trace_eq|]. split; [reflexivity|exact Hreq].
Qed.

End Caching.

Lemma protocol_detection_witness :
  exec steady_world _detect_protocol fresh tt
  = (Ok tt, set_detected UPS_MIB "2c" fresh,
     (answer steady_world (probe_request fresh (UPS_MIB, "2c")) tt).2,
     exchange (probe_request fresh (UPS_MIB, "2c"))
       (answer steady_world (probe_request fresh (UPS_MIB, "2c")) tt).1).
Proof.
  destruct (protocol_detection steady_world fresh tt) as (_ & _ & Hfirst & _).
  apply (Hfirst "100").
  exists "100", []. repeat split. discriminate.
Defined.

(** ** Where the hypotheses of the backoff theorem come from *)

Section Reset.
Context {W : Type} (env : world W).

(** A successful refresh clears the failure count and the deadline and
    stores the snapshot; so a run of failures that follows a success, or
    the construction, begins with the count at zero. *)
Lemma refresh_success_resets (c : coordinator) (w : W) (d : snapshot)
    (c' : coordinator) (w' : W) (tr : list event) :
  exec env refresh c w = (Ok d, c', w', tr) ->
  _failure_count c' = 0 /\ _backoff_until c' = 0%float /\ data c' = d.
Proof.
  rewrite exec_refresh, exec_update_data.
  destruct (clock env w) as [now w1].
  destruct (backoff_active c now); [discriminate|].
  destruct (clock env w1) as [t2 w2]. destruct (clock env w2) as [t3 w3].
  destruct (exec env (_async_update_data_locked now) c w3) as [[[r c1] w4] tr0].
  destruct r as [d0|e].
  - intros H; inversion H; subst. repeat split.
  - destruct (clock env w4) as [t4 w5].
    destruct (Py.float_of_int _); discriminate.
Qed.

Lemma refresh_keeps_constants (c : coordinator) (w : W) (r : result exn snapshot)
    (c' : coordinator) (w' : W) (tr : list event) :
  exec env refresh c w = (r, c', w', tr) ->
  _backoff_base c' = _backoff_base c /\ _backoff_max c' = _backoff_max c.
Proof.
  rewrite exec_refresh, exec_update_data.
  destruct (clock env w) as [now w1].
  destruct (backoff_active c now).
  { intros H; inversion H; subst. auto. }
  destruct (clock env w1) as [t2 w2]. destruct (clock env w2) as [t3 w3].
  destruct (exec env (_async_update_data_locked now) c w3) as [[[r1 c1] w4] tr0] eqn:E.
  apply locked_keeps in E as (_ & Hbb & Hbm & _).
  destruct r1 as [d|e].
  - intros H; inversion H; subst. auto.
  - destruct (clock env w4) as [t4 w5].
    destruct (Py.float_of_int _); intros H; inversion H; subst; auto.
Qed.

Lemma constants_from_init (h : hass_handle) (host_ community_ name_ : string)
    (fast slow : Z) (c' : coordinator) :
  later env (init h host_ community_ name_ fast slow) c' ->
  _backoff_base c' = 2 /\ _backoff_max c' = 60.
Proof.
  induction 1 as [|c1 w r c2 w' tr Hl IH Hex]; [split; reflexivity|].
  apply refresh_keeps_constants in Hex as [Hb Hm].
  destruct IH. split; congruence.
Qed.

End Reset.

(** * Further properties of the code *)

(** ** The derived states, case by case *)

(** The three dialect-dependent constants of [_derive_states]. *)
Definition source_map_of (p : option protocol_id) : list (Z * string) :=
  match p with
  | Some APC_MIB => APC_OUTPUT_SOURCE_MAP
  | _ => UPS_OUTPUT_SOURCE_MAP
  end.

Definition normal_values_of (p : option protocol_id) : list Z :=
  match p with
  | Some APC_MIB => [2; 4]
  | _ => [3; 4]
  end.

Definition battery_values_of (p : option protocol_id) : list Z :=
  match p with
  | Some APC_MIB => [3]
  | _ => [5]
  end.

(** The four entries the output source code [code] gives under dialect
    [p], written over [base]. *)
Definition source_entries (p : option protocol_id) (code : Z) (base : snapshot) : snapshot :=
  <["on_bypass" := VBool (String.eqb (enum_get code (source_map_of p) "unknown") "bypass")]>
    (<["ac_power" := VBool (code_in code (normal_values_of p))]>
    (<["on_battery" := VBool (code_in code (battery_values_of p))]>
    (<["output_source" := VStr (enum_get code (source_map_of p) "unknown")]> base))).

(** The battery entry of the derived states. *)
Definition battery_entry (data base : snapshot) : Prop :=
  match data !! "battery_status" with
  | None => base = ∅
  | Some v =>
      exists txt, battery_status_text v = Ok txt
                  /\ base = <["battery_status_text" := VStr txt]> ∅
  end.

Lemma derive_states_cases (p : option protocol_id) (data derived : snapshot) :
  _derive_states p data = Ok derived ->
  exists base : snapshot,
    battery_entry data base
    /\ match data !! "output_source_raw" with
       | None => derived = base
       | Some osr =>
           exists code, int_of_value osr = Ok code
                        /\ derived = source_entries p code base
       end.
Proof.
  unfold _derive_states, battery_entry. intros H.
  destruct (data !! "battery_status") as [bs|].
  - destruct (battery_status_text bs) as [txt|e]; [|discriminate].
    exists (<["battery_status_text" := VStr txt]> ∅). split; [eauto|].
    destruct (data !! "output_source_raw") as [osr|]; [|congruence].
    destruct p as [[]|]; destruct (int_of_value osr) as [code|e];
      try discriminate; inversion H; eauto.
  - exists ∅. split; [reflexivity|].
    destruct (data !! "output_source_raw") as [osr|]; [|congruence].
    destruct p as [[]|]; destruct (int_of_value osr) as [code|e];
      try discriminate; inversion H; eauto.
Qed.

Lemma battery_entry_lookup (data base : snapshot) (k : string) :
  battery_entry data base -> k <> "battery_status_text" -> base !! k = None.
Proof.
  unfold battery_entry. intros H Hk.
  destruct (data !! "battery_status") as [v|].
  - destruct H as (txt & _ & ->). rewrite lookup_insert_ne by congruence.
    apply lookup_empty.
  - subst. apply lookup_empty.
Qed.

Lemma source_entries_lookup (p : option protocol_id) (code : Z) (base : snapshot) :
  source_entries p code base !! "on_bypass"
  = Some (VBool (String.eqb (enum_get code (source_map_of p) "unknown") "bypass"))
  /\ source_entries p code base !! "ac_power"
     = Some (VBool (code_in code (normal_values_of p)))
  /\ source_entries p code base !! "on_battery"
     = Some (VBool (code_in code (battery_values_of p)))
  /\ source_entries p code base !! "output_source"
     = Some (VStr (enum_get code (source_map_of p) "unknown"))
  /\ forall k, k ∉ ["on_bypass"; "ac_power"; "on_battery"; "output_source"] ->
       source_entries p code base !! k = base !! k.
Proof.
  unfold source_entries. repeat split.
  - now rewrite lookup_insert_eq.
  - rewrite lookup_insert_ne by discriminate. now rewrite lookup_insert_eq.
  - rewrite !(lookup_insert_ne _ _ "on_battery") by discriminate.
    now rewrite lookup_insert_eq.
  - rewrite !(lookup_insert_ne _ _ "output_source") by discriminate.
    now rewrite lookup_insert_eq.
  - intros k Hk. rewrite !not_elem_of_cons in Hk.
    destruct Hk as (H1 & H2 & H3 & H4 & _).
    now rewrite !lookup_insert_ne by congruence.
Qed.

(** What the code sets of the two dialects have in common: the battery
    codes are not normal codes, the code named "bypass" is a normal code,
    and a battery code is not named "bypass". *)
Lemma source_codes (p : option protocol_id) (code : Z) :
  (code_in code (battery_values_of p) = true ->
   code_in code (normal_values_of p) = false
   /\ String.eqb (enum_get code (source_map_of p) "unknown") "bypass" = false
   /\ enum_get code (source_map_of p) "unknown" = "battery")
  /\ (String.eqb (enum_get code (source_map_of p) "unknown") "bypass" = true ->
      code_in code (normal_values_of p) = true).
Proof.
  destruct p as [[]|]; cbn [battery_values_of normal_values_of source_map_of
    code_in existsb UPS_OUTPUT_SOURCE_MAP APC_OUTPUT_SOURCE_MAP enum_get];
    (split; [intros H; apply orb_true_iff in H as [H|H]; [|discriminate];
             apply Z.eqb_eq in H; subst code; repeat split; reflexivity|]);
    repeat match goal with
           | |- context [code =? ?b] =>
               destruct (Z.eqb_spec code b); [subst code; simpl; try reflexivity; try discriminate|]
           end; simpl; discriminate.
Qed.

(** X1.  Whatever the dialect and the snapshot, the derived states never
    report the battery and mains power together: when [on_battery] is
    true, [ac_power] and [on_bypass] are false and the source reads
    "battery"; and [on_bypass] true comes with [ac_power] true. *)
Theorem derived_states_exclusive (p : option protocol_id) (data derived : snapshot) :
  _derive_states p data = Ok derived ->
  (derived !! "on_battery" = Some (VBool true) ->
   derived !! "ac_power" = Some (VBool false)
   /\ derived !! "on_bypass" = Some (VBool false)
   /\ derived !! "output_source" = Some (VStr "battery"))
  /\ (derived !! "on_bypass" = Some (VBool true) ->
      derived !! "ac_power" = Some (VBool true)
      /\ derived !! "on_battery" = Some (VBool false)).
Proof.
  intros H. apply derive_states_cases in H as (base & Hb & H).
  destruct (data !! "output_source_raw") as [osr|].
  - destruct H as (code & _ & ->).
    destruct (source_entries_lookup p code base) as (E1 & E2 & E3 & E4 & _).
    destruct (source_codes p code) as [Hbat Hbyp].
    rewrite E1, E2, E3, E4. split.
    + intros Hon. assert (Hc : code_in code (battery_values_of p) = true) by congruence.
      destruct (Hbat Hc) as (Hn & Hy & Ht). rewrite Hn, Hy, Ht. auto.
    + intros Hon.
      assert (Hc : String.eqb (enum_get code (source_map_of p) "unknown") "bypass" = true)
        by congruence.
      rewrite (Hbyp Hc). split; [reflexivity|].
      destruct (code_in code (battery_values_of p)) eqn:Eb; [|reflexivity].
      destruct (Hbat eq_refl) as (_ & Hne & _). congruence.
  - subst derived.
    rewrite (battery_entry_lookup data base "on_battery" Hb) by discriminate.
    rewrite (battery_entry_lookup data base "on_bypass" Hb) by discriminate.
    split; discriminate.
Qed.

(** What a UPS-MIB snapshot with output source code 5 derives. *)
Definition battery_derived : snapshot := source_entries (Some UPS_MIB) 5 ∅.

Lemma derived_states_exclusive_witness :
  (battery_derived !! "on_battery" = Some (VBool true) ->
   battery_derived !! "ac_power" = Some (VBool false)
   /\ battery_derived !! "on_bypass" = Some (VBool false)
   /\ battery_derived !! "output_source" = Some (VStr "battery"))
  /\ (battery_derived !! "on_bypass" = Some (VBool true) ->
      battery_derived !! "ac_power" = Some (VBool true)
      /\ battery_derived !! "on_battery" = Some (VBool false)).
Proof.
  apply (derived_states_exclusive (Some UPS_MIB)
           {[ "output_source_raw" := VInt 5 ]}).
  reflexivity.
Defined.

Lemma enum_get_range (code : Z) (m : list (Z * string)) (default : string) :
  enum_get code m default = default \/ enum_get code m default ∈ map snd m.
Proof.
  induction m as [|[k txt] m IH]; simpl; [now left|].
  destruct (code =? k).
  - right. apply elem_of_cons. now left.
  - destruct IH as [IH|IH]; [now left|]. right. apply elem_of_cons. now right.
Qed.

Lemma battery_status_text_range (v : value) (txt : string) :
  battery_status_text v = Ok txt ->
  txt ∈ ["unknown"; "normal"; "low"; "depleted"].
Proof.
  unfold battery_status_text. intros H.
  assert (Hu : "unknown" ∈ ["unknown"; "normal"; "low"; "depleted"])
    by (apply elem_of_cons; now left).
  destruct (int_of_value v) as [n|e].
  - assert (Hr : enum_get n BATTERY_STATUS_MAP "unknown"
                  ∈ ["unknown"; "normal"; "low"; "depleted"]).
    { destruct (enum_get_range n BATTERY_STATUS_MAP "unknown") as [E|Hin];
        [rewrite E; exact Hu|exact Hin]. }
    injection H as <-. exact Hr.
  - destruct e; try discriminate; injection H as <-; exact Hu.
Qed.

(** A key of either OID table is not a key [_derive_states] writes. *)
Lemma table_keys_not_derived (k : string) :
  is_Some (table_get k UPS_MIB_OIDS) \/ is_Some (table_get k APC_MIB_OIDS) ->
  k ∉ derived_keys.
Proof.
  intros H Hin. unfold derived_keys in Hin.
  repeat (apply elem_of_cons in Hin as [->|Hin];
          [destruct H as [[x H]|[x H]]; discriminate H|]).
  now apply elem_of_nil in Hin.
Qed.

Lemma derived_lookup_keys (p : option protocol_id) (data derived : snapshot) (k : string) :
  _derive_states p data = Ok derived ->
  is_Some (derived !! k) -> k ∈ derived_keys.
Proof.
  intros H Hs. apply derive_states_cases in H as (base & Hb & H).
  destruct (decide (k ∈ derived_keys)) as [Hin|Hout]; [exact Hin|exfalso].
  unfold derived_keys in Hout. rewrite !not_elem_of_cons in Hout.
  destruct Hout as (H1 & H2 & H3 & H4 & H5 & _).
  assert (Hbase : base !! k = None) by now apply (battery_entry_lookup data).
  destruct (data !! "output_source_raw") as [osr|].
  - destruct H as (code & _ & ->).
    destruct (source_entries_lookup p code base) as (_ & _ & _ & _ & Hrest).
    rewrite Hrest, Hbase in Hs.
    + now destruct Hs.
    + rewrite !not_elem_of_cons. repeat split; try congruence. apply not_elem_of_nil.
  - subst derived. rewrite Hbase in Hs. now destruct Hs.
Qed.

(** X2.  [_derive_states] writes only its five keys: the battery text
    exactly when the snapshot has a battery status, the output source and
    the three booleans exactly when the snapshot has an output source code.
    None of the five is a key of an OID table, so laying the derived states
    over the merged snapshot leaves every fetched field as it was. *)
Theorem derived_states_keys (p : option protocol_id) (data derived : snapshot) :
  _derive_states p data = Ok derived ->
  (forall k, is_Some (derived !! k) -> k ∈ derived_keys)
  /\ (is_Some (derived !! "battery_status_text") <-> is_Some (data !! "battery_status"))
  /\ (forall k, k ∈ ["output_source"; "on_battery"; "ac_power"; "on_bypass"] ->
        (is_Some (derived !! k) <-> is_Some (data !! "output_source_raw")))
  /\ (forall k,
        is_Some (table_get k UPS_MIB_OIDS) \/ is_Some (table_get k APC_MIB_OIDS) ->
        (derived ∪ data) !! k = data !! k).
Proof.
  intros H. split; [intros k; now apply (derived_lookup_keys p data)|].
  pose proof H as Hkeys.
  apply derive_states_cases in H as (base & Hb & H).
  split; [|split].
  - assert (Hbase : is_Some (base !! "battery_status_text")
                    <-> is_Some (data !! "battery_status")).
    { unfold battery_entry in Hb. destruct (data !! "battery_status") as [v|].
      - destruct Hb as (txt & _ & ->). rewrite lookup_insert_eq. split; eauto.
      - subst base. rewrite lookup_empty. reflexivity. }
    destruct (data !! "output_source_raw") as [osr|].
    + destruct H as (code & _ & ->).
      destruct (source_entries_lookup p code base) as (_ & _ & _ & _ & Hrest).
      rewrite Hrest; [exact Hbase|].
      rewrite !not_elem_of_cons. repeat split; try discriminate. apply not_elem_of_nil.
    + now subst derived.
  - intros k Hk.
    destruct (data !! "output_source_raw") as [osr|].
    + destruct H as (code & _ & ->).
      destruct (source_entries_lookup p code base) as (E1 & E2 & E3 & E4 & _).
      repeat (apply elem_of_cons in Hk as [->|Hk];
              [rewrite ?E1, ?E2, ?E3, ?E4; split; eauto|]).
      now apply elem_of_nil in Hk.
    + subst derived.
      assert (Hn : base !! k = None).
      { apply (battery_entry_lookup data base k Hb). intros ->.
        repeat (apply elem_of_cons in Hk as [Hk|Hk]; [discriminate|]).
        now apply elem_of_nil in Hk. }
      rewrite Hn. split; intros [x Hx]; discriminate.
  - intros k Hk. apply lookup_union_r.
    destruct (derived !! k) as [v|] eqn:E; [|reflexivity].
    exfalso. apply (table_keys_not_derived k Hk).
    apply (derived_lookup_keys p data derived k Hkeys). rewrite E. eauto.
Qed.

Lemma derived_states_keys_witness :
  (forall k, is_Some (battery_derived !! k) -> k ∈ derived_keys)
  /\ (is_Some (battery_derived !! "battery_status_text")
      <-> is_Some (({[ "output_source_raw" := VInt 5 ]} : snapshot) !! "battery_status"))
  /\ (forall k, k ∈ ["output_source"; "on_battery"; "ac_power"; "on_bypass"] ->
        (is_Some (battery_derived !! k)
         <-> is_Some (({[ "output_source_raw" := VInt 5 ]} : snapshot)
                        !! "output_source_raw")))
  /\ (forall k,
        is_Some (table_get k UPS_MIB_OIDS) \/ is_Some (table_get k APC_MIB_OIDS) ->
        (battery_derived ∪ {[ "output_source_raw" := VInt 5 ]}) !! k
        = ({[ "output_source_raw" := VInt 5 ]} : snapshot) !! k).
Proof.
  apply (derived_states_keys (Some UPS_MIB) {[ "output_source_raw" := VInt 5 ]}).
  reflexivity.
Defined.

(** X3.  The texts and flags a consumer of the derived states can meet:
    the battery text is one of the four labels of the status map, the
    output source is a label of the dialect's source map or "unknown", and
    the three flags are booleans. *)
Theorem derived_states_values (p : option protocol_id) (data derived : snapshot) :
  _derive_states p data = Ok derived ->
  (forall v, derived !! "battery_status_text" = Some v ->
     exists txt, v = VStr txt /\ txt ∈ ["unknown"; "normal"; "low"; "depleted"])
  /\ (forall v, derived !! "output_source" = Some v ->
        exists txt, v = VStr txt
                    /\ (txt = "unknown" \/ txt ∈ map snd (source_map_of p)))
  /\ (forall k v, k ∈ ["on_battery"; "ac_power"; "on_bypass"] ->
        derived !! k = Some v -> exists b, v = VBool b).
Proof.
  intros H. apply derive_states_cases in H as (base & Hb & H).
  assert (Hbat : forall v, base !! "battery_status_text" = Some v ->
            exists txt, v = VStr txt /\ txt ∈ ["unknown"; "normal"; "low"; "depleted"]).
  { intros v Hv. unfold battery_entry in Hb. destruct (data !! "battery_status") as [bs|].
    - destruct Hb as (txt & Ht & ->). rewrite lookup_insert_eq in Hv.
      inversion Hv; subst. exists txt. split; [reflexivity|].
      now apply (battery_status_text_range bs).
    - subst base. now rewrite lookup_empty in Hv. }
  destruct (data !! "output_source_raw") as [osr|].
  - destruct H as (code & _ & ->).
    destruct (source_entries_lookup p code base) as (E1 & E2 & E3 & E4 & Hrest).
    split; [|split].
    + intros v. rewrite Hrest; [apply Hbat|].
      rewrite !not_elem_of_cons. repeat split; try discriminate. apply not_elem_of_nil.
    + intros v. rewrite E4. intros Hv.
      exists (enum_get code (source_map_of p) "unknown"). split; [congruence|].
      apply enum_get_range.
    + intros k v Hk.
      repeat (apply elem_of_cons in Hk as [->|Hk];
              [rewrite ?E1, ?E2, ?E3; intros Hv; injection Hv as <-; eexists; reflexivity|]).
      now apply elem_of_nil in Hk.
  - subst derived. split; [exact Hbat|]. split.
    + intros v. now rewrite (battery_entry_lookup data base "output_source" Hb).
    + intros k v Hk. rewrite (battery_entry_lookup data base k Hb); [discriminate|].
      intros ->. repeat (apply elem_of_cons in Hk as [Hk|Hk]; [discriminate|]).
      now apply elem_of_nil in Hk.
Qed.

Lemma derived_states_values_witness :
  (forall v, battery_derived !! "battery_status_text" = Some v ->
     exists txt, v = VStr txt /\ txt ∈ ["unknown"; "normal"; "low"; "depleted"])
  /\ (forall v, battery_derived !! "output_source" = Some v ->
        exists txt, v = VStr txt
                    /\ (txt = "unknown" \/ txt ∈ map snd (source_map_of (Some UPS_MIB))))
  /\ (forall k v, k ∈ ["on_battery"; "ac_power"; "on_bypass"] ->
        battery_derived !! k = Some v -> exists b, v = VBool b).
Proof.
  apply (derived_states_values (Some UPS_MIB) {[ "output_source_raw" := VInt 5 ]}).
  reflexivity.
Defined.

(** ** Trimmed texts *)

Lemma rstrip_idem (s : string) : Py.rstrip (Py.rstrip s) = Py.rstrip s.
Proof.
  induction s as [|c r IH]; [reflexivity|].
  cbn [Py.rstrip]. destruct (Py.rstrip r) as [|c' r'] eqn:E.
  - destruct (Py.isspace c) eqn:Ec; [reflexivity|].
    cbn [Py.rstrip]. now rewrite Ec.
  - change (Py.rstrip (String c (String c' r')))
      with (match Py.rstrip (String c' r') with
            | EmptyString => if Py.isspace c then EmptyString else String c EmptyString
            | String a b => String c (String a b)
            end).
    now rewrite IH.
Qed.

(** [rstrip] keeps a first character that is not white space. *)
Lemma rstrip_head (c : ascii) (r : string) :
  Py.isspace c = false -> exists r', Py.rstrip (String c r) = String c r'.
Proof.
  intros Hc. cbn [Py.rstrip]. destruct (Py.rstrip r); [rewrite Hc|]; eauto.
Qed.

Lemma lstrip_head (s : string) :
  Py.lstrip s = ""
  \/ exists c r, Py.lstrip s = String c r /\ Py.isspace c = false.
Proof.
  induction s as [|c r IH]; [now left|].
  cbn [Py.lstrip]. destruct (Py.isspace c) eqn:Ec; [exact IH|].
  right. eauto.
Qed.

Lemma strip_idem (s : string) : Py.strip (Py.strip s) = Py.strip s.
Proof.
  unfold Py.strip.
  destruct (lstrip_head s) as [E|(c & r & E & Hc)]; rewrite E; [reflexivity|].
  destruct (rstrip_head c r Hc) as [r' E'].
  assert (El : Py.lstrip (Py.rstrip (String c r)) = Py.rstrip (String c r)).
  { rewrite E'. cbn [Py.lstrip]. now rewrite Hc. }
  rewrite El. apply rstrip_idem.
Qed.

(** X4.  [_coerce_snmp_value] is a projection: applied to what it
    returned it returns the same again.  A text it returns is not empty,
    has no white space at either end, and is none of the numeric forms. *)
Theorem coerce_snmp_value_idempotent (v r : option value) :
  _coerce_snmp_value v = Ok r ->
  _coerce_snmp_value r = Ok r
  /\ forall text, r = Some (VStr text) ->
       text <> "" /\ Py.strip text = text
       /\ Py.search_paren_digits text = None
       /\ Py.fullmatch_int text = false
       /\ Py.fullmatch_decimal text = None.
Proof.
  intros Hv.
  assert (Htext : forall text, r = Some (VStr text) ->
            text <> "" /\ Py.strip text = text
            /\ Py.search_paren_digits text = None
            /\ Py.fullmatch_int text = false
            /\ Py.fullmatch_decimal text = None).
  { intros text ->. revert Hv. destruct v as [[n|f|s|b]|]; try discriminate.
    rewrite coerce_text. cbv zeta.
    destruct (Py.nonempty (Py.strip s)) eqn:En; [|discriminate].
    destruct (Py.search_paren_digits (Py.strip s)) eqn:Ep.
    { destruct (Py.int _); discriminate. }
    destruct (Py.fullmatch_int (Py.strip s)) eqn:Ei.
    { destruct (Py.int _); discriminate. }
    destruct (Py.fullmatch_decimal (Py.strip s)) as [[[neg ip] fp]|] eqn:Ed;
      [discriminate|].
    intros H. injection H as <-. rewrite strip_idem.
    repeat split; auto. intros E0. rewrite E0 in En. discriminate. }
  split; [|exact Htext].
  destruct r as [[n|f|text|b]|]; try reflexivity.
  destruct (Htext text eq_refl) as (Hne & Hs & Hp & Hi & Hd).
  rewrite coerce_text. cbv zeta. rewrite Hs, Hp, Hi, Hd.
  destruct text; [congruence|reflexivity].
Qed.

Lemma coerce_snmp_value_idempotent_witness :
  _coerce_snmp_value (Some (VStr "APC Smart-UPS")) = Ok (Some (VStr "APC Smart-UPS"))
  /\ forall text, Some (VStr "APC Smart-UPS") = Some (VStr text) ->
       text <> "" /\ Py.strip text = text
       /\ Py.search_paren_digits text = None
       /\ Py.fullmatch_int text = false
       /\ Py.fullmatch_decimal text = None.
Proof.
  apply (coerce_snmp_value_idempotent (Some (VStr " APC Smart-UPS "))).
  reflexivity.
Defined.

(** ** Where a transported value comes from *)

(** X5.  A text in the mapping a batch query returns was delivered, in
    this very batch, by a reply to the request for its OID; it is the
    reply's text without the white space at its ends, and it is not empty.
    So the transport invents no value and hands on no blank one. *)
Theorem batch_values_delivered {W : Type} (env : world W) (host : string)
    (oids : list string) (community : string) (timeout : Z) (version : string)
    (hass : option hass_handle) (use_executor : bool) (w : W)
    (values : raw_values) (w' : W) (tr : list event) :
  run env (async_get_snmp_values host oids community timeout version
             hass use_executor) w = (Ok values, w', tr) ->
  forall o text, values !! o = Some (Some text) ->
    o ∈ oids /\ text <> "" /\ Py.strip text = text
    /\ exists reply,
         EvGet (request_for host community timeout version o) reply ∈ tr
         /\ delivers reply text.
Proof.
  intros Hrun o text Hv.
  assert (Hok : oids = [] \/ use_executor = false \/ is_Some hass).
  { destruct oids; [now left|]. destruct use_executor; [|auto].
    destruct hass; [eauto|discriminate]. }
  rewrite (run_batch env _ _ _ _ _ _ _ w Hok) in Hrun. cbv zeta in Hrun.
  set (rqs := map (request_for host community timeout version) oids) in *.
  pose proof (ask_all_length env rqs w) as Hlen.
  destruct (ask_all env rqs w) as [replies w2]. cbn [fst snd] in *.
  assert (Hlen' : length replies = length oids).
  { rewrite Hlen. unfold rqs. apply length_map. }
  injection Hrun as <- <- <-.
  rewrite values_of_lookup in Hv.
  destruct (last_for o (zip oids replies)) as [reply|] eqn:El; [|discriminate].
  cbn in Hv. assert (Ht : reply_text reply = Some text) by congruence.
  pose proof (reply_text_cases reply) as Hd. rewrite Ht in Hd.
  split.
  { rewrite <- (map_fst_zip oids replies Hlen'). apply last_for_is_Some. eauto. }
  destruct Hd as (raw & rest & E & Hs & Hne).
  split; [exact Hne|]. split; [rewrite <- Hs; apply strip_idem|].
  exists reply. split.
  - now apply last_for_in_exchanges.
  - exists raw, rest. auto.
Qed.

Lemma batch_values_delivered_witness :
  "1.3.6.1.2.1.33.1.4.1.0" ∈ ["1.3.6.1.2.1.33.1.4.1.0"]
  /\ "100" <> "" /\ Py.strip "100" = "100"
  /\ exists reply,
       EvGet (request_for "192.0.2.1" "public" 5 "2c" "1.3.6.1.2.1.33.1.4.1.0") reply
         ∈ [EvGet (request_for "192.0.2.1" "public" 5 "2c" "1.3.6.1.2.1.33.1.4.1.0")
              (Reply false false [ObjValue "100"])]
       /\ delivers reply "100".
Proof.
  apply (batch_values_delivered steady_world "192.0.2.1" ["1.3.6.1.2.1.33.1.4.1.0"]
           "public" 5 "2c" (Some Hass) true tt
           {[ "1.3.6.1.2.1.33.1.4.1.0" := Some "100" ]} tt).
  - reflexivity.
  - reflexivity.
Defined.

(** ** Where a fetched value comes from *)

Lemma fetch_loop_value (oid_map : oid_table) (raw : raw_values) (keys : list string)
    (d0 d : snapshot) (key : string) (v : value) :
  fetch_loop oid_map raw keys d0 = Ok d ->
  d !! key = Some v ->
  d0 !! key = Some v
  \/ (key ∈ keys
      /\ exists spec v0,
           table_get key oid_map = Some spec
           /\ _coerce_snmp_value (raw_get raw (oid spec)) = Ok (Some v0)
           /\ apply_unit spec v0 = Ok v).
Proof.
  revert d0. induction keys as [|k keys IH]; intros d0 H Hv; simpl in H.
  - injection H as <-. now left.
  - assert (Hrec : forall d1, fetch_loop oid_map raw keys d1 = Ok d ->
              (d1 !! key = Some v ->
               d0 !! key = Some v
               \/ (key ∈ k :: keys
                   /\ exists spec v0,
                        table_get key oid_map = Some spec
                        /\ _coerce_snmp_value (raw_get raw (oid spec)) = Ok (Some v0)
                        /\ apply_unit spec v0 = Ok v)) ->
              d0 !! key = Some v
              \/ (key ∈ k :: keys
                  /\ exists spec v0,
                       table_get key oid_map = Some spec
                       /\ _coerce_snmp_value (raw_get raw (oid spec)) = Ok (Some v0)
                       /\ apply_unit spec v0 = Ok v)).
    { intros d1 H1 Hd1. destruct (IH _ H1 Hv) as [Hs|[Hin Ht]]; [auto|].
      right. split; [now apply elem_of_cons; right|exact Ht]. }
    destruct (table_get k oid_map) as [spec|] eqn:Et; [|apply (Hrec _ H); auto].
    destruct (_coerce_snmp_value (raw_get raw (oid spec))) as [[v0|]|e0] eqn:Ec;
      [|apply (Hrec _ H); auto|discriminate].
    destruct (apply_unit spec v0) as [v'|e] eqn:Eu; [|discriminate].
    apply (Hrec _ H). intros Hs.
    destruct (String.eqb_spec k key) as [->|Hne].
    + rewrite lookup_insert_eq in Hs. injection Hs as ->.
      right. split; [apply elem_of_cons; now left|]. eauto.
    + rewrite lookup_insert_ne in Hs by exact Hne. now left.
Qed.

(** A text in the mapping made from the replies of a batch was delivered
    by a reply of that batch to the request for its OID. *)
Lemma values_of_delivered (host community : string) (timeout : Z) (version : string)
    (oids : list string) (replies : list snmp_reply) (o text : string) :
  values_of oids replies !! o = Some (Some text) ->
  exists reply,
    EvGet (request_for host community timeout version o) reply
      ∈ exchanges (map (request_for host community timeout version) oids) replies
    /\ delivers reply text.
Proof.
  rewrite values_of_lookup. intros Hv.
  destruct (last_for o (zip oids replies)) as [reply|] eqn:El; [|discriminate].
  cbn in Hv. assert (Ht : reply_text reply = Some text) by congruence.
  pose proof (reply_text_cases reply) as Hd. rewrite Ht in Hd.
  exists reply. split; [now apply last_for_in_exchanges|exact Hd].
Qed.

(** X6.  [_fetch_keys] leaves the coordinator as it was and sends one
    request per requested key the table knows, to the coordinator's host
    at its current version.  When the table knows none of the keys it
    returns the empty mapping without touching the network.  Every entry
    of a mapping it returns belongs to a requested key of the table, and
    its value is what coercion and the unit conversion make of a text that
    a reply of this very fetch delivered for the key's OID. *)
Theorem fetch_keys_provenance {W : Type} (env : world W) (oid_map : oid_table)
    (keys : list string) (c : coordinator) (w : W) (r : result exn snapshot)
    (c' : coordinator) (w' : W) (tr : list event) :
  exec env (_fetch_keys oid_map keys) c w = (r, c', w', tr) ->
  c' = c
  /\ requests tr = fetch_requests c oid_map keys
  /\ (oids_of oid_map keys = [] -> r = Ok ∅ /\ w' = w /\ tr = [])
  /\ forall d, r = Ok d ->
       forall key v, d !! key = Some v ->
         key ∈ keys
         /\ exists spec reply text v0,
              table_get key oid_map = Some spec
              /\ EvGet (request_for (host c) (community c) 5 (snmp_version c) (oid spec))
                   reply ∈ tr
              /\ delivers reply text
              /\ _coerce_snmp_value (Some (VStr text)) = Ok (Some v0)
              /\ apply_unit spec v0 = Ok v.
Proof.
  rewrite exec_fetch_keys. intros H. injection H as Hr <- Hw Ht.
  split; [reflexivity|]. split.
  { subst tr. apply requests_exchanges, ask_all_length. }
  split.
  { intros E. subst r w' tr. unfold fetch_requests. rewrite E. cbn.
    rewrite fetch_loop_untabled by exact E. auto. }
  intros d Hd key v Hv. subst r.
  destruct (fetch_loop oid_map _ keys ∅) as [d0|e] eqn:El; [|discriminate].
  injection Hd as ->.
  destruct (fetch_loop_value _ _ _ _ _ _ _ El Hv)
    as [Hempty|(Hin & spec & v0 & Hspec & Hc & Hu)].
  { now rewrite lookup_empty in Hempty. }
  split; [exact Hin|].
  unfold raw_get in Hc.
  destruct (fetch_raw env c oid_map keys w !! oid spec) as [[text|]|] eqn:Eraw;
    try discriminate.
  unfold fetch_raw in Eraw.
  apply (values_of_delivered (host c) (community c) 5 (snmp_version c)) in Eraw
    as (reply & Hev & Hdel).
  exists spec, reply, text, v0. subst tr. auto.
Qed.

(** The fast fetch of a fresh coordinator from a device that answers
    every request with "100". *)
Definition steady_fetch : result exn snapshot * coordinator * unit * list event :=
  exec steady_world (_fetch_keys UPS_MIB_OIDS fast_keys) fresh tt.

Lemma fetch_keys_provenance_witness :
  steady_fetch.1.1.2 = fresh
  /\ requests steady_fetch.2 = fetch_requests fresh UPS_MIB_OIDS fast_keys
  /\ (oids_of UPS_MIB_OIDS fast_keys = [] ->
      steady_fetch.1.1.1 = Ok ∅ /\ steady_fetch.1.2 = tt /\ steady_fetch.2 = [])
  /\ forall d, steady_fetch.1.1.1 = Ok d ->
       forall key v, d !! key = Some v ->
         key ∈ fast_keys
         /\ exists spec reply text v0,
              table_get key UPS_MIB_OIDS = Some spec
              /\ EvGet (request_for (host fresh) (community fresh) 5
                          (snmp_version fresh) (oid spec)) reply ∈ steady_fetch.2
              /\ delivers reply text
              /\ _coerce_snmp_value (Some (VStr text)) = Ok (Some v0)
              /\ apply_unit spec v0 = Ok v.
Proof.
  apply (fetch_keys_provenance steady_world UPS_MIB_OIDS fast_keys fresh tt).
  reflexivity.
Defined.

(** ** What a refresh does to the coordinator *)

(** A mapping whose keys are all keys of the table. *)
Definition from_table (oid_map : oid_table) (d : snapshot) : Prop :=
  forall k, is_Some (d !! k) -> is_Some (table_get k oid_map).

(** [c1] is [c] with the dialect known: [c] itself when it had one,
    otherwise [c] with the dialect and version detection chose. *)
Definition detected (c c1 : coordinator) : Prop :=
  (is_Some (protocol c) /\ c1 = c)
  \/ (protocol c = None
      /\ exists p v, c1 = set_detected p v c
                     /\ (v = "2c" \/ v = "1" \/ v = snmp_version c)).

Lemma cycle_requests_nonempty (c : coordinator) (rqs : list snmp_request) :
  cycle_requests c rqs -> rqs <> [].
Proof.
  unfold cycle_requests, fetch_requests. cbv zeta.
  assert (H : exists o rest, oids_of (table_of (protocol c)) fast_keys = o :: rest).
  { destruct (protocol c) as [[]|]; vm_compute; eauto. }
  destruct H as (o & rest & ->). intros [->| ->]; discriminate.
Qed.

Lemma requests_clock (t : float) (tr : list event) :
  requests (EvClock t :: tr) = requests tr.
Proof. reflexivity. Qed.

Lemma requests_warning (msg : log_warning) (tr : list event) :
  requests (EvWarning msg :: tr) = requests tr.
Proof. reflexivity. Qed.

Section Outcome.
Context {W : Type} (env : world W).

Lemma first_answer_head (pv : protocol_id * string) (probes : list (protocol_id * string))
    (c : coordinator) (w : W) :
  exists rest,
    requests (first_answer env (pv :: probes) c w).2 = probe_request c pv :: rest.
Proof.
  cbn [first_answer].
  destruct (answer env (probe_request c pv) w) as [reply w1].
  destruct (reply_text reply).
  - cbn [snd]. rewrite requests_exchange. eauto.
  - destruct (first_answer env probes c w1) as [[found w2] tr]. cbn [snd].
    rewrite requests_app, requests_exchange. cbn [app]. eauto.
Qed.

Lemma detect_outcome (c : coordinator) (w : W) :
  exists c1 w0 t0,
    exec env detect_if_unknown c w = (Ok tt, c1, w0, t0)
    /\ detected c c1
    /\ requests t0 `prefix_of` map (probe_request c) probe_order
    /\ (is_Some (protocol c) -> t0 = [])
    /\ (protocol c = None ->
        exists rest, requests t0 = probe_request c (UPS_MIB, "2c") :: rest).
Proof.
  rewrite exec_detect_if_unknown. destruct (protocol c) as [p|] eqn:Ep.
  - exists c, w, []. split; [reflexivity|]. split.
    { left. rewrite Ep. eauto. }
    split; [apply prefix_nil|]. split; [reflexivity|discriminate].
  - rewrite exec_detect_protocol.
    pose proof (first_answer_trace env probe_order c w) as Htr.
    assert (Hfirst : exists rest,
              requests (first_answer env probe_order c w).2
              = probe_request c (UPS_MIB, "2c") :: rest).
    { apply first_answer_head. }
    destruct (first_answer env probe_order c w) as [[[[p v]|] w0] t0];
      cbn [snd] in Hfirst.
    + destruct Htr as (Hpre & Hin & _).
      exists (set_detected p v c), w0, t0. split; [reflexivity|]. split.
      { right. rewrite Ep. split; [reflexivity|]. exists p, v. split; [reflexivity|].
        unfold probe_order in Hin.
        repeat (apply elem_of_cons in Hin as [Hin|Hin];
                [injection Hin as -> ->; auto|]).
        now apply elem_of_nil in Hin. }
      split; [exact Hpre|]. split; [intros [x Hx]; discriminate|]. intros _. exact Hfirst.
    + destruct Htr as (Hpre & _).
      exists (set_protocol UPS_MIB c), w0, (t0 ++ [EvWarning (WarnDetectDefault (host c))]).
      split; [reflexivity|]. split.
      { right. split; [exact Ep|]. exists UPS_MIB, (snmp_version c). auto. }
      rewrite requests_app, requests_warning. cbn [requests omap]. rewrite app_nil_r.
      split; [exact Hpre|]. split; [intros [x Hx]; discriminate|]. intros _. exact Hfirst.
Qed.

Lemma fetch_keys_from_table (oid_map : oid_table) (keys : list string) (c : coordinator)
    (w : W) (F : snapshot) (c' : coordinator) (w' : W) (tr : list event) :
  exec env (_fetch_keys oid_map keys) c w = (Ok F, c', w', tr) ->
  from_table oid_map F.
Proof.
  rewrite exec_fetch_keys. intros H k Hk.
  destruct (fetch_loop oid_map _ keys ∅) as [d|e] eqn:E; [|discriminate].
  assert (d = F) by (cbn in H; congruence). subst d.
  destruct (fetch_loop_present _ _ _ _ _ _ E Hk) as [Hs|[_ Ht]]; [|exact Ht].
  rewrite lookup_empty in Hs. now destruct Hs.
Qed.

Lemma fetch_keys_error (oid_map : oid_table) (keys : list string) (c : coordinator)
    (w : W) (e : exn) (c' : coordinator) (w' : W) (tr : list event) :
  exec env (_fetch_keys oid_map keys) c w = (Err e, c', w', tr) ->
  forall rem, e <> UpdateFailed (BackoffActive rem).
Proof.
  rewrite exec_fetch_keys. intros H.
  assert (Hr : lift_error (fetch_loop oid_map (fetch_raw env c oid_map keys w) keys ∅)
               = Err e) by congruence.
  destruct (fetch_loop oid_map (fetch_raw env c oid_map keys w) keys ∅);
    cbn [lift_error] in Hr; [discriminate|].
  intros rem. congruence.
Qed.

Lemma from_table_empty (oid_map : oid_table) : from_table oid_map ∅.
Proof. intros k Hk. rewrite lookup_empty in Hk. now destruct Hk. Qed.

Lemma conclude_outcome (F S : snapshot) (c : coordinator) (r : result exn snapshot)
    (c' : coordinator) :
  conclude F S c = (r, c') ->
  match r with
  | Ok d =>
      c' = _update_metadata d c
      /\ ~ (F = ∅ /\ S = ∅ /\ data c = ∅)
      /\ exists derived,
           _derive_states (protocol c) (F ∪ (S ∪ data c)) = Ok derived
           /\ d = derived ∪ (F ∪ (S ∪ data c))
  | Err e => c' = c /\ forall rem, e <> UpdateFailed (BackoffActive rem)
  end.
Proof.
  unfold conclude.
  destruct (is_empty F && is_empty S && is_empty (data c)) eqn:Ee.
  { intros H. injection H as <- <-. split; [reflexivity|discriminate]. }
  cbv zeta. destruct (_derive_states _ _) as [derived|e]; intros H; injection H as <- <-.
  - split; [reflexivity|]. split; [|eauto].
    intros (-> & -> & E0). rewrite E0 in Ee. discriminate Ee.
  - split; [reflexivity|discriminate].
Qed.

(** The part of a cycle below the detection: it changes at most the time
    of the last slow poll and, when it succeeds, the metadata. *)
Lemma update_outcome (now : float) (c : coordinator) (w : W) (r : result exn snapshot)
    (c' : coordinator) (w' : W) (tr : list event) :
  exec env (update_after_detection now) c w = (r, c', w', tr) ->
  exists c2,
    (c2 = c \/ c2 = set_last_slow_poll now c)
    /\ match r with
       | Ok d =>
           c' = _update_metadata d c2
           /\ exists F S derived,
                from_table (table_of (protocol c)) F
                /\ from_table (table_of (protocol c)) S
                /\ ~ (F = ∅ /\ S = ∅ /\ data c = ∅)
                /\ _derive_states (protocol c) (F ∪ (S ∪ data c)) = Ok derived
                /\ d = derived ∪ (F ∪ (S ∪ data c))
       | Err e => c' = c2 /\ forall rem, e <> UpdateFailed (BackoffActive rem)
       end.
Proof.
  rewrite exec_update_after_detection. cbv zeta.
  set (T := table_of (protocol c)).
  destruct (exec env (_fetch_keys T fast_keys) c w) as [[[rf cf] w1] t1] eqn:Ef.
  destruct rf as [F|e].
  2:{ intros H. injection H as <- <- <- <-. exists c. split; [now left|].
      split; [reflexivity|]. exact (fetch_keys_error _ _ _ _ _ _ _ _ Ef). }
  apply fetch_keys_from_table in Ef.
  destruct (slow_due now c).
  - destruct (exec env (_fetch_keys T (slow_keys_of T)) c w1) as [[[rs cs] w2] t2] eqn:Es.
    destruct rs as [slow|e].
    2:{ intros H. injection H as <- <- <- <-. exists c. split; [now left|].
        split; [reflexivity|]. exact (fetch_keys_error _ _ _ _ _ _ _ _ Es). }
    apply fetch_keys_from_table in Es.
    destruct (conclude F slow _) as [r2 c3] eqn:Ec.
    intros H. injection H as <- <- <- <-.
    apply conclude_outcome in Ec.
    exists (if is_empty slow then c else set_last_slow_poll now c).
    split; [destruct (is_empty slow); auto|].
    assert (Ep : protocol (if is_empty slow then c else set_last_slow_poll now c)
                 = protocol c) by now destruct (is_empty slow).
    assert (Ed : data (if is_empty slow then c else set_last_slow_poll now c)
                 = data c) by now destruct (is_empty slow).
    rewrite Ep, Ed in Ec.
    destruct r2 as [d|e]; [|exact Ec].
    destruct Ec as (-> & Hne & derived & Hder & ->).
    split; [reflexivity|]. exists F, slow, derived. auto.
  - destruct (conclude F ∅ c) as [r2 c3] eqn:Ec.
    intros H. injection H as <- <- <- <-.
    apply conclude_outcome in Ec. exists c. split; [now left|].
    destruct r2 as [d|e]; [|exact Ec].
    destruct Ec as (-> & Hne & derived & Hder & ->).
    split; [reflexivity|]. exists F, ∅, derived.
    split; [exact Ef|]. split; [apply from_table_empty|]. auto.
Qed.

(** A refresh, whole.  Either the backoff turns it away, and then nothing
    changes and nothing is sent; or it runs a cycle: the dialect is detected
    if unknown, the time of the last slow poll may move, and then a success
    stores the snapshot, brings the metadata up to date and clears the
    backoff, while a failure counts one more failure and sets a
    deadline. *)
Lemma refresh_outcome (c : coordinator) (w : W) (r : result exn snapshot)
    (c' : coordinator) (w' : W) (tr : list event) :
  exec env refresh c w = (r, c', w', tr) ->
  (backoff_active c (clock env w).1 = true
   /\ c' = c /\ requests tr = []
   /\ exists rem, r = Err (UpdateFailed (BackoffActive rem)))
  \/ (backoff_active c (clock env w).1 = false
      /\ exists c1 c2 probes rest,
           detected c c1
           /\ (c2 = c1 \/ exists now, c2 = set_last_slow_poll now c1)
           /\ requests tr = probes ++ rest
           /\ probes `prefix_of` map (probe_request c) probe_order
           /\ (is_Some (protocol c) -> probes = [])
           /\ (protocol c = None ->
               exists more, probes = probe_request c (UPS_MIB, "2c") :: more)
           /\ cycle_requests c1 rest
           /\ match r with
              | Ok d =>
                  c' = set_data d (set_backoff 0 0%float (_update_metadata d c2))
                  /\ exists F S derived,
                       from_table (table_of (protocol c1)) F
                       /\ from_table (table_of (protocol c1)) S
                       /\ ~ (F = ∅ /\ S = ∅ /\ data c = ∅)
                       /\ _derive_states (protocol c1) (F ∪ (S ∪ data c)) = Ok derived
                       /\ d = derived ∪ (F ∪ (S ∪ data c))
              | Err e =>
                  (forall rem, e <> UpdateFailed (BackoffActive rem))
                  /\ exists t,
                       last_clock tr = Some t
                       /\ match Py.float_of_int (backoff_seconds c) with
                          | Ok seconds =>
                              c' = set_backoff (_failure_count c + 1)
                                     (t + seconds)%float c2
                          | Err o =>
                              e = Builtin o
                              /\ c' = set_backoff (_failure_count c + 1)
                                        (_backoff_until c2) c2
                          end
              end).
Proof.
  rewrite exec_refresh, exec_update_data.
  destruct (clock env w) as [now w1]. cbn [fst].
  destruct (backoff_active c now).
  { intros H. injection H as <- <- <- <-. left. repeat split; eauto. }
  destruct (clock env w1) as [t2 w2]. destruct (clock env w2) as [t3 w3].
  rewrite exec_locked.
  destruct (detect_outcome c w3) as (c1 & w0 & t0 & -> & Hdet & Hpre & Hnone & Hfirst).
  destruct (exec env (update_after_detection now) c1 w0) as [[[r3 c3] w5] t5] eqn:E2.
  pose proof (update_after_detection_keeps env _ _ _ _ _ _ _ E2)
    as (_ & _ & _ & _ & _ & _ & _ & _ & _ & Hreq).
  apply update_outcome in E2 as (c2 & Hc2 & Hr).
  assert (Hdata : data c1 = data c).
  { destruct Hdet as [[_ ->]|(_ & p & v & -> & _)]; reflexivity. }
  assert (Hfc : _failure_count c2 = _failure_count c
                /\ backoff_seconds c2 = backoff_seconds c).
  { unfold backoff_seconds.
    destruct Hdet as [[_ ->]|(_ & p & v & -> & _)]; destruct Hc2 as [->| ->];
      split; reflexivity. }
  intros H. right. split; [reflexivity|].
  exists c1, c2, (requests t0), (requests t5).
  split; [exact Hdet|].
  split; [destruct Hc2; eauto|].
  destruct r3 as [d|e].
  - injection H as <- <- <- <-.
    split; [cbn [app]; now rewrite !requests_clock, requests_app|].
    split; [exact Hpre|].
    split; [intros Hs; now rewrite (Hnone Hs)|].
    split; [exact Hfirst|]. split; [exact Hreq|].
    destruct Hr as (-> & F & S & derived & HF & HS & Hne & Hder & ->).
    split; [reflexivity|]. exists F, S, derived. rewrite <- Hdata. auto.
  - destruct (clock env w5) as [t4 w6].
    destruct Hr as (-> & Hrem). destruct Hfc as [Hfc Hbs]. rewrite Hbs in H.
    destruct (Py.float_of_int (backoff_seconds c)) as [seconds|o];
      injection H as <- <- <- <-.
    + split.
      { cbn [app]. rewrite !requests_clock, !requests_app. cbn [app].
        rewrite requests_clock, requests_warning. cbn [requests omap].
        now rewrite app_nil_r. }
      split; [exact Hpre|].
      split; [intros Hs; now rewrite (Hnone Hs)|].
      split; [exact Hfirst|]. split; [exact Hreq|].
      split.
      { intros rem. destruct e as [b|why]; cbn; [discriminate|].
        intros E. apply (Hrem rem). congruence. }
      exists t4. split.
      { cbn [app last_clock]. rewrite last_clock_app. reflexivity. }
      rewrite Hfc. reflexivity.
    + split.
      { cbn [app]. rewrite !requests_clock, !requests_app. cbn [app].
        rewrite requests_clock. cbn [requests omap].
        now rewrite app_nil_r. }
      split; [exact Hpre|].
      split; [intros Hs; now rewrite (Hnone Hs)|].
      split; [exact Hfirst|]. split; [exact Hreq|].
      split; [discriminate|].
      exists t4. split.
      { cbn [app last_clock]. rewrite last_clock_app. reflexivity. }
      rewrite Hfc. split; reflexivity.
Qed.

End Outcome.

(** Whatever the deadline, a failed cycle leaves the state it reached with
    one more failure counted. *)
Lemma failure_state (c c2 c' : coordinator) (e : exn) (t : float) :
  match Py.float_of_int (backoff_seconds c) with
  | Ok seconds => c' = set_backoff (_failure_count c + 1) (t + seconds)%float c2
  | Err o =>
      e = Builtin o
      /\ c' = set_backoff (_failure_count c + 1) (_backoff_until c2) c2
  end ->
  exists until, c' = set_backoff (_failure_count c + 1) until c2.
Proof.
  destruct (Py.float_of_int (backoff_seconds c)) as [seconds|o];
    [|intros [_ H]]; eauto.
Qed.

(** ** Invariants of the coordinator *)

(** A snapshot that agrees with itself under dialect [p]: the output
    source text and the three flags are the ones its own output source
    code gives, and absent when the code is absent; the battery text is
    the one its own battery status gives, and absent when the status is
    absent. *)
Definition coherent (p : option protocol_id) (d : snapshot) : Prop :=
  match d !! "output_source_raw" with
  | None =>
      forall k, k ∈ ["output_source"; "on_battery"; "ac_power"; "on_bypass"] ->
        d !! k = None
  | Some osr =>
      exists code,
        int_of_value osr = Ok code
        /\ d !! "output_source" = Some (VStr (enum_get code (source_map_of p) "unknown"))
        /\ d !! "on_battery" = Some (VBool (code_in code (battery_values_of p)))
        /\ d !! "ac_power" = Some (VBool (code_in code (normal_values_of p)))
        /\ d !! "on_bypass"
           = Some (VBool (String.eqb (enum_get code (source_map_of p) "unknown") "bypass"))
  end
  /\ match d !! "battery_status" with
     | None => d !! "battery_status_text" = None
     | Some bs =>
         exists txt, battery_status_text bs = Ok txt
                     /\ d !! "battery_status_text" = Some (VStr txt)
     end.

Lemma coherent_empty (p : option protocol_id) : coherent p ∅.
Proof.
  unfold coherent. rewrite !lookup_empty. split; [|reflexivity].
  intros k _. apply lookup_empty.
Qed.

Lemma lookup_union_absent (m1 m2 : snapshot) (k : string) :
  m1 !! k = None -> (m1 ∪ m2) !! k = m2 !! k.
Proof. apply lookup_union_r. Qed.

(** Laying the derived states over the snapshot they were derived from
    gives a snapshot that agrees with itself, provided the snapshot held
    no stale derived entry for a code it does not have. *)
Lemma derive_coherent (p : option protocol_id) (merged derived : snapshot) :
  _derive_states p merged = Ok derived ->
  (merged !! "output_source_raw" = None ->
   forall k, k ∈ ["output_source"; "on_battery"; "ac_power"; "on_bypass"] ->
     merged !! k = None) ->
  (merged !! "battery_status" = None -> merged !! "battery_status_text" = None) ->
  coherent p (derived ∪ merged).
Proof.
  intros H Hsrc Hbat. apply derive_states_cases in H as (base & Hb & H).
  assert (Hraw : forall k, k ∉ derived_keys -> (derived ∪ merged) !! k = merged !! k).
  { intros k Hk. apply lookup_union_r.
    unfold derived_keys in Hk. rewrite !not_elem_of_cons in Hk.
    destruct Hk as (H1 & H2 & H3 & H4 & H5 & _).
    assert (Hbase : base !! k = None) by now apply (battery_entry_lookup merged).
    destruct (merged !! "output_source_raw") as [osr|].
    - destruct H as (code & _ & ->).
      destruct (source_entries_lookup p code base) as (_ & _ & _ & _ & Hrest).
      rewrite Hrest; [exact Hbase|].
      rewrite !not_elem_of_cons. repeat split; try congruence. apply not_elem_of_nil.
    - now subst derived. }
  assert (Htext : match merged !! "battery_status" with
                  | None => (derived ∪ merged) !! "battery_status_text" = None
                  | Some bs =>
                      exists txt, battery_status_text bs = Ok txt
                                  /\ (derived ∪ merged) !! "battery_status_text"
                                     = Some (VStr txt)
                  end).
  { assert (Hd : derived !! "battery_status_text" = base !! "battery_status_text").
    { destruct (merged !! "output_source_raw") as [osr|]; [|now subst].
      destruct H as (code & _ & ->).
      destruct (source_entries_lookup p code base) as (_ & _ & _ & _ & Hrest).
      apply Hrest. rewrite !not_elem_of_cons. repeat split; try discriminate.
      apply not_elem_of_nil. }
    unfold battery_entry in Hb. destruct (merged !! "battery_status") as [bs|].
    - destruct Hb as (txt & Ht & Hbase). exists txt. split; [exact Ht|].
      apply lookup_union_Some_l. rewrite Hd, Hbase. apply lookup_insert_eq.
    - rewrite lookup_union_r; [now apply Hbat|]. rewrite Hd. subst base.
      apply lookup_empty. }
  unfold coherent.
  rewrite (Hraw "output_source_raw"), (Hraw "battery_status");
    try (unfold derived_keys; rewrite !not_elem_of_cons;
         repeat split; try discriminate; apply not_elem_of_nil).
  split; [|exact Htext].
  destruct (merged !! "output_source_raw") as [osr|].
  - destruct H as (code & Hcode & ->). exists code. split; [exact Hcode|].
    destruct (source_entries_lookup p code base) as (E1 & E2 & E3 & E4 & _).
    repeat split; apply lookup_union_Some_l; assumption.
  - subst derived. intros k Hk. rewrite lookup_union_r; [now apply Hsrc|].
    apply (battery_entry_lookup merged base k Hb). intros ->.
    repeat (apply elem_of_cons in Hk as [Hk|Hk]; [discriminate|]).
    now apply elem_of_nil in Hk.
Qed.

Lemma from_table_not_derived (p : option protocol_id) (F : snapshot) (k : string) :
  from_table (table_of p) F -> k ∈ derived_keys -> F !! k = None.
Proof.
  intros HF Hk. destruct (F !! k) as [v|] eqn:E; [exfalso|reflexivity].
  assert (Hs : is_Some (table_get k (table_of p))) by (apply HF; rewrite E; eauto).
  apply (table_keys_not_derived k); [|exact Hk].
  destruct p as [[]|]; cbn [table_of] in Hs; auto.
Qed.

(** The merge of two fetches and a self-agreeing prior snapshot holds no
    stale derived entry. *)
Lemma merge_no_stale (p q : option protocol_id) (F S P : snapshot) :
  from_table (table_of p) F -> from_table (table_of p) S -> coherent q P ->
  ((F ∪ (S ∪ P)) !! "output_source_raw" = None ->
   forall k, k ∈ ["output_source"; "on_battery"; "ac_power"; "on_bypass"] ->
     (F ∪ (S ∪ P)) !! k = None)
  /\ ((F ∪ (S ∪ P)) !! "battery_status" = None ->
      (F ∪ (S ∪ P)) !! "battery_status_text" = None).
Proof.
  intros HF HS [Hsrc Hbat].
  assert (Hder : forall k, k ∈ derived_keys -> (F ∪ (S ∪ P)) !! k = P !! k).
  { intros k Hk. rewrite merge_overlay. unfold overlay.
    now rewrite (from_table_not_derived p F k HF Hk),
                (from_table_not_derived p S k HS Hk). }
  assert (Hprior : forall k, (F ∪ (S ∪ P)) !! k = None -> P !! k = None).
  { intros k. rewrite merge_overlay. unfold overlay.
    destruct (F !! k); [discriminate|]. now destruct (S !! k). }
  split.
  - intros Hn k Hk. apply Hprior in Hn. rewrite Hn in Hsrc.
    rewrite Hder; [now apply Hsrc|].
    unfold derived_keys. apply elem_of_cons. now right.
  - intros Hn. apply Hprior in Hn. rewrite Hn in Hbat.
    rewrite Hder; [exact Hbat|]. unfold derived_keys. apply elem_of_cons. now left.
Qed.

Lemma union_nonempty (derived F S P : snapshot) :
  ~ (F = ∅ /\ S = ∅ /\ P = ∅) -> derived ∪ (F ∪ (S ∪ P)) <> ∅.
Proof.
  intros Hne E. apply Hne.
  assert (E1 : F ∪ (S ∪ P) = ∅).
  { apply map_positive_l in E as Ed. subst derived.
    now rewrite (left_id ∅ (∪)) in E. }
  apply map_positive_l in E1 as EF. subst F. rewrite (left_id ∅ (∪)) in E1.
  apply map_positive_l in E1 as ES. subst S. rewrite (left_id ∅ (∪)) in E1.
  auto.
Qed.

(** What holds of a coordinator however it got there from its
    construction. *)
Definition sound (c : coordinator) : Prop :=
  coherent (protocol c) (data c)
  /\ (forall k, is_Some (data c !! k) ->
        k ∈ derived_keys \/ is_Some (table_get k (table_of (protocol c))))
  /\ (protocol c = None ->
      data c = ∅ /\ snmp_version c = "2c" /\ _failure_count c = 0
      /\ _backoff_until c = 0%float /\ _last_slow_poll c = 0%float)
  /\ (data c = ∅ ->
      manufacturer c = None /\ hw_model c = None
      /\ serial_number c = None /\ fw_version c = None)
  /\ (protocol c = Some APC_MIB ->
      (data c = ∅ /\ manufacturer c = None)
      \/ (data c <> ∅ /\ manufacturer c = Some (VStr "APC")))
  /\ 0 <= _failure_count c
  /\ _backoff_base c = 2 /\ _backoff_max c = 60
  /\ (snmp_version c = "2c" \/ snmp_version c = "1").

Lemma sound_init (h : hass_handle) (host_ community_ name_ : string) (fast slow : Z) :
  sound (init h host_ community_ name_ fast slow).
Proof.
  unfold sound. cbn.
  split; [apply coherent_empty|].
  split; [intros k Hk; rewrite lookup_empty in Hk; now destruct Hk|].
  split; [intros _; repeat split|].
  split; [intros _; repeat split|].
  split; [discriminate|].
  split; [lia|]. auto.
Qed.

Section Invariants.
Context {W : Type} (env : world W).

Lemma sound_refresh (c : coordinator) (w : W) (r : result exn snapshot)
    (c' : coordinator) (w' : W) (tr : list event) :
  sound c -> exec env refresh c w = (r, c', w', tr) -> sound c'.
Proof.
  intros Hsound Hex.
  apply refresh_outcome in Hex
    as [(_ & -> & _)|(_ & c1 & c2 & probes & rest & Hdet & Hc2 & _ & _ & _ & _ & _ & Hr)];
    [exact Hsound|].
  destruct Hsound as (Hcoh & Hkeys & Hnone & Hmeta & Hapc & Hfc & Hbb & Hbm & Hver).
  (* the state once the dialect is known *)
  assert (H1 : is_Some (protocol c1)
               /\ coherent (protocol c1) (data c)
               /\ (forall k, is_Some (data c !! k) ->
                     k ∈ derived_keys \/ is_Some (table_get k (table_of (protocol c1))))
               /\ (protocol c1 = Some APC_MIB ->
                   (data c = ∅ /\ manufacturer c = None)
                   \/ (data c <> ∅ /\ manufacturer c = Some (VStr "APC")))
               /\ (snmp_version c1 = "2c" \/ snmp_version c1 = "1")
               /\ data c1 = data c /\ manufacturer c1 = manufacturer c
               /\ hw_model c1 = hw_model c /\ serial_number c1 = serial_number c
               /\ fw_version c1 = fw_version c
               /\ _backoff_base c1 = 2 /\ _backoff_max c1 = 60).
  { destruct Hdet as [[Hs ->]|(Hn & p & v & -> & Hv)].
    - split; [exact Hs|]. split; [exact Hcoh|]. split; [exact Hkeys|].
      split; [exact Hapc|]. split; [exact Hver|]. repeat split; assumption.
    - destruct (Hnone Hn) as (Hd & Hv0 & _).
      destruct (Hmeta Hd) as (Hm & _).
      cbn. rewrite Hd. split; [eauto|]. split; [apply coherent_empty|].
      split; [intros k Hk; rewrite lookup_empty in Hk; now destruct Hk|].
      split; [intros _; left; auto|].
      split; [destruct Hv as [-> | [-> | ->]]; auto|].
      repeat split; auto. }
  destruct H1 as (Hs1 & Hcoh1 & Hkeys1 & Hapc1 & Hver1 & Hd1 & Hm1 & Hh1 & Hsn1 & Hfw1
                  & Hbb1 & Hbm1).
  assert (H2 : protocol c2 = protocol c1 /\ snmp_version c2 = snmp_version c1
               /\ data c2 = data c /\ manufacturer c2 = manufacturer c
               /\ hw_model c2 = hw_model c /\ serial_number c2 = serial_number c
               /\ fw_version c2 = fw_version c
               /\ _backoff_base c2 = 2 /\ _backoff_max c2 = 60).
  { destruct Hc2 as [-> | [now ->]]; repeat split; auto. }
  destruct H2 as (Hp2 & Hv2 & Hd2 & Hm2 & Hh2 & Hsn2 & Hfw2 & Hbb2 & Hbm2).
  assert (Hnot : forall c3, protocol c3 = protocol c1 -> protocol c3 = None -> False).
  { intros c3 E En. rewrite E in En. rewrite En in Hs1. now destruct Hs1. }
  destruct r as [d|e].
  - destruct Hr as (-> & F & S & derived & HF & HS & Hne & Hder & Hd).
    unfold sound. cbn. rewrite Hp2, Hv2, Hbb2, Hbm2.
    destruct (merge_no_stale (protocol c1) (protocol c1) F S (data c) HF HS Hcoh1)
      as [Hst1 Hst2].
    assert (Hk : forall k, is_Some (d !! k) ->
              k ∈ derived_keys \/ is_Some (table_get k (table_of (protocol c1)))).
    { intros k. rewrite Hd, !lookup_union_is_Some.
      intros [Hk|[Hk|[Hk|Hk]]]; auto.
      left. now apply (derived_lookup_keys (protocol c1) (F ∪ (S ∪ data c)) derived). }
    split; [rewrite Hd; now apply derive_coherent|].
    split; [exact Hk|].
    split; [intros En; exfalso; now apply (Hnot c1)|].
    split.
    { intros E0. exfalso. revert E0. rewrite Hd. now apply union_nonempty. }
    split.
    { intros Ea. right. split; [rewrite Hd; now apply union_nonempty|].
      assert (Hman : d !! "manufacturer" = None).
      { destruct (d !! "manufacturer") as [x|] eqn:Ex; [exfalso|reflexivity].
        destruct (Hk "manufacturer") as [Hin|Hin]; [rewrite Ex; eauto| |].
        - unfold derived_keys in Hin.
          repeat (apply elem_of_cons in Hin as [Hin|Hin]; [discriminate|]).
          now apply elem_of_nil in Hin.
        - rewrite Ea in Hin. destruct Hin as [x0 Hx0]. discriminate. }
      rewrite Hman, Ea. reflexivity. }
    split; [lia|]. auto.
  - destruct Hr as (_ & t & _ & Hc').
    assert (E' : exists until, c' = set_backoff (_failure_count c + 1) until c2).
    { destruct (Py.float_of_int (backoff_seconds c)) as [seconds|o];
        [|destruct Hc' as [_ Hc']]; eauto. }
    destruct E' as [until ->].
    unfold sound. cbn. rewrite Hp2, Hv2, Hd2, Hm2, Hh2, Hsn2, Hfw2, Hbb2, Hbm2.
    split; [exact Hcoh1|]. split; [exact Hkeys1|].
    split; [intros En; exfalso; now apply (Hnot c1)|].
    split; [exact Hmeta|].
    split; [exact Hapc1|].
    split; [lia|]. auto.
Qed.

Lemma sound_later (c c' : coordinator) :
  sound c -> later env c c' -> sound c'.
Proof.
  intros Hs. induction 1 as [|c1 w r c2 w' tr Hl IH Hex]; [exact Hs|].
  exact (sound_refresh _ _ _ _ _ _ IH Hex).
Qed.

Lemma sound_reachable (h : hass_handle) (host_ community_ name_ : string) (fast slow : Z)
    (c : coordinator) :
  later env (init h host_ community_ name_ fast slow) c -> sound c.
Proof. apply sound_later, sound_init. Qed.

End Invariants.

(** ** Worlds and states for the examples *)

(** A device that answers every request with "100" while it is switched
    on and lets every request time out while it is off; the clock stands
    at one. *)
Definition switch_world : world bool :=
  mk_world
    (fun rq (up : bool) => (if up then Reply false false [ObjValue "100"] else RaisesTimeout, up))
    (fun up => (1%float, up)).

(** A fresh coordinator after one refresh with the device on, and after
    one more with the device off. *)
Definition answered : coordinator := (exec switch_world refresh fresh true).1.1.2.
Definition then_silent : coordinator := (exec switch_world refresh answered false).1.1.2.

(** ** The configuration never changes *)

Section Configuration.
Context {W : Type} (env : world W).

Lemma refresh_keeps_config (c : coordinator) (w : W) (r : result exn snapshot)
    (c' : coordinator) (w' : W) (tr : list event) :
  exec env refresh c w = (r, c', w', tr) ->
  hass c' = hass c /\ host c' = host c /\ community c' = community c
  /\ device_name c' = device_name c
  /\ fast_poll_interval c' = fast_poll_interval c
  /\ slow_poll_interval c' = slow_poll_interval c
  /\ _backoff_base c' = _backoff_base c /\ _backoff_max c' = _backoff_max c.
Proof.
  intros Hex.
  apply refresh_outcome in Hex
    as [(_ & -> & _)|(_ & c1 & c2 & probes & rest & Hdet & Hc2 & _ & _ & _ & _ & _ & Hr)];
    [repeat split|].
  assert (H1 : hass c2 = hass c /\ host c2 = host c /\ community c2 = community c
               /\ device_name c2 = device_name c
               /\ fast_poll_interval c2 = fast_poll_interval c
               /\ slow_poll_interval c2 = slow_poll_interval c
               /\ _backoff_base c2 = _backoff_base c /\ _backoff_max c2 = _backoff_max c).
  { destruct Hdet as [[_ ->]|(_ & p & v & -> & _)]; destruct Hc2 as [-> | [now ->]];
      repeat split. }
  destruct r as [d|e].
  - destruct Hr as (-> & _). exact H1.
  - destruct Hr as (_ & t & _ & Hr).
    apply failure_state in Hr as [until ->]. exact H1.
Qed.

(** X7.  What the constructor stores is what every later refresh works
    with: host, community, device name and both polling intervals stay as
    constructed through any number of refreshes, whatever the device does;
    the fast interval is at least one second and the slow interval at
    least ten, whatever was asked for; the backoff base and cap stay 2 and
    60. *)
Theorem configuration_is_fixed (h : hass_handle) (host_ community_ name_ : string)
    (fast slow : Z) (c' : coordinator) :
  later env (init h host_ community_ name_ fast slow) c' ->
  host c' = host_ /\ community c' = community_ /\ device_name c' = name_
  /\ fast_poll_interval c' = Z.max 1 fast /\ 1 <= fast_poll_interval c'
  /\ slow_poll_interval c' = Z.max 10 slow /\ 10 <= slow_poll_interval c'
  /\ _backoff_base c' = 2 /\ _backoff_max c' = 60.
Proof.
  intros Hl.
  assert (H : hass c' = h /\ host c' = host_ /\ community c' = community_
              /\ device_name c' = name_
              /\ fast_poll_interval c' = Z.max 1 fast
              /\ slow_poll_interval c' = Z.max 10 slow
              /\ _backoff_base c' = 2 /\ _backoff_max c' = 60).
  { induction Hl as [|c1 w r c2 w' tr Hl IH Hex]; [repeat split|].
    apply refresh_keeps_config in Hex
      as (E1 & E2 & E3 & E4 & E5 & E6 & E7 & E8).
    destruct IH as (I1 & I2 & I3 & I4 & I5 & I6 & I7 & I8).
    repeat split; congruence. }
  destruct H as (_ & H2 & H3 & H4 & H5 & H6 & H7 & H8).
  repeat split; try assumption; lia.
Qed.

End Configuration.

(** A coordinator constructed with intervals below the floors, after one
    refresh. *)
Definition hasty : coordinator := init Hass "192.0.2.1" "public" "UPS" 0 3.
Definition hasty_state : coordinator := (exec steady_world refresh hasty tt).1.1.2.

Lemma configuration_is_fixed_witness :
  host hasty_state = "192.0.2.1" /\ community hasty_state = "public"
  /\ device_name hasty_state = "UPS"
  /\ fast_poll_interval hasty_state = Z.max 1 0 /\ 1 <= fast_poll_interval hasty_state
  /\ slow_poll_interval hasty_state = Z.max 10 3
  /\ 10 <= slow_poll_interval hasty_state
  /\ _backoff_base hasty_state = 2 /\ _backoff_max hasty_state = 60.
Proof.
  apply (configuration_is_fixed steady_world Hass "192.0.2.1" "public" "UPS" 0 3).
  apply (later_refresh steady_world _ hasty tt
           (exec steady_world refresh hasty tt).1.1.1 hasty_state
           (exec steady_world refresh hasty tt).1.2
           (exec steady_world refresh hasty tt).2
           (later_now _ _)).
  reflexivity.
Defined.

(** ** The snapshot only grows *)

Section Snapshot.
Context {W : Type} (env : world W).

Lemma refresh_data_grows (c : coordinator) (w : W) (r : result exn snapshot)
    (c' : coordinator) (w' : W) (tr : list event) (k : string) :
  exec env refresh c w = (r, c', w', tr) ->
  is_Some (data c !! k) -> is_Some (data c' !! k).
Proof.
  intros Hex Hk.
  apply refresh_outcome in Hex
    as [(_ & -> & _)|(_ & c1 & c2 & probes & rest & Hdet & Hc2 & _ & _ & _ & _ & _ & Hr)];
    [exact Hk|].
  assert (Hd : data c2 = data c).
  { destruct Hdet as [[_ ->]|(_ & p & v & -> & _)]; destruct Hc2 as [-> | [now ->]];
      reflexivity. }
  destruct r as [d|e].
  - destruct Hr as (-> & F & S & derived & _ & _ & _ & _ & ->). cbn.
    rewrite !lookup_union_is_Some. auto.
  - destruct Hr as (_ & t & _ & Hr).
    apply failure_state in Hr as [until ->]. cbn. now rewrite Hd.
Qed.

Lemma later_data_grows (c c' : coordinator) (k : string) :
  later env c c' -> is_Some (data c !! k) -> is_Some (data c' !! k).
Proof.
  induction 1 as [|c1 w r c2 w' tr Hl IH Hex]; [auto|].
  intros Hk. exact (refresh_data_grows _ _ _ _ _ _ _ Hex (IH Hk)).
Qed.

(** X8.  The snapshot of a coordinator only grows: a key it holds is
    still there after any number of further refreshes, failed ones
    included.  And it holds nothing foreign: each key is one of the five
    derived keys or a key of the detected dialect's table. *)
Theorem snapshot_keys_persist (h : hass_handle) (host_ community_ name_ : string)
    (fast slow : Z) (c c' : coordinator) :
  later env (init h host_ community_ name_ fast slow) c ->
  later env c c' ->
  forall k, is_Some (data c !! k) ->
    is_Some (data c' !! k)
    /\ (k ∈ derived_keys \/ is_Some (table_get k (table_of (protocol c)))).
Proof.
  intros Hinit Hl k Hk. split; [now apply (later_data_grows c c')|].
  apply sound_reachable in Hinit as (_ & Hkeys & _). now apply Hkeys.
Qed.

End Snapshot.

Lemma snapshot_keys_persist_witness :
  is_Some (data then_silent !! "battery_charge")
  /\ ("battery_charge" ∈ derived_keys
      \/ is_Some (table_get "battery_charge" (table_of (protocol answered)))).
Proof.
  apply (snapshot_keys_persist switch_world Hass "192.0.2.1" "public" "UPS" 10 300
           answered then_silent).
  - apply (later_refresh switch_world _ fresh true
             (exec switch_world refresh fresh true).1.1.1 answered
             (exec switch_world refresh fresh true).1.2
             (exec switch_world refresh fresh true).2 (later_now _ _)).
    reflexivity.
  - apply (later_refresh switch_world _ answered false
             (exec switch_world refresh answered false).1.1.1 then_silent
             (exec switch_world refresh answered false).1.2
             (exec switch_world refresh answered false).2 (later_now _ _)).
    reflexivity.
  - vm_compute. eauto.
Defined.

(** ** Metadata *)

Lemma or_else_truthy (a b : option value) :
  truthy b = true -> truthy (or_else a b) = true.
Proof. unfold or_else. destruct (truthy a) eqn:E; auto. Qed.

Lemma or_else_taken (a b : option value) :
  truthy a = true -> or_else a b = a.
Proof. unfold or_else. now intros ->. Qed.

Section Metadata.
Context {W : Type} (env : world W).

(** What a refresh does to the four metadata attributes: a success runs
    [_update_metadata] on the new snapshot, anything else leaves them. *)
Lemma refresh_metadata (c : coordinator) (w : W) (r : result exn snapshot)
    (c' : coordinator) (w' : W) (tr : list event) :
  exec env refresh c w = (r, c', w', tr) ->
  match r with
  | Ok d =>
      manufacturer c'
      = or_else (if negb (truthy (d !! "manufacturer"))
                    && match protocol c' with Some APC_MIB => true | _ => false end
                 then Some (VStr "APC") else d !! "manufacturer") (manufacturer c)
      /\ hw_model c' = or_else (d !! "model") (hw_model c)
      /\ serial_number c' = or_else (d !! "serial_number") (serial_number c)
      /\ fw_version c' = or_else (d !! "firmware") (fw_version c)
  | Err _ =>
      manufacturer c' = manufacturer c /\ hw_model c' = hw_model c
      /\ serial_number c' = serial_number c /\ fw_version c' = fw_version c
  end.
Proof.
  intros Hex.
  apply refresh_outcome in Hex
    as [(_ & -> & _ & rem & ->)
       |(_ & c1 & c2 & probes & rest & Hdet & Hc2 & _ & _ & _ & _ & _ & Hr)];
    [repeat split|].
  assert (H2 : manufacturer c2 = manufacturer c /\ hw_model c2 = hw_model c
               /\ serial_number c2 = serial_number c /\ fw_version c2 = fw_version c).
  { destruct Hdet as [[_ ->]|(_ & p & v & -> & _)]; destruct Hc2 as [-> | [now ->]];
      repeat split. }
  destruct H2 as (Hm & Hh & Hs & Hf).
  destruct r as [d|e].
  - destruct Hr as (-> & _). cbn. rewrite Hm, Hh, Hs, Hf. repeat split.
  - destruct Hr as (_ & t & _ & Hr).
    apply failure_state in Hr as [until ->]. cbn. auto.
Qed.

(** X9.  Device metadata is sticky.  Once the manufacturer, the model,
    the serial number or the firmware version holds a value that counts as
    true, no later refresh takes it away: a refresh that fails, or is turned
    away, leaves all four as they were, and a successful one replaces a
    field only by the snapshot's value for it when that value counts as
    true. *)
Theorem metadata_is_sticky (c c' : coordinator) :
  later env c c' ->
  (truthy (manufacturer c) = true -> truthy (manufacturer c') = true)
  /\ (truthy (hw_model c) = true -> truthy (hw_model c') = true)
  /\ (truthy (serial_number c) = true -> truthy (serial_number c') = true)
  /\ (truthy (fw_version c) = true -> truthy (fw_version c') = true)
  /\ forall (w : W) r c'' w' tr,
       exec env refresh c' w = (r, c'', w', tr) ->
       match r with
       | Ok d =>
           (truthy (d !! "model") = true -> hw_model c'' = d !! "model")
           /\ (truthy (d !! "serial_number") = true ->
               serial_number c'' = d !! "serial_number")
           /\ (truthy (d !! "firmware") = true -> fw_version c'' = d !! "firmware")
           /\ (truthy (d !! "manufacturer") = true ->
               manufacturer c'' = d !! "manufacturer")
           /\ (truthy (d !! "model") = false -> hw_model c'' = hw_model c')
           /\ (truthy (d !! "serial_number") = false ->
               serial_number c'' = serial_number c')
           /\ (truthy (d !! "firmware") = false -> fw_version c'' = fw_version c')
       | Err _ =>
           manufacturer c'' = manufacturer c' /\ hw_model c'' = hw_model c'
           /\ serial_number c'' = serial_number c' /\ fw_version c'' = fw_version c'
       end.
Proof.
  intros Hl.
  assert (Hkeep : (truthy (manufacturer c) = true -> truthy (manufacturer c') = true)
                  /\ (truthy (hw_model c) = true -> truthy (hw_model c') = true)
                  /\ (truthy (serial_number c) = true -> truthy (serial_number c') = true)
                  /\ (truthy (fw_version c) = true -> truthy (fw_version c') = true)).
  { induction Hl as [|c1 w r c2 w' tr Hl IH Hex]; [auto|].
    destruct IH as (I1 & I2 & I3 & I4).
    apply refresh_metadata in Hex. destruct r as [d|e].
    - destruct Hex as (-> & -> & -> & ->).
      repeat split; intros H; apply or_else_truthy; auto.
    - destruct Hex as (-> & -> & -> & ->). auto. }
  destruct Hkeep as (K1 & K2 & K3 & K4).
  split; [exact K1|]. split; [exact K2|]. split; [exact K3|]. split; [exact K4|].
  intros w r c'' w' tr Hex. apply refresh_metadata in Hex. destruct r as [d|e]; [|exact Hex].
  destruct Hex as (Em & Eh & Es & Ef). rewrite Em, Eh, Es, Ef.
  split; [apply or_else_taken|]. split; [apply or_else_taken|].
  split; [apply or_else_taken|].
  split; [intros Ht; rewrite Ht; cbn; now apply or_else_taken|].
  unfold or_else. split; [now intros ->|]. split; now intros ->.
Qed.

End Metadata.

Lemma metadata_is_sticky_witness :
  (truthy (manufacturer answered) = true -> truthy (manufacturer then_silent) = true)
  /\ (truthy (hw_model answered) = true -> truthy (hw_model then_silent) = true)
  /\ (truthy (serial_number answered) = true -> truthy (serial_number then_silent) = true)
  /\ (truthy (fw_version answered) = true -> truthy (fw_version then_silent) = true)
  /\ forall (w : bool) r c'' w' tr,
       exec switch_world refresh then_silent w = (r, c'', w', tr) ->
       match r with
       | Ok d =>
           (truthy (d !! "model") = true -> hw_model c'' = d !! "model")
           /\ (truthy (d !! "serial_number") = true ->
               serial_number c'' = d !! "serial_number")
           /\ (truthy (d !! "firmware") = true -> fw_version c'' = d !! "firmware")
           /\ (truthy (d !! "manufacturer") = true ->
               manufacturer c'' = d !! "manufacturer")
           /\ (truthy (d !! "model") = false -> hw_model c'' = hw_model then_silent)
           /\ (truthy (d !! "serial_number") = false ->
               serial_number c'' = serial_number then_silent)
           /\ (truthy (d !! "firmware") = false -> fw_version c'' = fw_version then_silent)
       | Err _ =>
           manufacturer c'' = manufacturer then_silent
           /\ hw_model c'' = hw_model then_silent
           /\ serial_number c'' = serial_number then_silent
           /\ fw_version c'' = fw_version then_silent
       end.
Proof.
  apply (metadata_is_sticky switch_world answered then_silent).
  apply (later_refresh switch_world _ answered false
           (exec switch_world refresh answered false).1.1.1 then_silent
           (exec switch_world refresh answered false).1.2
           (exec switch_world refresh answered false).2 (later_now _ _)).
  reflexivity.
Defined.

(** ** Entities: [sensor.py], [binary_sensor.py] and the tables of [const.py] *)

Definition DOMAIN : string := "ups_snmp_ha".

(** An entity description: its key, its display name and the snapshot key
    it reads.  Units, state and device classes play no part here. *)
Record entity_description : Type := mk_description {
  key : string;
  name : string;
  data_key : string
}.

Definition SNMP_SENSOR_DESCRIPTIONS : list entity_description :=
  [ mk_description "output_source" "Output Source" "output_source";
    mk_description "runtime_remaining" "Runtime Remaining" "runtime_remaining";
    mk_description "alarms_present" "Alarms Present" "alarms_present";
    mk_description "battery_charge" "Battery Charge" "battery_charge";
    mk_description "battery_status" "Battery Status" "battery_status_text";
    mk_description "battery_temperature" "Battery Temperature" "battery_temperature";
    mk_description "battery_voltage" "Battery Voltage" "battery_voltage";
    mk_description "bypass_frequency" "Bypass Frequency" "bypass_frequency";
    mk_description "bypass_line_count" "Bypass Line Count" "bypass_line_count";
    mk_description "input_frequency" "Input Frequency" "input_frequency";
    mk_description "input_line_count" "Input Line Count" "input_line_count";
    mk_description "input_voltage" "Input Voltage" "input_voltage";
    mk_description "output_frequency" "Output Frequency" "output_frequency";
    mk_description "output_line_count" "Output Line Count" "output_line_count";
    mk_description "seconds_on_battery" "Seconds On Battery" "seconds_on_battery" ].

Definition SNMP_BINARY_SENSOR_DESCRIPTIONS : list entity_description :=
  [ mk_description "ac_power" "AC Power" "ac_power";
    mk_description "on_battery" "On Battery" "on_battery";
    mk_description "on_bypass" "On Bypass" "on_bypass" ].

(** [f"{DOMAIN}_{entry_id}_{description.key}"] *)
Definition unique_id (entry_id : string) (description : entity_description) : string :=
  DOMAIN +:+ "_" +:+ entry_id +:+ "_" +:+ key description.

(** [x or default], [default] an object. *)
Definition or_default (a : option value) (default : value) : value :=
  match a with
  | Some v => if truthy a then v else default
  | None => default
  end.

(** The [DeviceInfo] both entity classes build in [__init__]. *)
Record device_info : Type := mk_device_info {
  di_identifiers : string * string;
  di_name : string;
  di_manufacturer : value;
  di_model : value;
  di_serial_number : option value;
  di_sw_version : option value
}.

Definition device_info_of (c : coordinator) (entry_id : string) : device_info :=
  {| di_identifiers := (DOMAIN, entry_id);
     di_name := device_name c;
     di_manufacturer := or_default (manufacturer c) (VStr "UPS");
     di_model := or_default (hw_model c) (VStr "UPS");
     di_serial_number := serial_number c;
     di_sw_version := fw_version c |}.

(** [UpsSnmpSensor.native_value] *)
Definition native_value (c : coordinator) (description : entity_description)
    : option value :=
  data c !! data_key description.

(** [UpsSnmpBinarySensor.is_on] *)
Definition is_on (c : coordinator) (description : entity_description) : option bool :=
  match data c !! data_key description with
  | None => None
  | Some v => Some (truthy (Some v))
  end.

(** The description with a given key, as the platforms iterate over the
    tables. *)
Definition described (descriptions : list entity_description) (k : string)
    : option entity_description :=
  find (fun d => String.eqb (key d) k) descriptions.

Definition sensor_value (c : coordinator) (k : string) : option value :=
  match described SNMP_SENSOR_DESCRIPTIONS k with
  | Some d => native_value c d
  | None => None
  end.

Definition binary_sensor_state (c : coordinator) (k : string) : option bool :=
  match described SNMP_BINARY_SENSOR_DESCRIPTIONS k with
  | Some d => is_on c d
  | None => None
  end.

Section Entities.
Context {W : Type} (env : world W).

(** X10.  What the entities show agrees with the codes in the same
    snapshot, in every state a coordinator can reach from its
    construction.  With an output source code in the snapshot, the three
    binary sensors are on or off as the dialect's code sets say and the
    output source sensor shows the code's label; without one, all four are
    unknown.  The battery status sensor shows the label of the snapshot's
    battery status, and is unknown without one.  The on-battery and the
    AC-power sensor are never on together. *)
Theorem entities_agree_with_codes (h : hass_handle) (host_ community_ name_ : string)
    (fast slow : Z) (c : coordinator) :
  later env (init h host_ community_ name_ fast slow) c ->
  match data c !! "output_source_raw" with
  | None =>
      binary_sensor_state c "on_battery" = None
      /\ binary_sensor_state c "ac_power" = None
      /\ binary_sensor_state c "on_bypass" = None
      /\ sensor_value c "output_source" = None
  | Some osr =>
      exists code,
        int_of_value osr = Ok code
        /\ binary_sensor_state c "on_battery"
           = Some (code_in code (battery_values_of (protocol c)))
        /\ binary_sensor_state c "ac_power"
           = Some (code_in code (normal_values_of (protocol c)))
        /\ binary_sensor_state c "on_bypass"
           = Some (String.eqb (enum_get code (source_map_of (protocol c)) "unknown")
                     "bypass")
        /\ sensor_value c "output_source"
           = Some (VStr (enum_get code (source_map_of (protocol c)) "unknown"))
  end
  /\ match data c !! "battery_status" with
     | None => sensor_value c "battery_status" = None
     | Some bs =>
         exists txt, battery_status_text bs = Ok txt
                     /\ sensor_value c "battery_status" = Some (VStr txt)
     end
  /\ ~ (binary_sensor_state c "on_battery" = Some true
        /\ binary_sensor_state c "ac_power" = Some true).
Proof.
  intros Hl. apply sound_reachable in Hl as ([Hsrc Hbat] & _).
  unfold binary_sensor_state, sensor_value, is_on, native_value.
  cbn [described find SNMP_SENSOR_DESCRIPTIONS SNMP_BINARY_SENSOR_DESCRIPTIONS
       key data_key String.eqb Ascii.eqb Bool.eqb].
  split; [|split].
  - destruct (data c !! "output_source_raw") as [osr|].
    + destruct Hsrc as (code & Hc & E1 & E2 & E3 & E4). exists code.
      rewrite E1, E2, E3, E4. auto.
    + rewrite !Hsrc; [auto|..]; set_solver.
  - destruct (data c !! "battery_status") as [bs|]; exact Hbat.
  - destruct (data c !! "output_source_raw") as [osr|].
    + destruct Hsrc as (code & Hc & E1 & E2 & E3 & E4). rewrite E2, E3. cbn.
      intros [Hb Ha].
      assert (Hb' : code_in code (battery_values_of (protocol c)) = true) by congruence.
      destruct (source_codes (protocol c) code) as [Hx _].
      destruct (Hx Hb') as (Hn & _). congruence.
    + rewrite (Hsrc "on_battery") by set_solver. intros [Hb _]. discriminate.
Qed.

End Entities.

Lemma entities_agree_with_codes_witness :
  match data then_silent !! "output_source_raw" with
  | None =>
      binary_sensor_state then_silent "on_battery" = None
      /\ binary_sensor_state then_silent "ac_power" = None
      /\ binary_sensor_state then_silent "on_bypass" = None
      /\ sensor_value then_silent "output_source" = None
  | Some osr =>
      exists code,
        int_of_value osr = Ok code
        /\ binary_sensor_state then_silent "on_battery"
           = Some (code_in code (battery_values_of (protocol then_silent)))
        /\ binary_sensor_state then_silent "ac_power"
           = Some (code_in code (normal_values_of (protocol then_silent)))
        /\ binary_sensor_state then_silent "on_bypass"
           = Some (String.eqb
                     (enum_get code (source_map_of (protocol then_silent)) "unknown")
                     "bypass")
        /\ sensor_value then_silent "output_source"
           = Some (VStr (enum_get code (source_map_of (protocol then_silent)) "unknown"))
  end
  /\ match data then_silent !! "battery_status" with
     | None => sensor_value then_silent "battery_status" = None
     | Some bs =>
         exists txt, battery_status_text bs = Ok txt
                     /\ sensor_value then_silent "battery_status" = Some (VStr txt)
     end
  /\ ~ (binary_sensor_state then_silent "on_battery" = Some true
        /\ binary_sensor_state then_silent "ac_power" = Some true).
Proof.
  apply (entities_agree_with_codes switch_world Hass "192.0.2.1" "public" "UPS" 10 300).
  apply (later_refresh switch_world _ answered false
           (exec switch_world refresh answered false).1.1.1 then_silent
           (exec switch_world refresh answered false).1.2
           (exec switch_world refresh answered false).2).
  - apply (later_refresh switch_world _ fresh true
             (exec switch_world refresh fresh true).1.1.1 answered
             (exec switch_world refresh fresh true).1.2
             (exec switch_world refresh fresh true).2 (later_now _ _)).
    reflexivity.
  - reflexivity.
Defined.
